(** * Nebraska DHHS child-care roster parser: a shallow embedding

    The development follows [parse_childcare_roster.py] and
    [test_parse_consistency.py].  Python [str] values are modelled as lists
    of characters whose code points lie in the Latin-1 range [0..255]; the
    character classes of Python's [re] module ([\s], [\d], [\w], [.]) and
    [str.strip] are written out for that range.  Regular expressions are
    kept as syntax trees and run by a backtracking matcher that follows
    the priorities of Python's engine (leftmost start, alternatives in
    order, greedy and lazy repetitions). *)

From Stdlib Require PrimFloat Uint63 ZArith.
From Stdlib Require Import Ascii String Bool Arith Lia List.
Import ListNotations.

Set Implicit Arguments.

(** ** Characters and strings *)

Definition str := list ascii.

Definition lit (s : string) : str := list_ascii_of_string s.

Definition code (c : ascii) : nat := nat_of_ascii c.

Definition in_range (lo hi : nat) (c : ascii) : bool :=
  (lo <=? code c) && (code c <=? hi).

(** [\d]: decimal digits. *)
Definition is_digit (c : ascii) : bool := in_range 48 57 c.

(** [[A-Z]] and [[a-z]]. *)
Definition is_upper (c : ascii) : bool := in_range 65 90 c.
Definition is_lower (c : ascii) : bool := in_range 97 122 c.

(** [[A-Za-z]]. *)
Definition is_alpha (c : ascii) : bool := is_upper c || is_lower c.

(** [\s] and [str.isspace]: tab..carriage return, the four separators
    0x1c..0x1f, space, NEL and the no-break space. *)
Definition is_space (c : ascii) : bool :=
  in_range 9 13 c || in_range 28 32 c || (code c =? 133) || (code c =? 160).

(** Letters and numerics of the upper half of Latin-1 ([str.isalnum]). *)
Definition is_latin1_alnum (c : ascii) : bool :=
  (code c =? 170) || (code c =? 178) || (code c =? 179) || (code c =? 181)
  || (code c =? 185) || (code c =? 186) || in_range 188 190 c
  || in_range 192 214 c || in_range 216 246 c || in_range 248 255 c.

(** [\w]. *)
Definition is_word (c : ascii) : bool :=
  is_digit c || is_alpha c || (code c =? 95) || is_latin1_alnum c.

(** [.] without DOTALL: anything but a newline. *)
Definition is_dot (c : ascii) : bool := negb (code c =? 10).

Definition ch_eqb (a b : ascii) : bool := Ascii.eqb a b.

(** Simple case mapping, as [re.IGNORECASE] uses it on this range. *)
Definition lower (c : ascii) : ascii :=
  if is_upper c || (in_range 192 222 c && negb (code c =? 215))
  then ascii_of_nat (code c + 32) else c.

Definition upper (c : ascii) : ascii :=
  if is_lower c || (in_range 224 254 c && negb (code c =? 247))
  then ascii_of_nat (code c - 32) else c.

(** Comparison of a pattern character with a text character. *)
Definition ch_match (ic : bool) (p c : ascii) : bool :=
  ch_eqb p c || (ic && ch_eqb (lower p) (lower c)).

(** Membership of a text character in a class. *)
Definition cls_match (ic : bool) (f : ascii -> bool) (c : ascii) : bool :=
  f c || (ic && (f (lower c) || f (upper c))).

Fixpoint str_eqb (a b : str) : bool :=
  match a, b with
  | [], [] => true
  | x :: a', y :: b' => ch_eqb x y && str_eqb a' b'
  | _, _ => false
  end.

(** [s.startswith(p)]. *)
Fixpoint startswith (p s : str) : bool :=
  match p, s with
  | [], _ => true
  | x :: p', y :: s' => ch_eqb x y && startswith p' s'
  | _ :: _, [] => false
  end.

(** [needle in s]. *)
Fixpoint str_in (needle s : str) : bool :=
  startswith needle s ||
  match s with
  | [] => false
  | _ :: s' => str_in needle s'
  end.

(** Index of the first occurrence, [s.find(needle)]. *)
Fixpoint str_find (needle s : str) : option nat :=
  if startswith needle s then Some 0
  else match s with
       | [] => None
       | _ :: s' => option_map S (str_find needle s')
       end.

(** [s.lstrip()], [s.rstrip()] and [s.strip()]. *)
Fixpoint lstrip (s : str) : str :=
  match s with
  | [] => []
  | x :: s' => if is_space x then lstrip s' else s
  end.

Definition rstrip (s : str) : str := rev (lstrip (rev s)).

Definition strip (s : str) : str := rstrip (lstrip s).

(** Truthiness of a string: [bool(s)]. *)
Definition nonempty (s : str) : bool :=
  match s with [] => false | _ :: _ => true end.

(** [sep.join(parts)]. *)
Fixpoint join (sep : str) (parts : list str) : str :=
  match parts with
  | [] => []
  | [x] => x
  | x :: rest => x ++ sep ++ join sep rest
  end.

(** ** Regular expressions

    The syntax covers what the patterns of the two modules use.  A
    repetition applies to a single character class, which is the only
    form the sources need ([\d+], [\s*], [.+?], [[A-Z]+], [\d{4}],
    [[A-Za-z\s\.]{0,30}?]). *)

Inductive regex : Type :=
| Eps : regex
| Lit : str -> regex                       (* a literal run of characters *)
| Cls : (ascii -> bool) -> regex           (* one character of a class *)
| Rep : (ascii -> bool) -> bool -> nat -> option nat -> regex
                                           (* class, greedy?, min, max *)
| Seq : regex -> regex -> regex
| Alt : regex -> regex -> regex
| Opt : regex -> regex                     (* greedy [r?] *)
| Grp : nat -> regex -> regex              (* capture group number n *)
| Bol : regex                              (* [^] *)
| Eol : regex                              (* [$] *)
| Wb : regex.                              (* [\b] *)

Declare Scope re_scope.
Delimit Scope re_scope with re.
Bind Scope re_scope with regex.
Infix ";;" := Seq (at level 61, right associativity) : re_scope.
Infix "-|-" := Alt (at level 62, right associativity) : re_scope.

Definition plus (f : ascii -> bool) : regex := Rep f true 1 None.
Definition star (f : ascii -> bool) : regex := Rep f true 0 None.
Definition lazy_plus (f : ascii -> bool) : regex := Rep f false 1 None.
Definition exactly (n : nat) (f : ascii -> bool) : regex := Rep f true n (Some n).
Definition chr (c : ascii) : regex := Cls (ch_eqb c).
Definition tok (s : string) : regex := Lit (lit s).

(** A position in the subject: the characters already passed, most recent
    first, and the characters ahead. *)
Record cursor : Type := Cursor { seen : str; ahead : str }.

Definition offset (z : cursor) : nat := length (seen z).

(** Captured groups: number, start offset and text. *)
Definition caps := list (nat * (nat * str)).

Fixpoint group (n : nat) (c : caps) : option (nat * str) :=
  match c with
  | [] => None
  | (m, v) :: c' => if m =? n then Some v else group n c'
  end.

(** The text between two cursors of the same subject. *)
Definition between (z z' : cursor) : str :=
  rev (firstn (offset z' - offset z) (seen z')).

Definition cont := cursor -> caps -> option (cursor * caps).

Notation "x <|> y" :=
  (match x with Some r => Some r | None => y end)
  (at level 65, right associativity, only parsing).

Fixpoint lit_match (ic : bool) (s : str) (z : cursor) : option cursor :=
  match s with
  | [] => Some z
  | p :: s' =>
      match ahead z with
      | c :: q => if ch_match ic p c
                  then lit_match ic s' (Cursor (c :: seen z) q)
                  else None
      | [] => None
      end
  end.

Definition can_repeat (hi : option nat) : bool :=
  match hi with Some 0 => false | _ => true end.

Definition one_less (hi : option nat) : option nat :=
  match hi with Some n => Some (pred n) | None => None end.

(** Repetition of a class: a greedy one takes characters first and gives
    them back one at a time, a lazy one tries the continuation first. *)
Fixpoint rep_match (ic : bool) (f : ascii -> bool) (greedy : bool)
         (lo : nat) (hi : option nat) (p q : str) (c : caps) (k : cont)
         {struct q} : option (cursor * caps) :=
  let stop := fun _ : unit =>
    if lo =? 0 then k (Cursor p q) c else None in
  let more := fun _ : unit =>
    match q with
    | x :: q' =>
        if cls_match ic f x && can_repeat hi
        then rep_match ic f greedy (pred lo) (one_less hi) (x :: p) q' c k
        else None
    | [] => None
    end in
  if greedy then more tt <|> stop tt else stop tt <|> more tt.

Definition prev_is_word (z : cursor) : bool :=
  match seen z with x :: _ => is_word x | [] => false end.

Definition next_is_word (z : cursor) : bool :=
  match ahead z with x :: _ => is_word x | [] => false end.

(** [$] without MULTILINE: the end of the subject, or just before a
    newline that ends it. *)
Definition at_eol (z : cursor) : bool :=
  match ahead z with
  | [] => true
  | [x] => code x =? 10
  | _ => false
  end.

Fixpoint rmatch (ic : bool) (r : regex) (z : cursor) (c : caps) (k : cont)
  : option (cursor * caps) :=
  match r with
  | Eps => k z c
  | Lit s => match lit_match ic s z with
             | Some z' => k z' c
             | None => None
             end
  | Cls f => match ahead z with
             | x :: q => if cls_match ic f x
                         then k (Cursor (x :: seen z) q) c else None
             | [] => None
             end
  | Rep f greedy lo hi => rep_match ic f greedy lo hi (seen z) (ahead z) c k
  | Seq r1 r2 => rmatch ic r1 z c (fun z' c' => rmatch ic r2 z' c' k)
  | Alt r1 r2 => rmatch ic r1 z c k <|> rmatch ic r2 z c k
  | Opt r1 => rmatch ic r1 z c k <|> k z c
  | Grp n r1 =>
      rmatch ic r1 z c
             (fun z' c' => k z' ((n, (offset z, between z z')) :: c'))
  | Bol => match seen z with [] => k z c | _ :: _ => None end
  | Eol => if at_eol z then k z c else None
  | Wb => if xorb (prev_is_word z) (next_is_word z) then k z c else None
  end.

(** A successful match: where it starts, the cursor where it ends and the
    groups it captured. *)
Record found : Type := Found { m_start : nat; m_stop : cursor; m_caps : caps }.

Definition m_end (m : found) : nat := offset (m_stop m).

(** [m.group(n)] for a group that may not have taken part. *)
Definition group_text (n : nat) (m : found) : option str :=
  option_map snd (group n (m_caps m)).

(** [m.group(n)] read as a string, the empty string standing for [None]. *)
Definition grp (n : nat) (m : found) : str :=
  match group_text n m with Some t => t | None => [] end.

(** The last continuation.  After an empty match [re.sub] asks the next
    match not to be empty at the same place ([must_advance]). *)
Definition accept (must_advance : bool) (start : nat) : cont :=
  fun z c =>
    if must_advance && (offset z =? start) then None else Some (z, c).

Definition match_at (ic : bool) (r : regex) (must_advance : bool)
           (z : cursor) : option found :=
  match rmatch ic r z [] (accept must_advance (offset z)) with
  | Some (z', c) => Some (Found (offset z) z' c)
  | None => None
  end.

(** The scan of [re.search]: every start position from left to right. *)
Fixpoint search_from (ic : bool) (r : regex) (must_advance : bool)
         (p q : str) : option found :=
  match_at ic r must_advance (Cursor p q) <|>
  match q with
  | x :: q' => search_from ic r false (x :: p) q'
  | [] => None
  end.

(** [re.search(r, s)] and [re.match(r, s)]; [ic] is [re.IGNORECASE]. *)
Definition re_search (ic : bool) (r : regex) (s : str) : option found :=
  search_from ic r false [] s.

Definition re_match (ic : bool) (r : regex) (s : str) : option found :=
  match_at ic r false (Cursor [] s).

(** The loop of [re.sub]: copy up to the next match, put the replacement,
    go on after the match. *)
Fixpoint sub_loop (fuel : nat) (ic : bool) (r : regex) (repl : str)
         (must_advance : bool) (p q : str) : str :=
  match fuel with
  | 0 => q
  | S fuel' =>
      match search_from ic r must_advance p q with
      | None => q
      | Some m =>
          firstn (m_start m - length p) q ++ repl ++
          sub_loop fuel' ic r repl (m_end m =? m_start m)
                   (seen (m_stop m)) (ahead (m_stop m))
      end
  end.

Definition re_sub (ic : bool) (r : regex) (repl : str) (s : str) : str :=
  sub_loop (2 * length s + 2) ic r repl false [] s.

(** [s.split(sep)] for a non-empty separator: [skip] counts the separator
    characters still to pass, [cur] is the part being read, reversed. *)
Fixpoint split_aux (sep : str) (skip : nat) (cur : str) (s : str) : list str :=
  match s with
  | [] => [rev cur]
  | x :: s' =>
      match skip with
      | S n => split_aux sep n cur s'
      | 0 => if startswith sep s
             then rev cur :: split_aux sep (length sep - 1) [] s'
             else split_aux sep 0 (x :: cur) s'
      end
  end.

Definition split (sep : str) (s : str) : list str := split_aux sep 0 [] s.

(** ** parse_childcare_roster.py: the field extractors *)

(** [LICENSE_PATTERNS]: the license prefixes and the type each stands for. *)
Definition LICENSE_PATTERNS : list (str * str) :=
  [ (lit "FII", lit "Family Child Care Home II");
    (lit "FI", lit "Family Child Care Home I");
    (lit "CCC", lit "Child Care Center");
    (lit "PRE", lit "Preschool");
    (lit "SAOC", lit "School-Age-Only Child Care Center") ].

Definition FACILITY_TYPES : list str :=
  [ lit "Family Child Care Home II";
    lit "Family Child Care Home I";
    lit "Child Care Center";
    lit "School-Age-Only Child Care Center";
    lit "Preschool" ].

(** [\b(FII?\d+|CCC\d+|PRE\d+|SAOC\d+)\b] *)
Definition license_alternatives : regex :=
  ((tok "FI" ;; Opt (chr "I") ;; plus is_digit)
   -|- (tok "CCC" ;; plus is_digit)
   -|- (tok "PRE" ;; plus is_digit)
   -|- (tok "SAOC" ;; plus is_digit))%re.

Definition license_re : regex := (Wb ;; Grp 1 license_alternatives ;; Wb)%re.

Definition extract_license_number (text : str) : str :=
  match re_search false license_re text with
  | Some m => grp 1 m
  | None => []
  end.

(** [Capacity:\s*(\d+)] *)
Definition capacity_re : regex :=
  (tok "Capacity:" ;; star is_space ;; Grp 1 (plus is_digit))%re.

Definition extract_capacity (text : str) : str :=
  match re_search false capacity_re text with
  | Some m => grp 1 m
  | None => []
  end.

(** [Days of Week Open:\s*([A-Z]+)] *)
Definition days_re : regex :=
  (tok "Days of Week Open:" ;; star is_space ;; Grp 1 (plus is_upper))%re.

Definition extract_days (text : str) : str :=
  match re_search false days_re text with
  | Some m => grp 1 m
  | None => []
  end.

(** [Ages:\s*(.+?)(?:\s*$)] *)
Definition ages_re : regex :=
  (tok "Ages:" ;; star is_space ;; Grp 1 (lazy_plus is_dot)
   ;; star is_space ;; Eol)%re.

Definition extract_ages (text : str) : str :=
  match re_search false ages_re text with
  | Some m => strip (grp 1 m)
  | None => []
  end.

(** [Hours:\s*(\d{4})\s*To\s*(\d{4})] *)
Definition hours_re : regex :=
  (tok "Hours:" ;; star is_space ;; Grp 1 (exactly 4 is_digit)
   ;; star is_space ;; tok "To" ;; star is_space
   ;; Grp 2 (exactly 4 is_digit))%re.

Definition extract_hours (text : str) : str :=
  match re_search false hours_re text with
  | Some m => grp 1 m ++ lit " To " ++ grp 2 m
  | None => []
  end.

(** [^\((\d{3})\)\s*(\d{3})-?(\d{4})] *)
Definition phone_re : regex :=
  (Bol ;; chr "(" ;; Grp 1 (exactly 3 is_digit) ;; chr ")" ;; star is_space
   ;; Grp 2 (exactly 3 is_digit) ;; Opt (chr "-")
   ;; Grp 3 (exactly 4 is_digit))%re.

Definition extract_phone (text : str) : str :=
  match re_match false phone_re text with
  | Some m => lit "(" ++ grp 1 m ++ lit ") " ++ grp 2 m ++ lit "-" ++ grp 3 m
  | None => []
  end.

(** [\b(\d{2}/\d{2}/\d{4})\b] *)
Definition date_body : regex :=
  (exactly 2 is_digit ;; chr "/" ;; exactly 2 is_digit ;; chr "/"
   ;; exactly 4 is_digit)%re.

Definition date_re : regex := (Wb ;; Grp 1 date_body ;; Wb)%re.

Definition extract_effective_date (text : str) : str :=
  match re_search false date_re text with
  | Some m => grp 1 m
  | None => []
  end.

(** [\b([A-Za-z][A-Za-z\s\.]{0,30}?)\s+NE\s+(\d{5})\b] *)
Definition is_city_char (c : ascii) : bool :=
  is_alpha c || is_space c || ch_eqb "." c.

Definition city_re : regex :=
  (Wb ;; Grp 1 (Cls is_alpha ;; Rep is_city_char false 0 (Some 30))
   ;; plus is_space ;; tok "NE" ;; plus is_space
   ;; Grp 2 (exactly 5 is_digit) ;; Wb)%re.

(** [\bNEBRASKA\b] *)
Definition nebraska_re : regex := (Wb ;; tok "NEBRASKA" ;; Wb)%re.

Definition extract_city_state_zip (text : str) : str * str * str :=
  match re_search false city_re text with
  | Some m =>
      let city := strip (grp 1 m) in
      let city := strip (re_sub true nebraska_re [] city) in
      if nonempty city then (city, lit "NE", grp 2 m) else ([], [], [])
  | None => ([], [], [])
  end.

(** The loop of [extract_facility_type] over a list of type names. *)
Fixpoint first_type_in (types : list str) (text : str) : str :=
  match types with
  | [] => []
  | ftype :: rest =>
      if str_in ftype text then ftype else first_type_in rest text
  end.

Definition extract_facility_type (text : str) : str :=
  first_type_in FACILITY_TYPES text.

(** [re.escape(prefix)\s*([YN])?]; the prefix is matched literally. *)
Definition is_YN (c : ascii) : bool := ch_eqb "Y" c || ch_eqb "N" c.

Definition yn_re (prefix : str) : regex :=
  (Lit prefix ;; star is_space ;; Opt (Grp 1 (Cls is_YN)))%re.

Definition extract_yn_value (line prefix : str) : str :=
  if str_in prefix line then
    match re_search false (yn_re prefix) line with
    | Some m => grp 1 m
    | None => []
    end
  else [].

(** [Step Up To Quality:\s*(\d+)?] *)
Definition step_up_re : regex :=
  (tok "Step Up To Quality:" ;; star is_space
   ;; Opt (Grp 1 (plus is_digit)))%re.

Definition extract_step_up_quality (line : str) : str :=
  match re_search false step_up_re line with
  | Some m => grp 1 m
  | None => []
  end.

(** [Accredited\?\s*([YN])?] *)
Definition accredited_re : regex :=
  (tok "Accredited?" ;; star is_space ;; Opt (Grp 1 (Cls is_YN)))%re.

Definition extract_accredited (line : str) : str :=
  match re_search false accredited_re line with
  | Some m => grp 1 m
  | None => []
  end.

(** The four trailing fragments of [clean_provider_name]:
    [\s+owned by\s*$] (IGNORECASE), [\s+OWNED BY\s*$], [\s+owned\s*$]
    (IGNORECASE) and [\s+ob\s*$] (IGNORECASE). *)
Definition trailing (w : string) : regex :=
  (plus is_space ;; tok w ;; star is_space ;; Eol)%re.

Definition clean_provider_name (name : str) : str :=
  let name := re_sub true (trailing "owned by") [] name in
  let name := re_sub false (trailing "OWNED BY") [] name in
  let name := re_sub true (trailing "owned") [] name in
  let name := re_sub true (trailing "ob") [] name in
  strip name.

(** ** The record assembler *)

Record provider : Type := Provider {
  Download_Date : str;
  Zip_Code : str;
  County : str;
  Provider_Name : str;
  License_Number : str;
  License_Type : str;
  Owner_Name : str;
  Effective_Date : str;
  Address : str;
  City : str;
  State : str;
  Phone : str;
  Capacity : str;
  Ages : str;
  Hours : str;
  Days_Open : str;
  Currently_Accepts_Subsidy : str;
  Willing_To_Accept_Subsidy : str;
  Does_Not_Accept_Subsidy : str;
  Step_Up_Quality : str;
  Accredited : str
}.

(** [^(.+?)\s+owned by\s+] (IGNORECASE) *)
Definition owned_re : regex :=
  (Bol ;; Grp 1 (lazy_plus is_dot) ;; plus is_space ;; tok "owned by"
   ;; plus is_space)%re.

(** [\s*Capacity:] *)
Definition cap_marker_re : regex := (star is_space ;; tok "Capacity:")%re.

(** [r'^(.+?)\s+' + eff_date]: the date is digits and slashes, which stand
    for themselves in a pattern. *)
Definition owner_re (eff_date : str) : regex :=
  (Bol ;; Grp 1 (lazy_plus is_dot) ;; plus is_space ;; Lit eff_date)%re.

(** Name and address from line 1, once the license number is known. *)
Definition name_and_address (line1 license : str) : str * str :=
  if nonempty license then
    match split license line1 with
    | part0 :: part1 :: _ =>
        let name_part := strip part0 in
        let name :=
          match re_search true owned_re name_part with
          | Some owned_match => clean_provider_name (grp 1 owned_match)
          | None => clean_provider_name name_part
          end in
        let after_license := part1 in
        let address :=
          match re_search false cap_marker_re after_license with
          | Some cap_match => strip (firstn (m_start cap_match) after_license)
          | None => []
          end in
        (name, address)
    | _ => ([], [])
    end
  else ([], []).

(** [for line in lines: if not provider['City']: ...] *)
Definition city_step (city line : str) : str :=
  if negb (nonempty city) then
    let '(c, _, _) := extract_city_state_zip line in
    if nonempty c then c else city
  else city.

(** The hours loop; after the first hit the loop is left. *)
Definition hours_step (hours line : str) : str :=
  if negb (nonempty hours) then
    let h := extract_hours line in
    if nonempty h then h else hours
  else hours.

(** The effective-date loop: the date, and the owner name read in front of
    it on the same line. *)
Definition date_step (acc : str * str) (line : str) : str * str :=
  let '(eff, owner) := acc in
  if negb (nonempty eff) then
    let eff_date := extract_effective_date line in
    if nonempty eff_date then
      match re_match false (owner_re eff_date) line with
      | Some owner_match => (eff_date, strip (grp 1 owner_match))
      | None => (eff_date, owner)
      end
    else acc
  else acc.

Definition phone_step (phone line : str) : str :=
  if negb (nonempty phone) then
    let p := extract_phone line in
    if nonempty p then p else phone
  else phone.

(** The five question fields, read in one pass over the lines. *)
Record answers : Type := Answers {
  a_currently : str; a_willing : str; a_does_not : str;
  a_step_up : str; a_accredited : str
}.

Definition q_currently : str := lit "Currently Accepts Subsidy?".
Definition q_willing : str := lit "Willing To Accept Subsidy?".
Definition q_does_not : str := lit "Does Not Accept Subsidy?".
Definition q_step_up : str := lit "Step Up To Quality:".
Definition q_accredited : str := lit "Accredited?".

Definition answers_step (a : answers) (line : str) : answers :=
  let cur := if str_in q_currently line && negb (nonempty (a_currently a))
             then extract_yn_value line q_currently else a_currently a in
  let wil := if str_in q_willing line && negb (nonempty (a_willing a))
             then extract_yn_value line q_willing else a_willing a in
  let dna := if str_in q_does_not line && negb (nonempty (a_does_not a))
             then extract_yn_value line q_does_not else a_does_not a in
  let stp := if str_in q_step_up line && negb (nonempty (a_step_up a))
             then extract_step_up_quality line else a_step_up a in
  let acc := if str_in q_accredited line && negb (nonempty (a_accredited a))
             then extract_accredited line else a_accredited a in
  Answers cur wil dna stp acc.

Definition empty_provider (current_zip current_county download_date : str)
  : provider :=
  Provider download_date current_zip current_county
           [] [] [] [] [] [] [] (lit "NE") [] [] [] [] [] [] [] [] [] [].

Definition parse_provider_block (lines : list str)
           (current_zip current_county download_date : str) : provider :=
  match lines with
  | [] => empty_provider current_zip current_county download_date
  | line1 :: _ =>
      let license := extract_license_number line1 in
      let capacity := extract_capacity line1 in
      let days := extract_days line1 in
      let '(name, address) := name_and_address line1 license in
      let line2 := nth 1 lines [] in
      let license_type := extract_facility_type line2 in
      let ages := extract_ages line2 in
      let city := fold_left city_step lines [] in
      let hours := fold_left hours_step lines [] in
      let '(eff, owner) := fold_left date_step lines ([], []) in
      let phone := fold_left phone_step lines [] in
      let a := fold_left answers_step lines (Answers [] [] [] [] []) in
      Provider download_date current_zip current_county
               name license license_type owner eff address city (lit "NE")
               phone capacity ages hours days
               (a_currently a) (a_willing a) (a_does_not a)
               (a_step_up a) (a_accredited a)
  end.

(** ** The line classifier *)

Definition is_provider_start_line (line : str) : bool :=
  let has_license :=
    match re_search false license_re line with
    | Some _ => true
    | None => false
    end in
  let has_capacity := str_in (lit "Capacity:") line in
  has_license && has_capacity.

(** [^(\d{5})\s+([A-Za-z]+)\s*$] *)
Definition zip_header_re : regex :=
  (Bol ;; Grp 1 (exactly 5 is_digit) ;; plus is_space
   ;; Grp 2 (plus is_alpha) ;; star is_space ;; Eol)%re.

Definition is_zip_header (line : str) : option found :=
  re_match false zip_header_re line.

Definition SKIP_MARKERS : list str :=
  [ lit "CHILD CARE LICENSING ROSTER";
    lit "Date of Printing:";
    lit "ZIP CODE";
    lit "PROVIDER NAME";
    lit "OWNER NAME";
    lit "PHONE NUMBER" ].

(** [any(skip in line for skip in [...])] *)
Definition is_header_line (line : str) : bool :=
  existsb (fun skip => str_in skip line) SKIP_MARKERS.

Definition TOTAL_PREFIX : str := lit "Total Number in Zip Code:".

Definition is_total_line (line : str) : bool := startswith TOTAL_PREFIX line.

(** ** The block segmenter: extract_providers_from_pdf *)

(** A call of [parse_provider_block]: the lines handed over and the
    zip/county context of that moment. *)
Record block : Type := Block { b_lines : list str; b_zip : str; b_county : str }.

(** The variables of [extract_providers_from_pdf].  [handed] is a ghost
    trace of the calls of [parse_provider_block], in order. *)
Record pstate : Type := PState {
  providers : list provider;
  current_zip : str;
  current_county : str;
  handed : list block
}.

Definition initial_state : pstate := PState [] [] [] [].

(** The inner [while i < len(lines) and lines_collected < 10] loop.  It
    returns the collected lines and the lines from index [i] on. *)
Fixpoint collect (provider_lines : list str) (lines_collected : nat)
         (lines : list str) : list str * list str :=
  match lines with
  | [] => (provider_lines, [])
  | next_line :: rest =>
      if lines_collected <? 10 then
        if is_provider_start_line next_line then (provider_lines, lines)
        else
          match is_zip_header next_line with
          | Some _ => (provider_lines, lines)
          | None =>
              if is_total_line next_line then (provider_lines, lines)
              else if is_header_line next_line then (provider_lines, lines)
              else collect (provider_lines ++ [next_line])
                           (lines_collected + 1) rest
          end
      else (provider_lines, lines)
  end.

(** [if provider['Provider_Name'] or provider['License_Number']] *)
Definition is_kept (p : provider) : bool :=
  nonempty (Provider_Name p) || nonempty (License_Number p).

Definition emit (download_date : str) (provider_lines : list str)
           (st : pstate) : pstate :=
  let provider :=
    parse_provider_block provider_lines (current_zip st) (current_county st)
                         download_date in
  PState (if is_kept provider then providers st ++ [provider]
          else providers st)
         (current_zip st) (current_county st)
         (handed st ++ [Block provider_lines (current_zip st) (current_county st)]).

(** The outer [while i < len(lines)] loop over the lines from index [i]
    on.  Every round passes at least one line, so [fuel = len(lines)]
    rounds are enough. *)
Fixpoint scan_lines (fuel : nat) (download_date : str) (lines : list str)
         (st : pstate) : pstate :=
  match fuel, lines with
  | S fuel', line :: rest =>
      if is_header_line line then scan_lines fuel' download_date rest st
      else
        match is_zip_header line with
        | Some zip_match =>
            scan_lines fuel' download_date rest
                       (PState (providers st) (grp 1 zip_match)
                               (grp 2 zip_match) (handed st))
        | None =>
            if is_total_line line then scan_lines fuel' download_date rest st
            else if is_provider_start_line line then
              let '(provider_lines, rest') := collect [line] 1 rest in
              scan_lines fuel' download_date rest'
                         (emit download_date provider_lines st)
            else scan_lines fuel' download_date rest st
        end
  | _, _ => st
  end.

Definition newline : str := [ascii_of_nat 10].

(** [[l.strip() for l in text.split('\n') if l.strip()]] *)
Definition text_lines (text : str) : list str :=
  map strip (filter (fun l => nonempty (strip l)) (split newline text)).

(** One page: [page.extract_text()] gives a string or [None]. *)
Definition scan_page (download_date : str) (st : pstate)
           (page : option str) : pstate :=
  match page with
  | None => st
  | Some text =>
      if nonempty text then
        let lines := text_lines text in
        scan_lines (length lines) download_date lines st
      else st
  end.

(** [for page in pdf.pages[1:]] *)
Definition extract_state (pages : list (option str)) (download_date : str)
  : pstate :=
  fold_left (scan_page download_date) (tl pages) initial_state.

Definition extract_providers_from_pdf (pages : list (option str))
           (download_date : str) : list provider :=
  providers (extract_state pages download_date).

(** The blocks handed to the record assembler during one parse. *)
Definition blocks_of_pdf (pages : list (option str)) (download_date : str)
  : list block :=
  handed (extract_state pages download_date).

(** ** test_parse_consistency.py: the record validator *)

(** [^(FII?\d+|CCC\d+|PRE\d+|SAOC\d+)$] *)
Definition LICENSE_PATTERN : regex := (Bol ;; Grp 1 license_alternatives ;; Eol)%re.

(** [^\(\d{3}\) \d{3}-\d{4}$] *)
Definition PHONE_PATTERN : regex :=
  (Bol ;; chr "(" ;; exactly 3 is_digit ;; chr ")" ;; chr " "
   ;; exactly 3 is_digit ;; chr "-" ;; exactly 4 is_digit ;; Eol)%re.

(** [^\d{2}/\d{2}/\d{4}$] *)
Definition DATE_PATTERN : regex := (Bol ;; date_body ;; Eol)%re.

(** [^\d{5}$] *)
Definition ZIP_PATTERN : regex := (Bol ;; exactly 5 is_digit ;; Eol)%re.

(** [PATTERN.match(s)] read as a truth value. *)
Definition matches (r : regex) (s : str) : bool :=
  match re_match false r s with Some _ => true | None => false end.

Definition VALID_LICENSE_TYPES : list str :=
  [ lit "Family Child Care Home I";
    lit "Family Child Care Home II";
    lit "Child Care Center";
    lit "School-Age-Only Child Care Center";
    lit "Preschool" ].

Definition MIN_EXPECTED_PROVIDERS : nat := 100.

(** Python's [int / int] and the comparisons on its result are binary64
    operations; counts stay far below 2^53, where the conversion is exact. *)
Definition float := PrimFloat.float.

Definition float_of_nat (n : nat) : float :=
  PrimFloat.of_uint63 (Uint63.of_Z (BinInt.Z.of_nat n)).

Definition true_div (a b : nat) : float :=
  PrimFloat.div (float_of_nat a) (float_of_nat b).

(** The messages of the validator, one constructor per f-string, carrying
    the values the f-string formats. *)
Inductive message : Type :=
| Provider_count_differs (n1 n2 : nat)
| Provider_differs (i : nat)
| More_mismatches (n : nat)
| Too_few_providers (n minimum : nat)
| Unknown_license_type (t : str)
| Missing_field (field : str) (n : nat) (pct : float)
| Invalid_license_numbers (n : nat) (example : str)
| Invalid_phone_formats_pct (n : nat) (pct : float)
| Invalid_phone_formats (n : nat)
| Invalid_date_formats (n : nat)
| Invalid_zip_codes (n : nat)
| Field_rate_low (field : str) (rate required : float).

(** The values kept in [stats]. *)
Inductive stat : Type :=
| Count (n : nat)
| Rate (r : float)
| Distribution (d : list (str * nat)).

(** [ConsistencyTestResult] *)
Record result : Type := Result {
  passed : bool;
  errors : list message;
  warnings : list message;
  stats : list (str * stat)
}.

Definition new_result : result := Result true [] [] [].

Definition add_error (message : message) (r : result) : result :=
  Result false (errors r ++ [message]) (warnings r) (stats r).

Definition add_warning (message : message) (r : result) : result :=
  Result (passed r) (errors r) (warnings r ++ [message]) (stats r).

(** [d[key] = v] on a dict kept in insertion order. *)
Fixpoint dict_set {V : Type} (key : str) (v : V) (d : list (str * V))
  : list (str * V) :=
  match d with
  | [] => [(key, v)]
  | (k, w) :: d' =>
      if str_eqb k key then (k, v) :: d' else (k, w) :: dict_set key v d'
  end.

Fixpoint dict_get {V : Type} (key : str) (d : list (str * V)) : option V :=
  match d with
  | [] => None
  | (k, w) :: d' => if str_eqb k key then Some w else dict_get key d'
  end.

Definition set_stat (key : string) (v : stat) (r : result) : result :=
  Result (passed r) (errors r) (warnings r) (dict_set (lit key) v (stats r)).

(** [counter[key] += 1] *)
Definition counter_incr (key : str) (d : list (str * nat)) : list (str * nat) :=
  match dict_get key d with
  | Some n => dict_set key (n + 1) d
  | None => dict_set key 1 d
  end.

(** [x in VALID_LICENSE_TYPES] *)
Definition in_set (x : str) (xs : list str) : bool := existsb (str_eqb x) xs.

(** [enumerate(xs)], starting at [i]. *)
Fixpoint enumerate_from {A : Type} (i : nat) (xs : list A) : list (nat * A) :=
  match xs with
  | [] => []
  | x :: xs' => (i, x) :: enumerate_from (S i) xs'
  end.

(** The local variables of [test_data_quality]. *)
Record tally : Type := Tally {
  t_result : result;
  license_types : list (str * nat);
  invalid_licenses : list (nat * str);
  invalid_phones : list (nat * str);
  invalid_dates : list (nat * str);
  invalid_zips : list (nat * str);
  missing_names : nat;
  missing_license_numbers : nat
}.

(** One round of [for i, p in enumerate(providers)]. *)
Definition quality_step (t : tally) (ip : nat * provider) : tally :=
  let '(i, p) := ip in
  let missing_names :=
    if negb (nonempty (Provider_Name p)) then missing_names t + 1
    else missing_names t in
  let '(missing_license_numbers, invalid_licenses) :=
    if negb (nonempty (License_Number p))
    then (missing_license_numbers t + 1, invalid_licenses t)
    else if negb (matches LICENSE_PATTERN (License_Number p))
    then (missing_license_numbers t,
          invalid_licenses t ++ [(i, License_Number p)])
    else (missing_license_numbers t, invalid_licenses t) in
  let '(license_types, res) :=
    if nonempty (License_Type p) then
      (counter_incr (License_Type p) (license_types t),
       if negb (in_set (License_Type p) VALID_LICENSE_TYPES)
       then add_warning (Unknown_license_type (License_Type p)) (t_result t)
       else t_result t)
    else (license_types t, t_result t) in
  let invalid_phones :=
    if nonempty (Phone p) && negb (matches PHONE_PATTERN (Phone p))
    then invalid_phones t ++ [(i, Phone p)] else invalid_phones t in
  let invalid_dates :=
    if nonempty (Effective_Date p)
       && negb (matches DATE_PATTERN (Effective_Date p))
    then invalid_dates t ++ [(i, Effective_Date p)] else invalid_dates t in
  let invalid_zips :=
    if nonempty (Zip_Code p) && negb (matches ZIP_PATTERN (Zip_Code p))
    then invalid_zips t ++ [(i, Zip_Code p)] else invalid_zips t in
  Tally res license_types invalid_licenses invalid_phones invalid_dates
        invalid_zips missing_names missing_license_numbers.

(** [(count / len(providers)) * 100] *)
Definition percent (count total : nat) : float :=
  PrimFloat.mul (true_div count total) (float_of_nat 100).

(** [if missing > 0: ... if pct > 5: error else: warning] *)
Definition report_missing (field : string) (missing total : nat)
           (r : result) : result :=
  if 0 <? missing then
    let pct := percent missing total in
    if PrimFloat.ltb (float_of_nat 5) pct
    then add_error (Missing_field (lit field) missing pct) r
    else add_warning (Missing_field (lit field) missing pct) r
  else r.

Definition report_invalid_licenses (bad : list (nat * str)) (r : result)
  : result :=
  match bad with
  | [] => r
  | (_, example) :: _ =>
      add_error (Invalid_license_numbers (length bad) example) r
  end.

Definition report_invalid_phones (bad : list (nat * str)) (total : nat)
           (r : result) : result :=
  match bad with
  | [] => r
  | _ :: _ =>
      let pct := percent (length bad) total in
      if PrimFloat.ltb (float_of_nat 10) pct
      then add_error (Invalid_phone_formats_pct (length bad) pct) r
      else add_warning (Invalid_phone_formats (length bad)) r
  end.

Definition report_if_any (bad : list (nat * str)) (m : nat -> message)
           (r : result) : result :=
  match bad with
  | [] => r
  | _ :: _ => add_error (m (length bad)) r
  end.

(** [sum(1 for p in providers if p.get(field))] *)
Definition count_with (field : provider -> str) (providers : list provider)
  : nat :=
  length (filter (fun p => nonempty (field p)) providers).

Definition test_data_quality (providers : list provider) : result :=
  let result := new_result in
  let result :=
    if length providers <? MIN_EXPECTED_PROVIDERS
    then add_error (Too_few_providers (length providers)
                                      MIN_EXPECTED_PROVIDERS) result
    else result in
  let result := set_stat "total_providers" (Count (length providers)) result in
  let t := fold_left quality_step (enumerate_from 0 providers)
                     (Tally result [] [] [] [] [] 0 0) in
  let result := t_result t in
  let result := report_missing "Provider_Name" (missing_names t)
                               (length providers) result in
  let result := report_missing "License_Number" (missing_license_numbers t)
                               (length providers) result in
  let result := report_invalid_licenses (invalid_licenses t) result in
  let result := report_invalid_phones (invalid_phones t)
                                      (length providers) result in
  let result := report_if_any (invalid_dates t) Invalid_date_formats result in
  let result := report_if_any (invalid_zips t) Invalid_zip_codes result in
  let result := set_stat "license_type_distribution"
                         (Distribution (license_types t)) result in
  let result := set_stat "providers_with_phone"
                         (Count (count_with Phone providers)) result in
  set_stat "providers_with_address"
           (Count (count_with Address providers)) result.

Definition key_fields : list (string * (provider -> str)) :=
  [ ("License_Number"%string, License_Number);
    ("Provider_Name"%string, Provider_Name);
    ("Zip_Code"%string, Zip_Code);
    ("County"%string, County);
    ("License_Type"%string, License_Type);
    ("Capacity"%string, Capacity) ].

(** The default [required_rate=0.90]: the binary64 value nearest to 9/10. *)
Definition default_required_rate : float := true_div 9 10.

Definition completeness_step (providers : list provider)
           (required_rate : float) (r : result)
           (kf : string * (provider -> str)) : result :=
  let '(field, get) := kf in
  let populated := count_with get providers in
  let rate := match providers with
              | [] => float_of_nat 0
              | _ :: _ => true_div populated (length providers)
              end in
  let r := Result (passed r) (errors r) (warnings r)
                  (dict_set (lit field ++ lit "_rate") (Rate rate) (stats r)) in
  if PrimFloat.ltb rate required_rate
  then add_error (Field_rate_low (lit field) rate required_rate) r
  else r.

Definition test_field_completeness (providers : list provider)
           (required_rate : float) : result :=
  fold_left (completeness_step providers required_rate) key_fields new_result.

(** [p1 != p2] on two records, field by field. *)
Definition provider_eqb (p1 p2 : provider) : bool :=
  forallb (fun get : provider -> str => str_eqb (get p1) (get p2))
    [ Download_Date; Zip_Code; County; Provider_Name; License_Number;
      License_Type; Owner_Name; Effective_Date; Address; City; State; Phone;
      Capacity; Ages; Hours; Days_Open; Currently_Accepts_Subsidy;
      Willing_To_Accept_Subsidy; Does_Not_Accept_Subsidy; Step_Up_Quality;
      Accredited ].

Definition parser := list (option str) -> str -> list provider.

(** One round of the comparison loop: the count of mismatches so far and
    the result. *)
Definition determinism_step (acc : nat * result)
           (ipp : nat * (provider * provider)) : nat * result :=
  let '(mismatches, r) := acc in
  let '(i, (p1, p2)) := ipp in
  if negb (provider_eqb p1 p2) then
    let mismatches := mismatches + 1 in
    if mismatches <=? 3 then (mismatches, add_error (Provider_differs i) r)
    else (mismatches, r)
  else acc.

Definition test_parsing_determinism (pdf : list (option str))
           (parse_func : parser) (download_date : str) : result :=
  let result := new_result in
  let providers1 := parse_func pdf download_date in
  let providers2 := parse_func pdf download_date in
  if negb (length providers1 =? length providers2) then
    add_error (Provider_count_differs (length providers1) (length providers2))
              result
  else
    let result := set_stat "provider_count" (Count (length providers1)) result in
    let '(mismatches, result) :=
      fold_left determinism_step
                (enumerate_from 0 (combine providers1 providers2))
                (0, result) in
    if 3 <? mismatches then add_error (More_mismatches (mismatches - 3)) result
    else result.

(** [combined.stats.update(other)] *)
Definition stats_update (other into : list (str * stat)) : list (str * stat) :=
  fold_left (fun d kv => dict_set (fst kv) (snd kv) d) other into.

(** [for k, v in other.items(): if k not in combined.stats: ...] *)
Definition stats_add_missing (other into : list (str * stat))
  : list (str * stat) :=
  fold_left (fun d kv => match dict_get (fst kv) d with
                         | Some _ => d
                         | None => dict_set (fst kv) (snd kv) d
                         end) other into.

Definition run_all_tests (pdf : list (option str)) (providers : list provider)
           (parse_func : option parser) (download_date : str)
  : bool * result :=
  let combined := new_result in
  let quality_result := test_data_quality providers in
  let combined :=
    Result (passed combined) (errors combined ++ errors quality_result)
           (warnings combined ++ warnings quality_result)
           (stats_update (stats quality_result) (stats combined)) in
  let completeness_result :=
    test_field_completeness providers default_required_rate in
  let combined :=
    Result (passed combined) (errors combined ++ errors completeness_result)
           (warnings combined ++ warnings completeness_result)
           (stats_update (stats completeness_result) (stats combined)) in
  let combined :=
    match parse_func with
    | Some f =>
        let determinism_result :=
          test_parsing_determinism pdf f download_date in
        Result (passed combined) (errors combined ++ errors determinism_result)
               (warnings combined ++ warnings determinism_result)
               (stats_add_missing (stats determinism_result) (stats combined))
    | None => combined
    end in
  let combined :=
    Result (length (errors combined) =? 0) (errors combined)
           (warnings combined) (stats combined) in
  (passed combined, combined).

(** * Specification-side definitions *)

(** ** What a match is *)

Definition within (hi : option nat) (n : nat) : Prop :=
  match hi with Some h => n <= h | None => True end.

(** [z'] lies [t] further than [z] in the same subject. *)
Definition advance (z : cursor) (t : str) (z' : cursor) : Prop :=
  ahead z = t ++ ahead z' /\ seen z' = rev t ++ seen z.

Fixpoint Match (ic : bool) (r : regex) (z : cursor) (c : caps)
         (z' : cursor) (c' : caps) : Prop :=
  match r with
  | Eps => z' = z /\ c' = c
  | Lit s => lit_match ic s z = Some z' /\ c' = c
  | Cls f => exists x q, ahead z = x :: q /\ cls_match ic f x = true
                         /\ z' = Cursor (x :: seen z) q /\ c' = c
  | Rep f _ lo hi =>
      exists t, advance z t z' /\ forallb (cls_match ic f) t = true
                /\ lo <= length t /\ within hi (length t) /\ c' = c
  | Seq r1 r2 => exists zm cm, Match ic r1 z c zm cm /\ Match ic r2 zm cm z' c'
  | Alt r1 r2 => Match ic r1 z c z' c' \/ Match ic r2 z c z' c'
  | Opt r1 => Match ic r1 z c z' c' \/ (z' = z /\ c' = c)
  | Grp n r1 =>
      exists c1, Match ic r1 z c z' c1
                 /\ c' = (n, (offset z, between z z')) :: c1
  | Bol => seen z = [] /\ z' = z /\ c' = c
  | Eol => at_eol z = true /\ z' = z /\ c' = c
  | Wb => xorb (prev_is_word z) (next_is_word z) = true /\ z' = z /\ c' = c
  end.

(** Every match of the pattern goes over at least one character. *)
Definition consuming (ic : bool) (r : regex) : Prop :=
  forall z c z' c' t, Match ic r z c z' c' -> advance z t z' -> t <> [].

(** What is left to do for the loop of [re.sub]: two rounds per character
    ahead, and one more unless the next match has to advance. *)
Definition sub_work (must_advance : bool) (q : str) : nat :=
  2 * length q + (if must_advance then 0 else 1).

(** ** The line classifier in the words of the specification *)

(** The five license-prefix families. *)
Definition license_families : list str := map fst LICENSE_PATTERNS.

(** A license number: a family prefix followed by one or more digits. *)
Definition is_license_token (tok : str) : Prop :=
  exists fam ds, In fam license_families /\ ds <> []
                 /\ forallb is_digit ds = true /\ tok = fam ++ ds.

Definition last_is_word (pre : str) : bool :=
  match rev pre with x :: _ => is_word x | [] => false end.

Definition first_is_word (post : str) : bool :=
  match post with x :: _ => is_word x | [] => false end.

(** The line holds a license number as a whole word: no word character
    touches it on either side. *)
Definition has_license_token (line : str) : Prop :=
  exists pre tok post,
    line = pre ++ tok ++ post /\ is_license_token tok
    /\ last_is_word pre = false /\ first_is_word post = false.

(** [needle] occurs in [line]. *)
Definition contains (needle line : str) : Prop :=
  exists a b, line = a ++ needle ++ b.

(** The role of a line, decided in the order of the tests of the outer
    loop of [extract_providers_from_pdf]. *)
Inductive role : Type :=
| Header
| Zip_header (zip county : str)
| Total
| Record_start
| Continuation.

Definition classify (line : str) : role :=
  if is_header_line line then Header
  else match is_zip_header line with
       | Some zip_match => Zip_header (grp 1 zip_match) (grp 2 zip_match)
       | None =>
           if is_total_line line then Total
           else if is_provider_start_line line then Record_start
           else Continuation
       end.

(** The lines at which the inner loop breaks. *)
Definition stops (line : str) : bool :=
  is_provider_start_line line
  || match is_zip_header line with Some _ => true | None => false end
  || is_total_line line || is_header_line line.

(** No letter comes after a space that follows a letter. *)
Definition no_gap (l : str) : Prop :=
  forall p x s q,
    l = p ++ x :: s :: q -> is_alpha x = true -> is_space s = true ->
    forallb is_space q = true.

(** ** The segmenter *)

(** The outer loop with the fuel it needs. *)
Definition run (download_date : str) (lines : list str) (st : pstate) : pstate :=
  scan_lines (length lines) download_date lines st.

(** The zip/county context: the pair of the most recent zip-county header
    among [lines], or [ctx] when there is none. *)
Definition context_step (ctx : str * str) (line : str) : str * str :=
  match classify line with
  | Zip_header zip county => (zip, county)
  | _ => ctx
  end.

Definition context_after (lines : list str) (ctx : str * str) : str * str :=
  fold_left context_step lines ctx.

Definition context_of (st : pstate) : str * str :=
  (current_zip st, current_county st).

(** The lines of a page. *)
Definition page_lines (page : option str) : list str :=
  match page with
  | Some text => text_lines text
  | None => []
  end.

(** The lines the parser reads, page after page, from page 2 on. *)
Definition line_stream (pages : list (option str)) : list str :=
  concat (map page_lines (tl pages)).

(** The shape of a block: at most ten lines, the first a record start and
    no other. *)
Definition well_formed_block (b : block) : bool :=
  match b_lines b with
  | [] => false
  | first :: others =>
      is_provider_start_line first
      && forallb (fun l => negb (is_provider_start_line l)) others
      && (length (b_lines b) <=? 10)
  end.

Definition assemble (download_date : str) (b : block) : provider :=
  parse_provider_block (b_lines b) (b_zip b) (b_county b) download_date.

(** ** Field formats *)

(** A fixed-width format: one class per character. *)
Fixpoint has_shape (shape : list (ascii -> bool)) (s : str) : bool :=
  match shape, s with
  | [], [] => true
  | f :: shape', c :: s' => f c && has_shape shape' s'
  | _, _ => false
  end.

(** [(DDD) DDD-DDDD] *)
Definition phone_shape : list (ascii -> bool) :=
  [ ch_eqb "("; is_digit; is_digit; is_digit; ch_eqb ")"; ch_eqb " ";
    is_digit; is_digit; is_digit; ch_eqb "-";
    is_digit; is_digit; is_digit; is_digit ].

(** [DD/DD/DDDD] *)
Definition date_shape : list (ascii -> bool) :=
  [ is_digit; is_digit; ch_eqb "/"; is_digit; is_digit; ch_eqb "/";
    is_digit; is_digit; is_digit; is_digit ].

(** Five digits. *)
Definition zip_shape : list (ascii -> bool) :=
  [ is_digit; is_digit; is_digit; is_digit; is_digit ].

(** ** Trailing fragments of a name *)

(** The rest of [s] after a copy of [w] in any letter case. *)
Fixpoint ci_prefix (w s : str) : option str :=
  match w with
  | [] => Some s
  | p :: w' =>
      match s with
      | c :: s' => if ch_match true p c then ci_prefix w' s' else None
      | [] => None
      end
  end.

(** [y] ends in the word [w], in any letter case, with a white-space
    character in front of it. *)
Definition ends_with_fragment (w y : str) : bool :=
  match ci_prefix (rev w) (rev y) with
  | Some (sp :: _) => is_space sp
  | _ => false
  end.

(** The fragments [clean_provider_name] removes. *)
Definition FRAGMENTS : list str := [lit "owned by"; lit "owned"; lit "ob"].

Definition has_trailing_fragment (y : str) : bool :=
  existsb (fun w => ends_with_fragment w y) FRAGMENTS.

(** No white space at the end. *)
Definition ends_clean (s : str) : Prop :=
  match rev s with c :: _ => is_space c = false | [] => True end.

(** No white space at the start. *)
Definition starts_clean (s : str) : Prop :=
  match s with c :: _ => is_space c = false | [] => True end.

(** ** The validator *)

Definition is_volume_error (m : message) : bool :=
  match m with Too_few_providers _ _ => true | _ => false end.

(** Later steps of the validator keep a failure and every error. *)
Definition keeps (r r' : result) : Prop :=
  (passed r = false -> passed r' = false)
  /\ (forall m, In m (errors r) -> In m (errors r'))
  /\ (forall m, is_volume_error m = true -> In m (errors r') -> In m (errors r)).

(** ** Sample inputs *)

Definition school_age_center : str := lit "School-Age-Only Child Care Center".

Definition sunny_days_line : str :=
  lit "Sunny Days CCC9578 123 Main St Capacity: 10 MTWTHF".

Definition sunny_days_labelled_line : str :=
  lit "Sunny Days CCC9578 123 Main St Capacity: 10 Days of Week Open: MTWTHF".

Definition washington_header : str := lit "68002 Washington".

Definition sunny_start_line : str :=
  lit "Sunny Days CCC9578 123 Main St Capacity: 10 Days of Week Open: MTWTHF".

Definition bright_start_line : str :=
  lit "Bright Start FI12640 9 Elm St Capacity: 8 Days of Week Open: MTWTHF".

(** A record-start line whose provider name holds a header marker. *)
Definition marked_start_line : str :=
  lit "ZIP CODE Kids CCC9578 12 Oak St Capacity: 40 Days of Week Open: MTWTHF".

(** A record-start line that begins with the total prefix. *)
Definition total_start_line : str :=
  lit "Total Number in Zip Code: 3 CCC9578 12 Oak St Capacity: 40".

Definition stacked_fragments : str := lit "Bright Start ob ob".

Definition owned_by_name : str := lit "Bright Start owned by".

(** A small document: a title page, then one page of roster text. *)
Definition sample_page : option str :=
  Some (join newline
    [ lit "CHILD CARE LICENSING ROSTER";
      washington_header;
      sunny_start_line;
      lit "Jane Doe 04/30/2024 Child Care Center Ages: 6 WKS To 13 YRS";
      lit "Arlington NE 68002 Hours: 0600 To 1800";
      lit "(402) 555-1234 Currently Accepts Subsidy? Y";
      bright_start_line;
      lit "Total Number in Zip Code: 2" ]).

Definition sample_pdf : list (option str) :=
  [Some (lit "Nebraska DHHS"); sample_page].

Definition sample_date : str := lit "2024-05-01".

Definition sample_block : block :=
  Block [bright_start_line] (lit "68002") (lit "Washington").

(** The first record of the sample document. *)
Definition sample_record : provider :=
  Eval vm_compute in
    hd (empty_provider [] [] [])
       (extract_providers_from_pdf sample_pdf sample_date).

Definition propagation_conts : list str :=
  [ lit "Jane Doe 04/30/2024 Child Care Center Ages: 6 WKS To 13 YRS";
    lit "Arlington NE 68002 Hours: 0600 To 1800";
    lit "(402) 555-1234 Currently Accepts Subsidy? Y" ].

Definition propagation_page : option str :=
  Some (join newline
          (washington_header :: sunny_start_line
             :: propagation_conts
             ++ [bright_start_line; lit "Total Number in Zip Code: 2"])).

Definition propagation_pdf : list (option str) :=
  [None; propagation_page; sample_page].

Definition sample_provider : provider :=
  Provider (lit "2024-05-01") (lit "68002") (lit "Washington")
           (lit "Sunny Days") (lit "CCC9578") (lit "Child Care Center")
           (lit "Jane Doe") (lit "04/30/2024") (lit "123 Main St")
           (lit "Arlington") (lit "NE") (lit "(402) 555-1234") (lit "10")
           (lit "6 WKS To 13 YRS") (lit "0600 To 1800") (lit "MTWTHF")
           (lit "Y") [] [] (lit "3") (lit "N").

(** * Further definitions *)

(** The newline character. *)
Definition nl : ascii := ascii_of_nat 10.

(** A page without text: [None], or nothing but white space. *)
Definition blank_page (page : option str) : bool :=
  match page with
  | None => true
  | Some text => forallb is_space text
  end.

Definition white_page : option str :=
  Some [" "; " "; nl; ascii_of_nat 9; nl]%char.

(** The first character, if any, is outside the class. *)
Definition not_head (f : ascii -> bool) (s : str) : Prop :=
  match s with c :: _ => f c = false | [] => True end.

(** All lines are continuation lines. *)
Definition continuations (ls : list str) : bool :=
  forallb (fun l => negb (stops l)) ls.

(** The role is [Record_start]. *)
Definition is_record_start (l : str) : bool :=
  match classify l with Record_start => true | _ => false end.

(** The number of record-start lines. *)
Definition count_record_starts (ls : list str) : nat :=
  length (filter is_record_start ls).

(** Twelve continuation lines. *)
Definition twelve_lines : list str :=
  repeat (lit "Arlington NE 68002 Hours: 0600 To 1800") 12.

(** Where a block ends: at the end of the page, at the cap of nine further
    lines, or in front of a line that is not a continuation. *)
Definition block_end (conts post : list str) : Prop :=
  post = [] \/ length conts = 9
  \/ exists x post', post = x :: post' /\ stops x = true.

(** A block as it lies in the lines of a page. *)
Definition block_in_lines (b : block) (lines : list str) : Prop :=
  exists pre first conts post,
    lines = pre ++ first :: conts ++ post
    /\ b_lines b = first :: conts
    /\ classify first = Record_start
    /\ continuations conts = true
    /\ length conts <= 9
    /\ block_end conts post.

(** ** test_parse_consistency.py: the hours pattern *)

(** [HOURS_PATTERN]: [^\d{4} To \d{4}$] *)
Definition HOURS_PATTERN : regex :=
  (Bol ;; exactly 4 is_digit ;; tok " To " ;; exactly 4 is_digit ;; Eol)%re.

(** ** Values of the coded fields *)

(** An answer to a yes/no question: [Y], [N] or nothing. *)
Definition yn_value (s : str) : Prop := s = [] \/ s = lit "Y" \/ s = lit "N".

(** [DDDD To DDDD] *)
Definition hours_shape : list (ascii -> bool) :=
  [ is_digit; is_digit; is_digit; is_digit;
    ch_eqb " "; ch_eqb "T"; ch_eqb "o"; ch_eqb " ";
    is_digit; is_digit; is_digit; is_digit ].

(** No white space at either end. *)
Definition trimmed (s : str) : Prop := starts_clean s /\ ends_clean s.

(** ** Results of the validator *)

(** A result has passed exactly when it holds no error. *)
Definition consistent (r : result) : Prop :=
  passed r = true <-> errors r = [].

(** The errors and warnings of the determinism test, when it is run. *)
Definition determinism_errors (pdf : list (option str))
           (parse_func : option parser) (download_date : str) : list message :=
  match parse_func with
  | Some f => errors (test_parsing_determinism pdf f download_date)
  | None => []
  end.

Definition determinism_warnings (pdf : list (option str))
           (parse_func : option parser) (download_date : str) : list message :=
  match parse_func with
  | Some f => warnings (test_parsing_determinism pdf f download_date)
  | None => []
  end.

(** A record the format checks of [test_data_quality] find no fault with:
    it has a license number the license pattern accepts, a known license
    type or none, and a phone, date and zip code of the expected format or
    none. *)
Definition clean_record (p : provider) : bool :=
  nonempty (License_Number p)
  && matches LICENSE_PATTERN (License_Number p)
  && (negb (nonempty (License_Type p))
      || in_set (License_Type p) VALID_LICENSE_TYPES)
  && (negb (nonempty (Phone p)) || matches PHONE_PATTERN (Phone p))
  && (negb (nonempty (Effective_Date p))
      || matches DATE_PATTERN (Effective_Date p))
  && (negb (nonempty (Zip_Code p)) || matches ZIP_PATTERN (Zip_Code p)).

(** The number of records without a name. *)
Definition unnamed (providers : list provider) : nat :=
  length (filter (fun p => negb (nonempty (Provider_Name p))) providers).

(** ** Fields searched in every line of a block *)

(** The first non-empty string of a list, or the empty string. *)
Fixpoint first_nonempty (xs : list str) : str :=
  match xs with
  | [] => []
  | x :: rest => if nonempty x then x else first_nonempty rest
  end.

(** The value the first line that yields one gives. *)
Definition first_hit (f : str -> str) (lines : list str) : str :=
  first_nonempty (map f lines).

(** The city a line gives. *)
Definition city_of (line : str) : str := fst (fst (extract_city_state_zip line)).

(** The owner name a line gives, once its date is known. *)
Definition owner_of (line : str) : str :=
  match re_match false (owner_re (extract_effective_date line)) line with
  | Some owner_match => strip (grp 1 owner_match)
  | None => []
  end.

(** The first line that holds a date. *)
Definition dated_line (lines : list str) : option str :=
  find (fun l => nonempty (extract_effective_date l)) lines.

(** The answer a line gives to a question. *)
Definition step_up_of (line : str) : str :=
  if str_in q_step_up line then extract_step_up_quality line else [].

Definition accredited_of (line : str) : str :=
  if str_in q_accredited line then extract_accredited line else [].

(** ** Phone numbers as they stand in the roster *)

(** Three digits, three digits and four digits, the white space between the
    closing parenthesis and the second group, and the dash, if any. *)
Definition phone_parts (a b c ws dash : str) : Prop :=
  length a = 3 /\ forallb is_digit a = true
  /\ length b = 3 /\ forallb is_digit b = true
  /\ length c = 4 /\ forallb is_digit c = true
  /\ forallb is_space ws = true
  /\ (dash = [] \/ dash = lit "-").

(** A text that begins with a phone number. *)
Definition phone_text (a b c ws dash tail : str) : str :=
  lit "(" ++ a ++ lit ")" ++ ws ++ b ++ dash ++ c ++ tail.

(** The normal form of a phone number. *)
Definition phone_number (a b c : str) : str :=
  lit "(" ++ a ++ lit ") " ++ b ++ lit "-" ++ c.

Definition spaced_phone_line : str :=
  lit "(402)   5551234 Currently Accepts Subsidy? Y".

(** ** download_and_parse.py *)

(** How a run of the script ends: [sys.exit(status)], or the CSV file
    written with the given records. *)
Inductive outcome : Type :=
| Exit (status : nat)
| Csv_written (providers : list provider).

(** [main]: [downloaded] is the file [download_pdf] saved, as the pages the
    parser reads from it, or [None] when the download failed; [date_str] is
    today's date. *)
Definition main (downloaded : option (list (option str))) (date_str : str)
  : outcome :=
  match downloaded with
  | None => Exit 1
  | Some pdf_path =>
      let providers := extract_providers_from_pdf pdf_path date_str in
      let '(passed, test_result) :=
        run_all_tests pdf_path providers (Some extract_providers_from_pdf)
                      date_str in
      if negb passed then Exit 1 else Csv_written providers
  end.

(** A roster of one hundred two-line records under one zip header. *)
Definition short_record_lines : list str :=
  [ lit "Kids CCC9578 1 Oak St Capacity: 40";
    lit "Jane Doe 04/30/2024 Child Care Center" ].

Definition short_record : provider :=
  parse_provider_block short_record_lines (lit "68002") (lit "Washington")
                       sample_date.

Definition full_page : option str :=
  Some (join newline
          (washington_header :: concat (repeat short_record_lines 100))).

Definition full_pdf : list (option str) := [None; full_page].

(** ** City names *)

(** A city name as [extract_city_state_zip] returns it: not empty, no white
    space at either end, made of letters, white space and periods, and of
    at most 31 characters. *)
Definition city_shape (city : str) : Prop :=
  city <> [] /\ trimmed city /\ forallb is_city_char city = true
  /\ length city <= 31.

(** ** The first line of a block *)

(** The number of places at which [needle] stands in [s]. *)
Fixpoint occurrences (needle s : str) : nat :=
  (if startswith needle s then 1 else 0)
  + match s with
    | [] => 0
    | _ :: s' => occurrences needle s'
    end.

(** The text in front of the words [owned by], if they follow a name, as
    [parse_provider_block] cuts it. *)
Definition before_owned_by (name_part : str) : str :=
  match re_search true owned_re name_part with
  | Some owned_match => grp 1 owned_match
  | None => name_part
  end.

(** The second line of the sample record. *)
Definition owner_line : str :=
  lit "Jane Doe  04/30/2024 Child Care Center Ages: 6 WKS To 13 YRS".

(** * Properties of the matcher *)

Lemma orelse_some {A : Type} (a b : option A) (r : A) :
  match a with Some x => Some x | None => b end = Some r ->
  a = Some r \/ (a = None /\ b = Some r).
Proof. destruct a; intros H; [left | right]; auto. Qed.

Lemma cursor_eta (z : cursor) : Cursor (seen z) (ahead z) = z.
Proof. destruct z; reflexivity. Qed.

Lemma advance_nil z : advance z [] z.
Proof. split; reflexivity. Qed.

Lemma advance_trans z1 t1 z2 t2 z3 :
  advance z1 t1 z2 -> advance z2 t2 z3 -> advance z1 (t1 ++ t2) z3.
Proof.
  intros [A1 S1] [A2 S2]. split.
  - rewrite A1, A2, app_assoc. reflexivity.
  - rewrite S2, S1, rev_app_distr, app_assoc. reflexivity.
Qed.

Lemma advance_one x z q :
  ahead z = x :: q -> advance z [x] (Cursor (x :: seen z) q).
Proof. intros H. split; simpl; auto. Qed.

Lemma rep_match_sound ic f g q : forall lo hi p c k res,
  rep_match ic f g lo hi p q c k = Some res ->
  exists t q', q = t ++ q' /\ forallb (cls_match ic f) t = true
               /\ lo <= length t /\ within hi (length t)
               /\ k (Cursor (rev t ++ p) q') c = Some res.
Proof.
  induction q as [|x q IH]; intros lo hi p c k res H.
  - simpl in H.
    assert (Hs : (if lo =? 0 then k (Cursor p []) c else None) = Some res).
    { destruct g; [exact H|].
      destruct (if lo =? 0 then k (Cursor p []) c else None);
        [exact H | discriminate]. }
    destruct (Nat.eqb_spec lo 0); [|discriminate].
    exists [], []. subst lo. simpl. repeat split; auto.
    destruct hi; simpl; lia.
  - simpl in H.
    assert (Hcases :
      (cls_match ic f x = true /\ can_repeat hi = true /\
       rep_match ic f g (pred lo) (one_less hi) (x :: p) q c k = Some res)
      \/ (lo = 0 /\ k (Cursor p (x :: q)) c = Some res)).
    { destruct g.
      - apply orelse_some in H. destruct H as [H | [_ H]].
        + left. destruct (cls_match ic f x); [|discriminate].
          destruct (can_repeat hi); [|discriminate]. auto.
        + right. destruct (Nat.eqb_spec lo 0); [auto | discriminate].
      - apply orelse_some in H. destruct H as [H | [_ H]].
        + right. destruct (Nat.eqb_spec lo 0); [auto | discriminate].
        + left. destruct (cls_match ic f x); [|discriminate].
          destruct (can_repeat hi); [|discriminate]. auto. }
    destruct Hcases as [(Hx & Hr & Hm) | (Hlo & Hk)].
    + destruct (IH _ _ _ _ _ _ Hm) as (t & q' & -> & Ht & Hl & Hh & Hk).
      exists (x :: t), q'. simpl. rewrite Hx, Ht. repeat split; auto.
      * lia.
      * destruct hi as [[|h]|]; simpl in *; try discriminate; lia.
      * rewrite <- app_assoc. exact Hk.
    + exists [], (x :: q). subst lo. simpl. repeat split; auto.
      destruct hi; simpl; lia.
Qed.

Lemma rep_match_complete ic f g t : forall q' lo hi p c k res,
  forallb (cls_match ic f) t = true -> lo <= length t ->
  within hi (length t) ->
  k (Cursor (rev t ++ p) q') c = Some res ->
  exists res', rep_match ic f g lo hi p (t ++ q') c k = Some res'.
Proof.
  induction t as [|x t IH]; intros q' lo hi p c k res Ht Hl Hh Hk.
  - simpl in *. assert (lo = 0) by lia. subst lo.
    destruct q' as [|y q']; simpl.
    + destruct g; rewrite Hk; eauto.
    + destruct g.
      * destruct (cls_match ic f y && can_repeat hi);
          [destruct (rep_match _ _ _ _ _ _ _ _ _)|]; eauto.
      * rewrite Hk. eauto.
  - simpl in Ht. apply andb_true_iff in Ht. destruct Ht as [Hx Ht].
    assert (Hr : can_repeat hi = true)
      by (destruct hi as [[|h]|]; simpl in *; auto; lia).
    destruct (IH q' (pred lo) (one_less hi) (x :: p) c k res) as [r' Hr'];
      auto.
    + simpl in Hl. lia.
    + destruct hi; simpl in *; auto. lia.
    + simpl in Hk. rewrite <- app_assoc in Hk. exact Hk.
    + simpl. rewrite Hx, Hr. simpl. rewrite Hr'.
      destruct g; eauto.
      destruct (lo =? 0); eauto.
      match goal with |- context [match ?a with _ => _ end] => destruct a end;
        eauto.
Qed.

Lemma lit_match_advance ic s : forall z z',
  lit_match ic s z = Some z' ->
  exists t, advance z t z' /\ Forall2 (fun p c => ch_match ic p c = true) s t.
Proof.
  induction s as [|p s IH]; intros z z' H; simpl in H.
  - inversion H; subst. exists []. split; [apply advance_nil | constructor].
  - destruct (ahead z) as [|x q] eqn:Ha; [discriminate|].
    destruct (ch_match ic p x) eqn:Hp; [|discriminate].
    destruct (IH _ _ H) as (t & Hadv & Hf).
    exists (x :: t). split.
    + apply (advance_trans (advance_one z Ha) Hadv).
    + constructor; auto.
Qed.

Lemma lit_match_intro ic s : forall t z q,
  Forall2 (fun p c => ch_match ic p c = true) s t ->
  ahead z = t ++ q ->
  lit_match ic s z = Some (Cursor (rev t ++ seen z) q).
Proof.
  induction s as [|p s IH]; intros t z q Hf Ha; inversion Hf; subst; simpl.
  - simpl in Ha. rewrite <- Ha, cursor_eta. reflexivity.
  - simpl in Ha. rewrite Ha. rewrite H1.
    rewrite (IH l' (Cursor (y :: seen z) (l' ++ q)) q); auto.
    simpl. rewrite <- app_assoc. reflexivity.
Qed.

Lemma Match_advance ic r : forall z c z' c',
  Match ic r z c z' c' -> exists t, advance z t z'.
Proof.
  induction r; simpl; intros z c z' c' H.
  - destruct H; subst. exists []. apply advance_nil.
  - destruct H as [H _]. apply lit_match_advance in H.
    destruct H as (t & H & _). eauto.
  - destruct H as (x & q & Ha & _ & -> & _). exists [x].
    apply advance_one; auto.
  - destruct H as (t & H & _). eauto.
  - destruct H as (zm & cm & H1 & H2).
    destruct (IHr1 _ _ _ _ H1) as [t1 A1].
    destruct (IHr2 _ _ _ _ H2) as [t2 A2].
    exists (t1 ++ t2). eapply advance_trans; eauto.
  - destruct H; eauto.
  - destruct H as [H | [-> _]]; eauto. exists []. apply advance_nil.
  - destruct H as (c1 & H & _). eauto.
  - destruct H as (_ & -> & _). exists []. apply advance_nil.
  - destruct H as (_ & -> & _). exists []. apply advance_nil.
  - destruct H as (_ & -> & _). exists []. apply advance_nil.
Qed.

(** The matcher finds only matches, and hands each to its continuation. *)
Theorem rmatch_sound ic r : forall z c k res,
  rmatch ic r z c k = Some res ->
  exists z' c', Match ic r z c z' c' /\ k z' c' = Some res.
Proof.
  induction r; simpl; intros z c k res H.
  - eauto.
  - destruct (lit_match ic s z) as [z'|] eqn:Hl; [|discriminate]. eauto.
  - destruct (ahead z) as [|x q] eqn:Ha; [discriminate|].
    destruct (cls_match ic b x) eqn:Hx; [|discriminate].
    exists (Cursor (x :: seen z) q), c. split; auto.
    exists x, q. auto.
  - apply rep_match_sound in H.
    destruct H as (t & q' & Hq & Ht & Hl & Hh & Hk).
    exists (Cursor (rev t ++ seen z) q'), c. split; auto.
    exists t. repeat split; auto.
  - apply IHr1 in H. destruct H as (zm & cm & H1 & H).
    apply IHr2 in H. destruct H as (z' & c' & H2 & H). eauto 8.
  - apply orelse_some in H. destruct H as [H | [_ H]].
    + apply IHr1 in H. destruct H as (z' & c' & H1 & H).
      exists z', c'. split; [left|]; assumption.
    + apply IHr2 in H. destruct H as (z' & c' & H1 & H).
      exists z', c'. split; [right|]; assumption.
  - apply orelse_some in H. destruct H as [H | [_ H]].
    + apply IHr in H. destruct H as (z' & c' & H1 & H).
      exists z', c'. split; [left|]; assumption.
    + exists z, c. split; [right; split; reflexivity | assumption].
  - apply IHr in H. destruct H as (z' & c' & H1 & H). eauto 8.
  - destruct (seen z) eqn:Hs; [|discriminate]. eauto 8.
  - destruct (at_eol z) eqn:He; [|discriminate]. eauto 8.
  - destruct (xorb _ _) eqn:He; [|discriminate]. eauto 8.
Qed.

(** Whenever some match satisfies the continuation, the matcher succeeds. *)
Theorem rmatch_complete ic r : forall z c z' c' k res,
  Match ic r z c z' c' -> k z' c' = Some res ->
  exists res', rmatch ic r z c k = Some res'.
Proof.
  induction r; simpl; intros z c z' c' k res HM Hk.
  - destruct HM; subst. eauto.
  - destruct HM as [-> ->]. eauto.
  - destruct HM as (x & q & -> & -> & -> & ->). eauto.
  - destruct HM as (t & [Ha Hs] & Ht & Hl & Hh & ->).
    rewrite Ha. eapply rep_match_complete; eauto.
    rewrite <- Hs, cursor_eta. eauto.
  - destruct HM as (zm & cm & H1 & H2).
    destruct (IHr2 _ _ _ _ _ _ H2 Hk) as [res2 Hres2].
    eapply IHr1; eauto.
  - destruct HM as [H | H].
    + destruct (IHr1 _ _ _ _ _ _ H Hk) as [r' ->]. eauto.
    + destruct (IHr2 _ _ _ _ _ _ H Hk) as [r' Hr'].
      destruct (rmatch ic r1 z c k); eauto.
  - destruct HM as [H | [-> ->]].
    + destruct (IHr _ _ _ _ _ _ H Hk) as [r' ->]. eauto.
    + destruct (rmatch ic r z c k); eauto.
  - destruct HM as (c1 & H & ->). eapply IHr; eauto.
  - destruct HM as (-> & -> & ->). eauto.
  - destruct HM as (-> & -> & ->). eauto.
  - destruct HM as (-> & -> & ->). eauto.
Qed.

(** ** Searching *)

Lemma match_at_sound ic r adv z m :
  match_at ic r adv z = Some m ->
  exists z' c', Match ic r z [] z' c' /\ m = Found (offset z) z' c'
                /\ (adv = true -> offset z' <> offset z).
Proof.
  unfold match_at. intros H.
  destruct (rmatch ic r z [] (accept adv (offset z))) as [[z' c']|] eqn:E;
    [|discriminate].
  apply rmatch_sound in E. destruct E as (z1 & c1 & HM & Hk).
  unfold accept in Hk.
  destruct (adv && (offset z1 =? offset z)) eqn:Ea; [discriminate|].
  inversion Hk; subst. inversion H; subst.
  exists z', c'. repeat split; auto.
  intros ->. simpl in Ea. apply Nat.eqb_neq in Ea. exact Ea.
Qed.

Lemma match_at_complete ic r z z' c' :
  Match ic r z [] z' c' -> exists m, match_at ic r false z = Some m.
Proof.
  intros HM. unfold match_at.
  destruct (@rmatch_complete ic r z [] z' c' (accept false (offset z)) (z', c') HM)
    as [[z1 c1] ->]; [reflexivity | eauto].
Qed.

Lemma search_from_sound ic r q : forall adv p m,
  search_from ic r adv p q = Some m ->
  exists a b z' c',
    q = a ++ b /\ Match ic r (Cursor (rev a ++ p) b) [] z' c'
    /\ m = Found (length a + length p) z' c'.
Proof.
  induction q as [|x q IH]; intros adv p m H; simpl in H.
  - destruct (match_at ic r adv (Cursor p [])) eqn:E; [|discriminate].
    inversion H; subst. apply match_at_sound in E.
    destruct E as (z' & c' & HM & -> & _).
    exists [], [], z', c'. auto.
  - apply orelse_some in H. destruct H as [H | [_ H]].
    + apply match_at_sound in H. destruct H as (z' & c' & HM & -> & _).
      exists [], (x :: q), z', c'. auto.
    + apply IH in H. destruct H as (a & b & z' & c' & -> & HM & ->).
      exists (x :: a), b, z', c'. simpl. rewrite <- app_assoc.
      repeat split; auto. f_equal. simpl. lia.
Qed.

Lemma search_from_complete ic r a : forall p b z' c',
  Match ic r (Cursor (rev a ++ p) b) [] z' c' ->
  exists m, search_from ic r false p (a ++ b) = Some m.
Proof.
  induction a as [|x a IH]; intros p b z' c' HM.
  - simpl in HM. apply match_at_complete in HM. destruct HM as [m Hm].
    destruct b; simpl; rewrite Hm; eauto.
  - simpl in HM. rewrite <- app_assoc in HM. simpl in HM.
    destruct (IH (x :: p) b z' c' HM) as [m Hm].
    simpl. rewrite Hm. destruct (match_at ic r false _); eauto.
Qed.

Lemma re_search_sound ic r s m :
  re_search ic r s = Some m ->
  exists a b z' c',
    s = a ++ b /\ Match ic r (Cursor (rev a) b) [] z' c'
    /\ m = Found (length a) z' c'.
Proof.
  intros H. apply search_from_sound in H.
  destruct H as (a & b & z' & c' & -> & HM & ->).
  rewrite app_nil_r in HM. simpl. rewrite Nat.add_0_r. eauto 8.
Qed.

Lemma re_search_complete ic r a b z' c' :
  Match ic r (Cursor (rev a) b) [] z' c' ->
  exists m, re_search ic r (a ++ b) = Some m.
Proof.
  intros HM. unfold re_search. eapply search_from_complete.
  rewrite app_nil_r. eauto.
Qed.

(** ** Strings *)

Lemma ch_eqb_eq a b : ch_eqb a b = true <-> a = b.
Proof. apply Ascii.eqb_eq. Qed.

Lemma ch_eqb_refl a : ch_eqb a a = true.
Proof. apply Ascii.eqb_refl. Qed.

Lemma startswith_spec p : forall s,
  startswith p s = true <-> exists b, s = p ++ b.
Proof.
  induction p as [|x p IH]; intros s; simpl.
  - split; eauto.
  - destruct s as [|y s].
    + split; [discriminate | intros [b H]; discriminate].
    + rewrite andb_true_iff, ch_eqb_eq, IH. split.
      * intros [-> [b ->]]. eauto.
      * intros [b H]. inversion H; subst. eauto.
Qed.

Lemma str_in_spec n : forall s,
  str_in n s = true <-> exists a b, s = a ++ n ++ b.
Proof.
  induction s as [|y s IH].
  - simpl. rewrite orb_false_r, startswith_spec. split.
    + intros [b ->]. exists [], b. reflexivity.
    + intros (a & b & H). destruct a; simpl in H; [eauto|discriminate].
  - cbn [str_in]. rewrite orb_true_iff, startswith_spec, IH. split.
    + intros [[b ->] | (a & b & ->)].
      * exists [], b. reflexivity.
      * exists (y :: a), b. reflexivity.
    + intros (a & b & H). destruct a as [|x a]; simpl in H.
      * left. eauto.
      * right. inversion H; subst. eauto.
Qed.

Lemma str_in_part n1 n2 n3 s :
  str_in (n1 ++ n2 ++ n3) s = true -> str_in n2 s = true.
Proof.
  rewrite !str_in_spec. intros (a & b & ->).
  exists (a ++ n1), (n3 ++ b). rewrite <- !app_assoc. reflexivity.
Qed.

Lemma str_eqb_eq a : forall b, str_eqb a b = true <-> a = b.
Proof.
  induction a as [|x a IH]; destruct b as [|y b]; simpl;
    try (split; [discriminate | discriminate]); try tauto.
  rewrite andb_true_iff, ch_eqb_eq, IH. split.
  - intros [-> ->]. reflexivity.
  - intros H. inversion H. auto.
Qed.

(** A match found with [must_advance] set is not empty at the place the
    search starts from. *)
Lemma search_from_advances ic r q : forall adv p m,
  search_from ic r adv p q = Some m ->
  exists a t,
    q = a ++ t ++ ahead (m_stop m)
    /\ m_start m = length a + length p
    /\ m_end m = length t + m_start m
    /\ (adv = true -> a = [] -> t <> []).
Proof.
  assert (At : forall adv p q m,
             match_at ic r adv (Cursor p q) = Some m ->
             exists t, q = t ++ ahead (m_stop m)
                       /\ m_start m = length p
                       /\ m_end m = length t + length p
                       /\ (adv = true -> t <> [])).
  { intros adv p q0 m H. apply match_at_sound in H.
    destruct H as (z' & c' & HM & -> & Hadv).
    destruct (Match_advance _ _ _ _ _ _ HM) as [t [A S]].
    simpl in A, S. exists t. unfold m_end, offset. cbn [m_stop m_start seen].
    rewrite S, length_app, length_rev. repeat split; auto.
    intros Ha ->. apply (Hadv Ha). unfold offset. rewrite S. reflexivity. }
  induction q as [|x q IH]; intros adv p m H; simpl in H.
  - destruct (match_at ic r adv (Cursor p [])) eqn:E; [|discriminate].
    inversion H; subst. destruct (At _ _ _ _ E) as (t & Eq & Es & Ee & Ha).
    exists [], t. simpl. rewrite Es. auto.
  - apply orelse_some in H. destruct H as [H | [_ H]].
    + destruct (At _ _ _ _ H) as (t & Eq & Es & Ee & Ha).
      exists [], t. simpl. rewrite Es. auto.
    + apply IH in H. destruct H as (a & t & Eq & Es & Ee & _).
      exists (x :: a), t. simpl in *. rewrite Eq, Es. repeat split; auto.
      * lia.
      * intros _ Hn. discriminate Hn.
Qed.

(** Fuel beyond the work left changes nothing, so [re_sub] never runs
    out of it. *)
Lemma sub_loop_fuel ic r repl : forall fuel1 fuel2 adv p q,
  sub_work adv q < fuel1 -> sub_work adv q < fuel2 ->
  sub_loop fuel1 ic r repl adv p q = sub_loop fuel2 ic r repl adv p q.
Proof.
  induction fuel1 as [|f1 IH]; intros fuel2 adv p q H1 H2; [lia|].
  destruct fuel2 as [|f2]; [lia|]. cbn [sub_loop].
  destruct (search_from ic r adv p q) as [m|] eqn:E; [|reflexivity].
  f_equal. f_equal.
  destruct (search_from_advances _ _ _ _ _ E) as (a & t & Eq & Es & Ee & Ha).
  assert (W : sub_work (m_end m =? m_start m) (ahead (m_stop m))
              < sub_work adv q).
  { unfold sub_work. apply (f_equal (@length ascii)) in Eq.
    rewrite !length_app in Eq.
    destruct (Nat.eqb_spec (m_end m) (m_start m)) as [Ez | Nz].
    - assert (Lt : length t = 0) by lia.
      destruct a as [|x a]; [|simpl in Eq; destruct adv; lia].
      destruct adv; [|simpl in Eq; lia].
      exfalso. apply (Ha eq_refl eq_refl).
      destruct t; [reflexivity | discriminate].
    - assert (Lt : length t <> 0) by lia. destruct adv; lia. }
  apply IH; lia.
Qed.

Lemma re_sub_fuel ic r repl s fuel :
  2 * length s + 1 < fuel ->
  sub_loop fuel ic r repl false [] s = re_sub ic r repl s.
Proof.
  intros H. unfold re_sub. apply sub_loop_fuel; unfold sub_work; lia.
Qed.

(** * The line classifier *)

Lemma cls_match_cs f c : cls_match false f c = f c.
Proof. unfold cls_match. simpl. apply orb_false_r. Qed.

Lemma forallb_cls_match_cs f t :
  forallb (cls_match false f) t = forallb f t.
Proof. induction t; simpl; [|rewrite cls_match_cs, IHt]; reflexivity. Qed.

Lemma ch_match_cs p c : ch_match false p c = true <-> p = c.
Proof. unfold ch_match. simpl. rewrite orb_false_r. apply ch_eqb_eq. Qed.

Lemma Forall2_ch_match_cs s : forall t,
  Forall2 (fun p c => ch_match false p c = true) s t <-> s = t.
Proof.
  induction s as [|p s IH]; intros t; split; intros H.
  - inversion H. reflexivity.
  - subst. constructor.
  - inversion H; subst. apply ch_match_cs in H2. apply IH in H4. congruence.
  - subst. constructor; [apply ch_match_cs; reflexivity | apply IH; reflexivity].
Qed.

(** A case-sensitive literal matches exactly its own text. *)
Lemma Match_Lit_cs s z c z' c' :
  Match false (Lit s) z c z' c' <-> advance z s z' /\ c' = c.
Proof.
  simpl. split.
  - intros [H ->]. apply lit_match_advance in H. destruct H as (t & Ha & Hf).
    apply Forall2_ch_match_cs in Hf. subst. auto.
  - intros [[Ha Hs] ->]. split; auto.
    rewrite (@lit_match_intro false s s z (ahead z')); auto.
    + rewrite <- Hs, cursor_eta. reflexivity.
    + apply Forall2_ch_match_cs. reflexivity.
Qed.

Lemma Match_Rep_cs f g lo hi z c z' c' :
  Match false (Rep f g lo hi) z c z' c' <->
  exists t, advance z t z' /\ forallb f t = true /\ lo <= length t
            /\ within hi (length t) /\ c' = c.
Proof.
  simpl. split; intros (t & Ha & Hf & H); exists t;
    rewrite forallb_cls_match_cs in *; auto.
Qed.

Lemma Match_chr_cs x z c z' c' :
  Match false (chr x) z c z' c' <-> advance z [x] z' /\ c' = c.
Proof.
  simpl. split.
  - intros (y & q & Ha & Hx & -> & ->). rewrite cls_match_cs in Hx.
    apply ch_eqb_eq in Hx. subst. split; auto. apply advance_one; auto.
  - intros [[Ha Hs] ->]. exists x, (ahead z'). simpl in *.
    rewrite cls_match_cs, ch_eqb_refl. repeat split; auto.
    rewrite <- Hs, cursor_eta. reflexivity.
Qed.

Lemma advance_app z t1 t2 z' :
  advance z (t1 ++ t2) z' ->
  advance z t1 (Cursor (rev t1 ++ seen z) (t2 ++ ahead z'))
  /\ advance (Cursor (rev t1 ++ seen z) (t2 ++ ahead z')) t2 z'.
Proof.
  intros [Ha Hs]. repeat split; simpl.
  - rewrite Ha, <- app_assoc. reflexivity.
  - rewrite Hs, rev_app_distr, <- app_assoc. reflexivity.
Qed.

Lemma Match_family_digits fam z c z' c' :
  Match false (Lit fam ;; plus is_digit) z c z' c' <->
  exists ds, ds <> [] /\ forallb is_digit ds = true
             /\ advance z (fam ++ ds) z' /\ c' = c.
Proof.
  cbn [Match plus]. split.
  - intros (zm & cm & HL & HR).
    apply Match_Lit_cs in HL. destruct HL as [A1 ->].
    destruct HR as (t & A2 & Hf & Hl & _ & ->).
    rewrite forallb_cls_match_cs in Hf.
    exists t. repeat split; auto.
    + destruct t; simpl in Hl; [lia | discriminate].
    + apply (proj1 (advance_trans A1 A2)).
    + apply (proj2 (advance_trans A1 A2)).
  - intros (ds & Hne & Hf & Ha & ->).
    apply advance_app in Ha. destruct Ha as [A1 A2].
    eexists _, c. split.
    + apply Match_Lit_cs. split; [exact A1 | reflexivity].
    + exists ds. rewrite forallb_cls_match_cs.
      repeat split; auto; try apply A2.
      destruct ds; [congruence | simpl; lia].
Qed.

Lemma Match_FI_family z c z' c' :
  Match false (tok "FI" ;; Opt (chr "I") ;; plus is_digit) z c z' c' <->
  exists ds, ds <> [] /\ forallb is_digit ds = true
             /\ (advance z (lit "FI" ++ ds) z' \/ advance z (lit "FII" ++ ds) z')
             /\ c' = c.
Proof.
  split.
  - intros (zm & cm & HL & (zo & co & HO & HR)).
    apply Match_Lit_cs in HL. destruct HL as [A1 ->].
    destruct HR as (t & A3 & Hf & Hl & _ & ->).
    rewrite forallb_cls_match_cs in Hf.
    exists t. split; [destruct t; simpl in Hl; [lia | discriminate]|].
    split; [exact Hf|].
    destruct HO as [HO | [-> ->]].
    + apply Match_chr_cs in HO. destruct HO as [A2 ->]. split; auto.
      right. apply (advance_trans (advance_trans A1 A2) A3).
    + split; auto. left. apply (advance_trans A1 A3).
  - intros (ds & Hne & Hf & [Ha | Ha] & ->).
    + apply advance_app in Ha. destruct Ha as [A1 A2].
      eexists _, c. split; [apply Match_Lit_cs; split; [exact A1|reflexivity]|].
      eexists _, c. split; [right; split; reflexivity|].
      exists ds. rewrite forallb_cls_match_cs. repeat split; auto; try apply A2.
      destruct ds; [congruence | simpl; lia].
    + change (lit "FII" ++ ds) with (lit "FI" ++ (lit "I" ++ ds)) in Ha.
      apply advance_app in Ha. destruct Ha as [A1 A2].
      apply advance_app in A2. destruct A2 as [A2 A3].
      eexists _, c. split; [apply Match_Lit_cs; split; [exact A1|reflexivity]|].
      eexists _, c. split; [left; apply Match_chr_cs; split; [exact A2|reflexivity]|].
      exists ds. rewrite forallb_cls_match_cs. repeat split; auto; try apply A3.
      destruct ds; [congruence | simpl; lia].
Qed.

(** The alternatives of the license pattern match exactly the license
    numbers. *)
Lemma Match_license_alternatives z c z' c' :
  Match false license_alternatives z c z' c' <->
  exists tok, is_license_token tok /\ advance z tok z' /\ c' = c.
Proof.
  unfold license_alternatives. cbn [Match]. fold (plus is_digit).
  change (Lit (lit "FI") ;; Opt (chr "I") ;; plus is_digit)%re
    with (tok "FI" ;; Opt (chr "I") ;; plus is_digit)%re.
  assert (Tok : forall fam ds, In fam license_families -> ds <> [] ->
                 forallb is_digit ds = true -> advance z (fam ++ ds) z' ->
                 exists tk, is_license_token tk /\ advance z tk z' /\ c = c).
  { intros fam ds Hin Hne Hf Ha. exists (fam ++ ds).
    split; [exists fam, ds; auto | auto]. }
  split.
  - intros [H | [H | [H | H]]].
    + apply Match_FI_family in H.
      destruct H as (ds & Hne & Hf & [Ha | Ha] & ->).
      * apply (Tok (lit "FI") ds); simpl; auto.
      * apply (Tok (lit "FII") ds); simpl; auto.
    + apply (proj1 (Match_family_digits (lit "CCC") z c z' c')) in H.
      destruct H as (ds & Hne & Hf & Ha & ->).
      apply (Tok (lit "CCC") ds); simpl; auto.
    + apply (proj1 (Match_family_digits (lit "PRE") z c z' c')) in H.
      destruct H as (ds & Hne & Hf & Ha & ->).
      apply (Tok (lit "PRE") ds); simpl; auto.
    + apply (proj1 (Match_family_digits (lit "SAOC") z c z' c')) in H.
      destruct H as (ds & Hne & Hf & Ha & ->).
      apply (Tok (lit "SAOC") ds); simpl; auto 6.
  - clear Tok. intros (tk & (fam & ds & Hin & Hne & Hf & ->) & Ha & ->).
    simpl in Hin.
    destruct Hin as [<- | [<- | [<- | [<- | [<- | []]]]]].
    + left. apply Match_FI_family. exists ds. auto.
    + left. apply Match_FI_family. exists ds. auto.
    + right. left. apply Match_family_digits. exists ds. auto.
    + right. right. left. apply Match_family_digits. exists ds. auto.
    + right. right. right. apply Match_family_digits. exists ds. auto.
Qed.

Lemma is_digit_word c : is_digit c = true -> is_word c = true.
Proof. unfold is_word. intros ->. reflexivity. Qed.

Lemma license_token_first tk post :
  is_license_token tk -> first_is_word (tk ++ post) = true.
Proof.
  intros (fam & ds & Hin & _ & _ & ->). simpl in Hin.
  destruct Hin as [<- | [<- | [<- | [<- | [<- | []]]]]]; reflexivity.
Qed.

Lemma license_token_last tk pre :
  is_license_token tk ->
  match rev tk ++ pre with x :: _ => is_word x | [] => false end = true.
Proof.
  intros (fam & ds & _ & Hne & Hf & ->).
  rewrite rev_app_distr.
  destruct (rev ds) as [|y t] eqn:E.
  - apply (f_equal (@rev ascii)) in E. rewrite rev_involutive in E.
    simpl in E. congruence.
  - simpl. apply is_digit_word.
    rewrite forallb_forall in Hf. apply Hf.
    apply in_rev. rewrite E. simpl; auto.
Qed.

(** Where the license pattern matches: at a license number that no word
    character touches. *)
Lemma Match_license_re a b :
  (exists z' c', Match false license_re (Cursor (rev a) b) [] z' c') <->
  exists tk post, b = tk ++ post /\ is_license_token tk
                  /\ last_is_word a = false /\ first_is_word post = false.
Proof.
  unfold license_re. cbn [Match]. split.
  - intros (z' & c' & zm & cm & (Hb1 & -> & ->) & zm2 & cm2
            & (c1 & HA & ->) & (Hb2 & Ez & Ec)).
    subst zm2 c'.
    apply Match_license_alternatives in HA.
    destruct HA as (tk & Htk & [Ha Hs] & ->). simpl in Ha, Hs.
    exists tk, (ahead z'). repeat split; auto.
    + unfold prev_is_word, next_is_word in Hb1. simpl in Hb1.
      rewrite Ha in Hb1.
      pose proof (license_token_first (ahead z') Htk) as Hf.
      unfold first_is_word in Hf. rewrite Hf in Hb1.
      unfold last_is_word. destruct (match rev a with [] => _ | _ => _ end);
        [discriminate | reflexivity].
    + unfold prev_is_word, next_is_word in Hb2. rewrite Hs in Hb2.
      rewrite (license_token_last (rev a) Htk) in Hb2.
      unfold first_is_word. destruct (match ahead z' with [] => _ | _ => _ end);
        [discriminate | reflexivity].
  - intros (tk & post & -> & Htk & Hpre & Hpost).
    exists (Cursor (rev tk ++ rev a) post).
    eexists. exists (Cursor (rev a) (tk ++ post)), [].
    split; [repeat split|].
    + unfold prev_is_word, next_is_word. simpl.
      pose proof (license_token_first post Htk) as Hf.
      unfold first_is_word in Hf. rewrite Hf.
      unfold last_is_word in Hpre. rewrite Hpre. reflexivity.
    + exists (Cursor (rev tk ++ rev a) post). eexists. split.
      * exists []. split; [|reflexivity].
        apply Match_license_alternatives. exists tk.
        repeat split; auto.
      * repeat split.
        unfold prev_is_word, next_is_word. simpl.
        rewrite (license_token_last (rev a) Htk).
        unfold first_is_word in Hpost. rewrite Hpost. reflexivity.
Qed.

(** C1: the classifier labels a line a record start if and only if the
    line holds a license number as a whole word (one of the prefixes FI,
    FII, CCC, PRE, SAOC followed by one or more digits, with no word
    character on either side) and holds the text [Capacity:]. *)
Theorem is_provider_start_line_iff (line : str) :
  is_provider_start_line line = true
  <-> has_license_token line /\ contains (lit "Capacity:") line.
Proof.
  unfold is_provider_start_line, contains. rewrite andb_true_iff, str_in_spec.
  assert (HL : (match re_search false license_re line with
                | Some _ => true | None => false end) = true
               <-> has_license_token line).
  { split.
    - destruct (re_search false license_re line) as [m|] eqn:E; [|discriminate].
      intros _. apply re_search_sound in E.
      destruct E as (a & b & z' & c' & -> & HM & _).
      destruct (proj1 (Match_license_re a b)) as (tk & post & -> & H1 & H2 & H3);
        [eauto|].
      exists a, tk, post. auto.
    - intros (pre & tk & post & -> & H1 & H2 & H3).
      destruct (proj2 (Match_license_re pre (tk ++ post))) as (z' & c' & HM);
        [eauto 6|].
      apply re_search_complete in HM. destruct HM as [m ->]. reflexivity. }
  rewrite HL. reflexivity.
Qed.

Lemma is_provider_start_line_iff_witness :
  is_provider_start_line sunny_days_line = true
  /\ has_license_token sunny_days_line
  /\ contains (lit "Capacity:") sunny_days_line.
Proof.
  assert (H : is_provider_start_line sunny_days_line = true)
    by (vm_compute; reflexivity).
  split; [exact H|].
  apply (proj1 (is_provider_start_line_iff sunny_days_line) H).
Defined.

Lemma between_advance z t z' : advance z t z' -> between z z' = t.
Proof.
  intros [_ Hs]. unfold between, offset. rewrite Hs, length_app, length_rev.
  replace (length t + length (seen z) - length (seen z)) with (length (rev t))
    by (rewrite length_rev; lia).
  rewrite firstn_app, Nat.sub_diag, firstn_all. simpl.
  rewrite app_nil_r. apply rev_involutive.
Qed.

(** What [re.search] finds for the license pattern is a license number. *)
Lemma license_search_token s m :
  re_search false license_re s = Some m -> is_license_token (grp 1 m).
Proof.
  intros H. apply re_search_sound in H.
  destruct H as (a & b & z' & c' & -> & HM & ->).
  unfold license_re in HM. cbn [Match] in HM.
  destruct HM as (zm & cm & (_ & -> & ->) & zm2 & cm2
                  & (c1 & HA & ->) & (_ & Ez & Ec)).
  subst zm2 c'. apply Match_license_alternatives in HA.
  destruct HA as (tk & Htk & Ha & ->).
  unfold grp, group_text. simpl. rewrite (between_advance Ha). exact Htk.
Qed.

Lemma license_token_nonempty tk : is_license_token tk -> nonempty tk = true.
Proof.
  intros (fam & ds & Hin & _ & _ & ->). simpl in Hin.
  destruct Hin as [<- | [<- | [<- | [<- | [<- | []]]]]]; reflexivity.
Qed.

Lemma extract_license_number_cases s :
  extract_license_number s = [] \/ is_license_token (extract_license_number s).
Proof.
  unfold extract_license_number.
  destruct (re_search false license_re s) as [m|] eqn:E; auto.
  right. eapply license_search_token; eauto.
Qed.

Lemma start_line_has_license l :
  is_provider_start_line l = true ->
  nonempty (extract_license_number l) = true.
Proof.
  unfold is_provider_start_line, extract_license_number. intros H.
  destruct (re_search false license_re l) as [m|] eqn:E; [|discriminate].
  apply license_token_nonempty. eapply license_search_token; eauto.
Qed.

(** * The block segmenter *)

Lemma stops_false l :
  stops l = false ->
  is_provider_start_line l = false /\ is_zip_header l = None
  /\ is_total_line l = false /\ is_header_line l = false.
Proof.
  unfold stops. intros H.
  apply orb_false_iff in H. destruct H as [H H4].
  apply orb_false_iff in H. destruct H as [H H3].
  apply orb_false_iff in H. destruct H as [H1 H2].
  destruct (is_zip_header l); [discriminate|]. auto.
Qed.

Lemma stops_classify l : stops l = false <-> classify l = Continuation.
Proof.
  unfold stops, classify.
  destruct (is_header_line l), (is_zip_header l), (is_total_line l),
    (is_provider_start_line l); simpl; split; congruence.
Qed.

(** What the inner loop returns: the lines taken are a run of
    continuation lines in front of the rest, and the count stays within
    ten. *)
Lemma collect_split lines : forall acc n,
  exists taken rest,
    collect acc n lines = (acc ++ taken, rest)
    /\ lines = taken ++ rest
    /\ forallb (fun l => negb (stops l)) taken = true
    /\ (taken = [] \/ n + length taken <= 10).
Proof.
  induction lines as [|l lines IH]; intros acc n; simpl.
  - exists [], []. rewrite app_nil_r. auto.
  - destruct (n <? 10) eqn:Hn;
      [|exists [], (l :: lines); rewrite app_nil_r; auto].
    destruct (stops l) eqn:Hs.
    + exists [], (l :: lines). rewrite app_nil_r.
      repeat split; auto. unfold stops in Hs.
      destruct (is_provider_start_line l); auto.
      destruct (is_zip_header l); auto.
      destruct (is_total_line l); auto.
      destruct (is_header_line l); auto. discriminate.
    + destruct (stops_false l Hs) as (H1 & H2 & H3 & H4).
      rewrite H1, H2, H3, H4.
      destruct (IH (acc ++ [l]) (n + 1)) as (taken & rest & E & -> & Hf & Hl).
      exists (l :: taken), rest. rewrite E, <- app_assoc. simpl.
      rewrite Hs. repeat split; auto. right.
      apply Nat.ltb_lt in Hn. destruct Hl as [-> | Hl]; simpl; lia.
Qed.

Lemma collect_length_rest lines acc n :
  length (snd (collect acc n lines)) <= length lines.
Proof.
  destruct (collect_split lines acc n) as (taken & rest & E & -> & _).
  rewrite E. simpl. rewrite length_app. lia.
Qed.

(** Fuel beyond the number of lines changes nothing. *)
Lemma scan_lines_fuel d : forall fuel1 fuel2 lines st,
  length lines <= fuel1 -> length lines <= fuel2 ->
  scan_lines fuel1 d lines st = scan_lines fuel2 d lines st.
Proof.
  induction fuel1 as [|f1 IH]; intros fuel2 lines st H1 H2.
  - destruct lines; [|simpl in H1; lia]. destruct fuel2; reflexivity.
  - destruct lines as [|l rest]; [destruct fuel2; reflexivity|].
    destruct fuel2 as [|f2]; [simpl in H2; lia|].
    simpl in H1, H2. cbn [scan_lines].
    destruct (is_header_line l); [apply IH; lia|].
    destruct (is_zip_header l); [apply IH; lia|].
    destruct (is_total_line l); [apply IH; lia|].
    destruct (is_provider_start_line l); [|apply IH; lia].
    pose proof (collect_length_rest rest [l] 1) as Hc.
    destruct (collect [l] 1 rest) as [blk rest']. simpl in Hc.
    apply IH; lia.
Qed.

Lemma run_nil d st : run d [] st = st.
Proof. reflexivity. Qed.

(** One round of the outer loop. *)
Lemma run_cons d line rest st :
  run d (line :: rest) st =
  match classify line with
  | Header | Total | Continuation => run d rest st
  | Zip_header zip county =>
      run d rest (PState (providers st) zip county (handed st))
  | Record_start =>
      run d (snd (collect [line] 1 rest))
          (emit d (fst (collect [line] 1 rest)) st)
  end.
Proof.
  unfold run, classify. cbn [scan_lines length].
  destruct (is_header_line line); [reflexivity|].
  destruct (is_zip_header line); [reflexivity|].
  destruct (is_total_line line); [reflexivity|].
  destruct (is_provider_start_line line); [|reflexivity].
  pose proof (collect_length_rest rest [line] 1) as Hc.
  destruct (collect [line] 1 rest) as [blk rest']. simpl in *.
  apply scan_lines_fuel; lia.
Qed.


Lemma lines_ind (P : list str -> Prop) :
  P [] ->
  (forall line rest,
      (forall shorter, length shorter <= length rest -> P shorter) ->
      P (line :: rest)) ->
  forall lines, P lines.
Proof.
  intros Hnil Hcons lines.
  remember (length lines) as n eqn:En.
  assert (H : length lines <= n) by lia. clear En.
  revert lines H. induction n as [|n IH]; intros lines H.
  - destruct lines; [exact Hnil | simpl in H; lia].
  - destruct lines as [|l rest]; [exact Hnil|].
    apply Hcons. intros shorter Hs. apply IH. simpl in H. lia.
Qed.

Lemma classify_record_start l :
  classify l = Record_start <->
  is_provider_start_line l = true /\ is_header_line l = false
  /\ is_total_line l = false /\ is_zip_header l = None.
Proof.
  unfold classify.
  destruct (is_header_line l), (is_zip_header l), (is_total_line l),
    (is_provider_start_line l); split;
    try discriminate; try (intros (? & ? & ? & ?)); try discriminate; auto.
Qed.

Lemma context_after_app a b ctx :
  context_after (a ++ b) ctx = context_after b (context_after a ctx).
Proof. apply fold_left_app. Qed.

Lemma context_step_continuation l ctx :
  stops l = false -> context_step ctx l = ctx.
Proof.
  intros H. apply stops_classify in H. unfold context_step. rewrite H.
  reflexivity.
Qed.

Lemma context_after_continuations ls : forall ctx,
  forallb (fun l => negb (stops l)) ls = true -> context_after ls ctx = ctx.
Proof.
  induction ls as [|l ls IH]; intros ctx H; [reflexivity|].
  simpl in H. apply andb_true_iff in H. destruct H as [Hl Hls].
  apply negb_true_iff in Hl. unfold context_after. simpl.
  rewrite context_step_continuation by assumption. apply IH, Hls.
Qed.

Lemma stops_not_start l :
  stops l = false -> is_provider_start_line l = false.
Proof. intros H. apply stops_false in H. tauto. Qed.

Lemma context_after_cons line rest ctx :
  context_after (line :: rest) ctx = context_after rest (context_step ctx line).
Proof. reflexivity. Qed.

(** What one run of the outer loop over [lines] adds to the state. *)
Lemma run_blocks d : forall lines st,
  exists bs,
    handed (run d lines st) = handed st ++ bs
    /\ providers (run d lines st)
       = providers st ++ filter is_kept (map (assemble d) bs)
    /\ context_of (run d lines st) = context_after lines (context_of st)
    /\ forallb well_formed_block bs = true
    /\ forall b, In b bs ->
         exists pre post,
           lines = pre ++ b_lines b ++ post
           /\ (b_zip b, b_county b) = context_after pre (context_of st).
Proof.
  intros lines. induction lines as [|line rest IH] using lines_ind; intros st.
  - exists []. rewrite run_nil, !app_nil_r. repeat split; auto.
    intros b [].
  - assert (Skip : forall st',
      handed st' = handed st -> providers st' = providers st ->
      context_of st' = context_step (context_of st) line ->
      exists bs,
        handed (run d rest st') = handed st ++ bs
        /\ providers (run d rest st')
           = providers st ++ filter is_kept (map (assemble d) bs)
        /\ context_of (run d rest st')
           = context_after (line :: rest) (context_of st)
        /\ forallb well_formed_block bs = true
        /\ forall b, In b bs ->
             exists pre post,
               line :: rest = pre ++ b_lines b ++ post
               /\ (b_zip b, b_county b) = context_after pre (context_of st)).
    { intros st' Hh Hp Hc.
      destruct (IH rest (le_n _) st') as (bs & E1 & E2 & E3 & E4 & E5).
      exists bs. rewrite E1, E2, E3, Hh, Hp, Hc. repeat split; auto.
      intros b Hb. destruct (E5 b Hb) as (pre & post & -> & Hctx).
      exists (line :: pre), post. split; [reflexivity|].
      rewrite Hctx, Hc. reflexivity. }
    rewrite run_cons.
    destruct (classify line) eqn:Hc.
    + apply Skip; auto. unfold context_step. rewrite Hc. reflexivity.
    + apply Skip; auto. unfold context_step. rewrite Hc. reflexivity.
    + apply Skip; auto. unfold context_step. rewrite Hc. reflexivity.
    + clear Skip.
      destruct (proj1 (classify_record_start line) Hc) as (Hstart & _).
      assert (Hline : forall ctx, context_step ctx line = ctx)
        by (intros ctx; unfold context_step; rewrite Hc; reflexivity).
      destruct (collect_split rest [line] 1)
        as (taken & rest' & E & -> & Hf & Hl).
      rewrite E. cbn [fst snd app].
      destruct (IH rest') with (st := emit d (line :: taken) st)
        as (bs & E1 & E2 & E3 & E4 & E5).
      { rewrite length_app. lia. }
      assert (Hctx0 : context_of (emit d (line :: taken) st) = context_of st)
        by reflexivity.
      rewrite Hctx0 in *.
      set (b0 := Block (line :: taken) (current_zip st) (current_county st)).
      exists (b0 :: bs). rewrite E1, E2, E3.
      split; [simpl; rewrite <- app_assoc; reflexivity|].
      split.
      { simpl. destruct (is_kept _); [rewrite <- app_assoc|]; reflexivity. }
      split.
      { rewrite context_after_cons, Hline, context_after_app.
        rewrite (@context_after_continuations taken _ Hf). reflexivity. }
      split.
      { cbn [forallb]. rewrite E4, andb_true_r.
        unfold well_formed_block, b0. cbn [b_lines]. rewrite Hstart. simpl.
        apply andb_true_iff. split.
        - rewrite forallb_forall in *. intros x Hx.
          specialize (Hf x Hx). apply negb_true_iff in Hf.
          rewrite (stops_not_start _ Hf). reflexivity.
        - destruct Hl as [-> | Hl]; [reflexivity|].
          destruct (length taken) as [|n] eqn:En; [reflexivity|].
          apply Nat.leb_le. lia. }
      intros b [<- | Hb].
      * exists [], rest'. split; reflexivity.
      * destruct (E5 b Hb) as (pre & post & -> & Hctx).
        exists (line :: taken ++ pre), post.
        split; [simpl; rewrite <- app_assoc; reflexivity|].
        rewrite Hctx, context_after_cons, Hline, context_after_app.
        rewrite (@context_after_continuations taken _ Hf). reflexivity.
    + apply Skip; auto. unfold context_step. rewrite Hc. reflexivity.
Qed.

Lemma scan_page_run d st page : scan_page d st page = run d (page_lines page) st.
Proof.
  destruct page as [text|]; [|reflexivity].
  destruct text as [|x text]; reflexivity.
Qed.

(** What the loop over the pages adds to the state. *)
Lemma pages_blocks d : forall pages st,
  exists bs,
    handed (fold_left (scan_page d) pages st) = handed st ++ bs
    /\ providers (fold_left (scan_page d) pages st)
       = providers st ++ filter is_kept (map (assemble d) bs)
    /\ context_of (fold_left (scan_page d) pages st)
       = context_after (concat (map page_lines pages)) (context_of st)
    /\ forallb well_formed_block bs = true
    /\ forall b, In b bs ->
         exists pre post,
           concat (map page_lines pages) = pre ++ b_lines b ++ post
           /\ (b_zip b, b_county b) = context_after pre (context_of st).
Proof.
  induction pages as [|page pages IH]; intros st.
  - exists []. simpl. rewrite !app_nil_r. repeat split; auto. intros b [].
  - cbn [fold_left map concat]. rewrite scan_page_run.
    destruct (run_blocks d (page_lines page) st)
      as (bs1 & A1 & A2 & A3 & A4 & A5).
    destruct (IH (run d (page_lines page) st))
      as (bs2 & B1 & B2 & B3 & B4 & B5).
    exists (bs1 ++ bs2). rewrite B1, B2, B3, A1, A2, A3.
    rewrite map_app, filter_app, forallb_app, A4, B4, context_after_app.
    rewrite <- !app_assoc. repeat split; auto.
    intros b Hb. apply in_app_or in Hb. destruct Hb as [Hb | Hb].
    + destruct (A5 b Hb) as (pre & post & E & Hc).
      exists pre, (post ++ concat (map page_lines pages)).
      rewrite E, <- !app_assoc. auto.
    + destruct (B5 b Hb) as (pre & post & E & Hc).
      exists (page_lines page ++ pre), post.
      rewrite E, Hc, context_after_app, A3, <- !app_assoc. auto.
Qed.

Lemma well_formed_block_kept d b :
  well_formed_block b = true -> is_kept (assemble d b) = true.
Proof.
  unfold well_formed_block, assemble, is_kept.
  destruct (b_lines b) as [|first others] eqn:E; [discriminate|].
  intros H. apply andb_true_iff in H. destruct H as [H _].
  apply andb_true_iff in H. destruct H as [H _].
  apply start_line_has_license in H.
  unfold parse_provider_block.
  destruct (name_and_address first (extract_license_number first)).
  destruct (fold_left date_step (first :: others) ([], [])).
  cbn [Provider_Name License_Number]. rewrite H. apply orb_true_r.
Qed.

Lemma filter_kept d bs :
  forallb well_formed_block bs = true ->
  filter is_kept (map (assemble d) bs) = map (assemble d) bs.
Proof.
  induction bs as [|b bs IH]; intros H; [reflexivity|].
  simpl in H. apply andb_true_iff in H. destruct H as [Hb Hbs].
  simpl. rewrite (well_formed_block_kept d b Hb), IH; auto.
Qed.

(** The state after a whole document. *)
Lemma extract_state_blocks pages d :
  extract_providers_from_pdf pages d
  = map (assemble d) (blocks_of_pdf pages d)
  /\ forallb well_formed_block (blocks_of_pdf pages d) = true
  /\ context_of (extract_state pages d)
     = context_after (line_stream pages) ([], [])
  /\ forall b, In b (blocks_of_pdf pages d) ->
       exists pre post,
         line_stream pages = pre ++ b_lines b ++ post
         /\ (b_zip b, b_county b) = context_after pre ([], []).
Proof.
  unfold extract_providers_from_pdf, blocks_of_pdf, extract_state, line_stream.
  destruct (pages_blocks d (tl pages) initial_state)
    as (bs & A1 & A2 & A3 & A4 & A5).
  rewrite A1, A2, A3. simpl. rewrite filter_kept by assumption. auto.
Qed.

(** C2: every block handed to the record assembler during one parse has
    between 1 and 10 lines; its first line satisfies the record-start
    condition and none of its other lines does. *)
Theorem blocks_are_bounded (pages : list (option str)) (download_date : str)
        (b : block) :
  In b (blocks_of_pdf pages download_date) ->
  1 <= length (b_lines b) <= 10
  /\ exists first others,
       b_lines b = first :: others
       /\ is_provider_start_line first = true
       /\ forall l, In l others -> is_provider_start_line l = false.
Proof.
  intros Hb.
  destruct (extract_state_blocks pages download_date) as (_ & Hwf & _).
  rewrite forallb_forall in Hwf. specialize (Hwf b Hb).
  unfold well_formed_block in Hwf.
  destruct (b_lines b) as [|first others] eqn:E; [discriminate|].
  apply andb_true_iff in Hwf. destruct Hwf as [Hwf Hlen].
  apply andb_true_iff in Hwf. destruct Hwf as [Hfirst Hothers].
  apply Nat.leb_le in Hlen. split; [simpl in *; lia|].
  exists first, others. repeat split; auto.
  intros l Hl. rewrite forallb_forall in Hothers.
  apply negb_true_iff, Hothers, Hl.
Qed.

Lemma blocks_are_bounded_witness :
  In sample_block (blocks_of_pdf sample_pdf sample_date)
  /\ 1 <= length (b_lines sample_block) <= 10.
Proof.
  assert (H : In sample_block (blocks_of_pdf sample_pdf sample_date))
    by (vm_compute; right; left; reflexivity).
  split; [exact H|].
  apply (blocks_are_bounded sample_pdf sample_date sample_block H).
Defined.

Lemma collect_app_stop l post : stops l = true ->
  forall pre acc n,
    collect acc n (pre ++ l :: post)
    = (fst (collect acc n pre), snd (collect acc n pre) ++ l :: post).
Proof.
  intros Hl. induction pre as [|x pre IH]; intros acc n.
  - cbn [app collect fst snd]. destruct (n <? 10); [|reflexivity].
    unfold stops in Hl.
    destruct (is_provider_start_line l); [reflexivity|].
    destruct (is_zip_header l); [reflexivity|].
    destruct (is_total_line l); [reflexivity|].
    destruct (is_header_line l); [reflexivity | discriminate].
  - cbn [app collect]. destruct (n <? 10); [|reflexivity].
    destruct (is_provider_start_line x); [reflexivity|].
    destruct (is_zip_header x); [reflexivity|].
    destruct (is_total_line x); [reflexivity|].
    destruct (is_header_line x); [reflexivity | apply IH].
Qed.

(** A line at which the inner loop breaks is met by the outer loop in the
    state the lines before it leave behind. *)
Lemma run_app_stop d l post : stops l = true ->
  forall pre st,
    run d (pre ++ l :: post) st = run d (l :: post) (run d pre st).
Proof.
  intros Hl pre. induction pre as [|x pre IH] using lines_ind; intros st.
  - reflexivity.
  - cbn [app]. rewrite !(run_cons d x).
    destruct (classify x); try (apply IH; lia).
    rewrite (@collect_app_stop l post Hl). cbn [fst snd].
    apply IH. apply collect_length_rest.
Qed.

Lemma run_continuations d ls : forall st,
  forallb (fun l => negb (stops l)) ls = true -> run d ls st = st.
Proof.
  induction ls as [|l ls IH]; intros st H; [reflexivity|].
  simpl in H. apply andb_true_iff in H. destruct H as [Hl Hls].
  apply negb_true_iff, stops_classify in Hl.
  rewrite run_cons, Hl. apply IH, Hls.
Qed.

Lemma classify_stops l : classify l = Record_start -> stops l = true.
Proof.
  intros H. apply classify_record_start in H. destruct H as (H & _).
  unfold stops. rewrite H. reflexivity.
Qed.

(** A record-start line opens a block, wherever it stands. *)
Lemma run_opens_block d pre l post st :
  classify l = Record_start ->
  exists conts rest,
    post = conts ++ rest
    /\ forallb (fun x => negb (stops x)) conts = true
    /\ length conts <= 9
    /\ run d (pre ++ l :: post) st
       = run d rest (emit d (l :: conts) (run d pre st))
    /\ context_of (run d pre st) = context_after pre (context_of st).
Proof.
  intros Hc. rewrite (@run_app_stop d l post (@classify_stops l Hc)).
  rewrite run_cons, Hc.
  destruct (collect_split post [l] 1) as (taken & rest & E & -> & Hf & Hl).
  rewrite E. cbn [fst snd app]. exists taken, rest.
  repeat split; auto.
  - destruct Hl as [-> | Hl]; simpl; lia.
  - destruct (run_blocks d pre st) as (bs & _ & _ & H & _). exact H.
Qed.

Lemma at_eol_spaces z : at_eol z = true -> forallb is_space (ahead z) = true.
Proof.
  unfold at_eol. destruct (ahead z) as [|x [|y q]]; try discriminate; auto.
  intros H. apply Nat.eqb_eq in H. simpl. unfold is_space, in_range.
  rewrite H. reflexivity.
Qed.

(** The shape of a zip-county header and the two groups it captures. *)
Lemma zip_header_shape l m :
  is_zip_header l = Some m ->
  exists d w a w2,
    l = d ++ w ++ a ++ w2
    /\ length d = 5 /\ forallb is_digit d = true
    /\ w <> [] /\ forallb is_space w = true
    /\ a <> [] /\ forallb is_alpha a = true
    /\ forallb is_space w2 = true
    /\ grp 1 m = d /\ grp 2 m = a.
Proof.
  unfold is_zip_header, re_match. intros H. apply match_at_sound in H.
  destruct H as (z' & c' & HM & -> & _).
  unfold zip_header_re in HM. cbn [Match exactly plus star] in HM.
  destruct HM as (z0 & c0 & (_ & -> & ->) & z1 & c1 & (k1 & H1 & ->)
                  & z2 & c2 & H2 & z3 & c3 & (k3 & H3 & ->)
                  & z4 & c4 & H4 & (H5 & Ez & Ec)).
  subst z4 c'.
  destruct H1 as (d & A1 & F1 & L1 & U1 & ->).
  destruct H2 as (w & A2 & F2 & L2 & _ & ->).
  destruct H3 as (a & A3 & F3 & L3 & _ & ->).
  destruct H4 as (w2 & A4 & F4 & _ & _ & ->).
  rewrite forallb_cls_match_cs in F1, F2, F3, F4.
  simpl in U1.
  exists d, w, a, (w2 ++ ahead z').
  assert (El : l = d ++ w ++ a ++ w2 ++ ahead z').
  { destruct A1 as [A1 _], A2 as [A2 _], A3 as [A3 _], A4 as [A4 _].
    simpl in A1. rewrite A1, A2, A3, A4. reflexivity. }
  repeat split; auto.
  - lia.
  - destruct w; [simpl in L2; lia | discriminate].
  - destruct a; [simpl in L3; lia | discriminate].
  - rewrite forallb_app, F4. simpl. apply at_eol_spaces, H5.
  - unfold grp, group_text. simpl. apply between_advance, A1.
  - unfold grp, group_text. simpl. apply between_advance, A3.
Qed.

Lemma str_in_char n x n' s :
  str_in (n ++ x :: n') s = true -> In x s.
Proof.
  rewrite str_in_spec. intros (a & b & ->).
  apply in_or_app. right. apply in_or_app. left.
  apply in_or_app. right. simpl; auto.
Qed.

(** A zip-county header holds digits, letters and white space only. *)
Lemma zip_header_chars l m x :
  is_zip_header l = Some m -> In x l ->
  is_digit x || is_space x || is_alpha x = true.
Proof.
  intros H Hx. apply zip_header_shape in H.
  destruct H as (d & w & a & w2 & -> & _ & Fd & _ & Fw & _ & Fa & Fw2 & _).
  rewrite forallb_forall in Fd, Fw, Fa, Fw2.
  repeat (apply in_app_or in Hx; destruct Hx as [Hx | Hx]).
  - rewrite (Fd x Hx). reflexivity.
  - rewrite (Fw x Hx). apply orb_true_iff. left. apply orb_true_r.
  - rewrite (Fa x Hx). apply orb_true_r.
  - rewrite (Fw2 x Hx). apply orb_true_iff. left. apply orb_true_r.
Qed.

(** A record-start line is never taken for a zip-county header. *)
Lemma start_line_not_zip_header l :
  is_provider_start_line l = true -> is_zip_header l = None.
Proof.
  unfold is_provider_start_line. intros H.
  apply andb_true_iff in H. destruct H as [_ H].
  destruct (is_zip_header l) as [m|] eqn:E; [|reflexivity].
  apply (@str_in_char (lit "Capacity") ":"%char [] l) in H.
  pose proof (@zip_header_chars l m _ E H) as Hc. discriminate Hc.
Qed.

Lemma space_not_alpha c : is_space c = true -> is_alpha c = false.
Proof.
  destruct c as [[] [] [] [] [] [] [] []]; vm_compute; congruence.
Qed.

Lemma digit_not_alpha c : is_digit c = true -> is_alpha c = false.
Proof.
  destruct c as [[] [] [] [] [] [] [] []]; vm_compute; congruence.
Qed.

Lemma no_gap_word a w :
  forallb is_alpha a = true -> forallb is_space w = true -> no_gap (a ++ w).
Proof.
  intros Fa Fw. induction a as [|y a IH]; intros p x s q E Hx Hs.
  - simpl in E. subst w. rewrite forallb_app in Fw.
    apply andb_true_iff in Fw. destruct Fw as [_ Fw]. simpl in Fw.
    apply andb_true_iff in Fw. destruct Fw as [Fx _].
    rewrite (space_not_alpha _ Fx) in Hx. discriminate.
  - simpl in Fa. apply andb_true_iff in Fa. destruct Fa as [Fy Fa].
    destruct p as [|y' p]; simpl in E; inversion E; subst.
    + destruct a as [|y2 a]; simpl in H1.
      * subst w. simpl in Fw. apply andb_true_iff in Fw. tauto.
      * inversion H1; subst. simpl in Fa.
        apply andb_true_iff in Fa. destruct Fa as [Fs _].
        rewrite (space_not_alpha _ Hs) in Fs. discriminate.
    + eapply IH; eauto.
Qed.

Lemma no_gap_skip pre l :
  forallb (fun c => negb (is_alpha c)) pre = true -> no_gap l ->
  no_gap (pre ++ l).
Proof.
  intros Fp Hl. induction pre as [|c pre IH]; [exact Hl|].
  simpl in Fp. apply andb_true_iff in Fp. destruct Fp as [Fc Fp].
  intros p x s q E Hx Hs. destruct p as [|c' p]; simpl in E; inversion E; subst.
  - rewrite Hx in Fc. discriminate.
  - eapply IH; eauto.
Qed.

Lemma zip_header_no_gap l m : is_zip_header l = Some m -> no_gap l.
Proof.
  intros H. apply zip_header_shape in H.
  destruct H as (d & w & a & w2 & -> & _ & Fd & _ & Fw & _ & Fa & Fw2 & _).
  apply no_gap_skip.
  { rewrite forallb_forall in *. intros c Hc.
    rewrite (digit_not_alpha _ (Fd c Hc)). reflexivity. }
  apply no_gap_skip.
  { rewrite forallb_forall in *. intros c Hc.
    rewrite (space_not_alpha _ (Fw c Hc)). reflexivity. }
  apply no_gap_word; assumption.
Qed.

Lemma no_gap_marker l n1 x s y n2 :
  no_gap l -> is_alpha x = true -> is_space s = true -> is_alpha y = true ->
  str_in (n1 ++ x :: s :: y :: n2) l = false.
Proof.
  intros G Hx Hs Hy. destruct (str_in _ l) eqn:E; [|reflexivity].
  apply str_in_spec in E. destruct E as (a & b & ->).
  assert (F : forallb is_space (y :: n2 ++ b) = true).
  { apply (G (a ++ n1) x s); auto. rewrite <- !app_assoc. reflexivity. }
  simpl in F. apply andb_true_iff in F. destruct F as [F _].
  rewrite (space_not_alpha _ F) in Hy. discriminate.
Qed.

(** A zip-county header holds none of the header markers, so the order of
    the first two tests of the loop does not matter. *)
Lemma zip_header_not_header_line l m :
  is_zip_header l = Some m -> is_header_line l = false.
Proof.
  intros H. apply zip_header_no_gap in H.
  assert (M : forall n1 x y n2 marker,
             marker = n1 ++ x :: " "%char :: y :: n2 ->
             is_alpha x = true -> is_alpha y = true ->
             str_in marker l = false).
  { intros n1 x y n2 marker -> Hx Hy. apply no_gap_marker; auto. }
  unfold is_header_line, SKIP_MARKERS. cbn [existsb].
  rewrite (M (lit "CHIL") "D"%char "C"%char (lit "ARE LICENSING ROSTER"));
    [|reflexivity..].
  rewrite (M (lit "Dat") "e"%char "o"%char (lit "f Printing:"));
    [|reflexivity..].
  rewrite (M (lit "ZI") "P"%char "C"%char (lit "ODE")); [|reflexivity..].
  rewrite (M (lit "PROVIDE") "R"%char "N"%char (lit "AME")); [|reflexivity..].
  rewrite (M (lit "OWNE") "R"%char "N"%char (lit "AME")); [|reflexivity..].
  rewrite (M (lit "PHON") "E"%char "N"%char (lit "UMBER")); [|reflexivity..].
  reflexivity.
Qed.

(** The roles in terms of the tests of the source. *)
Lemma classify_zip_header l zip county :
  classify l = Zip_header zip county <->
  exists m, is_zip_header l = Some m /\ zip = grp 1 m /\ county = grp 2 m.
Proof.
  unfold classify. split.
  - destruct (is_header_line l); [discriminate|].
    destruct (is_zip_header l) as [m|];
      [|destruct (is_total_line l); [|destruct (is_provider_start_line l)];
        discriminate].
    intros H. inversion H. eauto.
  - intros (m & E & -> & ->). rewrite (zip_header_not_header_line _ E), E.
    reflexivity.
Qed.

Lemma classify_start_line l :
  classify l = Record_start <->
  is_provider_start_line l = true /\ is_header_line l = false
  /\ is_total_line l = false.
Proof.
  rewrite classify_record_start. split.
  - tauto.
  - intros (H1 & H2 & H3). repeat split; auto.
    apply start_line_not_zip_header, H1.
Qed.

Lemma parse_start_line_kept d l conts zip county :
  is_provider_start_line l = true ->
  is_kept (parse_provider_block (l :: conts) zip county d) = true.
Proof.
  intros H. apply start_line_has_license in H.
  unfold is_kept, parse_provider_block.
  destruct (name_and_address l (extract_license_number l)).
  destruct (fold_left date_step (l :: conts) ([], [])).
  cbn [Provider_Name License_Number]. rewrite H. apply orb_true_r.
Qed.

(** The record carries the context and the date it is given. *)
Lemma parse_context lines zip county d :
  Zip_Code (parse_provider_block lines zip county d) = zip
  /\ County (parse_provider_block lines zip county d) = county
  /\ Download_Date (parse_provider_block lines zip county d) = d.
Proof.
  unfold parse_provider_block. destruct lines as [|l conts]; [auto|].
  destruct (name_and_address l (extract_license_number l)).
  destruct (fold_left date_step (l :: conts) ([], [])). auto.
Qed.

Lemma emit_start_line d l conts st :
  is_provider_start_line l = true ->
  emit d (l :: conts) st
  = PState (providers st
            ++ [parse_provider_block (l :: conts) (current_zip st)
                                     (current_county st) d])
           (current_zip st) (current_county st)
           (handed st
            ++ [Block (l :: conts) (current_zip st) (current_county st)]).
Proof.
  intros H. unfold emit. rewrite parse_start_line_kept by assumption.
  reflexivity.
Qed.

(** The outer loop only adds to the records and to the blocks. *)
Lemma run_grows d lines st :
  exists ps bs,
    providers (run d lines st) = providers st ++ ps
    /\ handed (run d lines st) = handed st ++ bs.
Proof.
  destruct (run_blocks d lines st) as (bs & H1 & H2 & _). eauto.
Qed.

Lemma pages_grow d pages st :
  exists ps bs,
    providers (fold_left (scan_page d) pages st) = providers st ++ ps
    /\ handed (fold_left (scan_page d) pages st) = handed st ++ bs.
Proof.
  destruct (pages_blocks d pages st) as (bs & H1 & H2 & _). eauto.
Qed.

(** ** Where the blocks lie *)

Lemma filter_none {A : Type} (f : A -> bool) (l : list A) :
  (forall x, In x l -> f x = false) -> filter f l = [].
Proof.
  induction l as [|x l IH]; intros H; simpl; [reflexivity|].
  rewrite (H x) by (simpl; auto). apply IH. intros y Hy. apply H. simpl; auto.
Qed.

(** Where the inner loop stops. *)
Lemma collect_end lines : forall acc n,
  exists taken rest,
    collect acc n lines = (acc ++ taken, rest)
    /\ lines = taken ++ rest
    /\ continuations taken = true
    /\ n + length taken <= Nat.max n 10
    /\ (rest = [] \/ 10 <= n + length taken
        \/ exists x rest', rest = x :: rest' /\ stops x = true).
Proof.
  induction lines as [|l lines IH]; intros acc n.
  - exists [], []. simpl. rewrite app_nil_r. repeat split; auto. lia.
  - cbn [collect]. destruct (Nat.ltb_spec n 10) as [Hlt | Hge].
    + destruct (stops l) eqn:Hs.
      * exists [], (l :: lines). rewrite app_nil_r.
        assert (E : (if is_provider_start_line l then (acc, l :: lines)
                     else match is_zip_header l with
                          | Some _ => (acc, l :: lines)
                          | None =>
                              if is_total_line l then (acc, l :: lines)
                              else if is_header_line l then (acc, l :: lines)
                              else collect (acc ++ [l]) (n + 1) lines
                          end) = (acc, l :: lines)).
        { unfold stops in Hs. destruct (is_provider_start_line l); auto.
          destruct (is_zip_header l); auto.
          destruct (is_total_line l); auto.
          destruct (is_header_line l); auto. discriminate. }
        rewrite E. repeat split; auto; [simpl; lia|]. right. right. eauto.
      * destruct (stops_false l Hs) as (H1 & H2 & H3 & H4).
        rewrite H1, H2, H3, H4.
        destruct (IH (acc ++ [l]) (n + 1))
          as (taken & rest & E & Er & Hc & Hl & He).
        subst lines.
        exists (l :: taken), rest. rewrite E, <- app_assoc.
        unfold continuations in *. simpl. rewrite Hs, Hc.
        repeat split; auto; [lia|].
        destruct He as [He | [He | He]]; auto. right. left. lia.
    + exists [], (l :: lines). rewrite app_nil_r. simpl.
      repeat split; auto; [lia|]. right. left. lia.
Qed.

(** The blocks one run of the outer loop hands over, as they lie in the
    lines. *)
Lemma run_blocks_shape d : forall lines st,
  exists bs,
    handed (run d lines st) = handed st ++ bs
    /\ length bs = count_record_starts lines
    /\ forall b, In b bs -> block_in_lines b lines.
Proof.
  intros lines. induction lines as [|line rest IH] using lines_ind; intros st.
  - exists []. rewrite run_nil, app_nil_r. repeat split; auto. intros b [].
  - assert (Skip : forall st', handed st' = handed st ->
              is_record_start line = false ->
              exists bs,
                handed (run d rest st') = handed st ++ bs
                /\ length bs = count_record_starts (line :: rest)
                /\ forall b, In b bs -> block_in_lines b (line :: rest)).
    { intros st' Hh Hr. destruct (IH rest (le_n _) st') as (bs & E1 & E2 & E3).
      exists bs. rewrite E1, Hh. split; [reflexivity|]. split.
      - unfold count_record_starts. simpl. rewrite Hr. exact E2.
      - intros b Hb.
        destruct (E3 b Hb) as (pre & f & conts & post & E & H). subst rest.
        exists (line :: pre), f, conts, post. split; [reflexivity | exact H]. }
    rewrite run_cons. unfold is_record_start in Skip.
    destruct (classify line) eqn:Hc; try (apply Skip; reflexivity).
    clear Skip.
    destruct (collect_end rest [line] 1)
      as (taken & rest' & E & Er & Ht & Hl & He).
    subst rest. rewrite E. cbn [fst snd app].
    destruct (IH rest') with (st := emit d (line :: taken) st)
      as (bs & E1 & E2 & E3).
    { rewrite length_app. lia. }
    exists (Block (line :: taken) (current_zip st) (current_county st) :: bs).
    rewrite E1. split; [simpl; rewrite <- app_assoc; reflexivity|]. split.
    + unfold count_record_starts, is_record_start. simpl. rewrite Hc. simpl.
      rewrite filter_app, length_app.
      assert (Z : filter is_record_start taken = []).
      { apply filter_none. intros x Hx. unfold continuations in Ht.
        rewrite forallb_forall in Ht. specialize (Ht x Hx).
        apply negb_true_iff, stops_classify in Ht.
        unfold is_record_start. rewrite Ht. reflexivity. }
      fold is_record_start. rewrite Z. simpl.
      unfold count_record_starts in E2. rewrite E2. reflexivity.
    + intros b [Eb | Hb].
      * subst b. exists [], line, taken, rest'.
        simpl in Hl. repeat split; auto; [lia|].
        destruct He as [He | [He | He]]; [left; auto | right; left; lia
                                         | right; right; auto].
      * destruct (E3 b Hb) as (pre & f & conts & post & Ep & H). subst rest'.
        exists (line :: taken ++ pre), f, conts, post.
        split; [simpl; rewrite <- app_assoc; reflexivity | exact H].
Qed.

Lemma pages_blocks_shape d : forall pages st,
  exists bs,
    handed (fold_left (scan_page d) pages st) = handed st ++ bs
    /\ length bs = count_record_starts (concat (map page_lines pages))
    /\ forall b, In b bs ->
         exists page, In page pages /\ block_in_lines b (page_lines page).
Proof.
  induction pages as [|page pages IH]; intros st.
  - exists []. simpl. rewrite app_nil_r. repeat split; auto. intros b [].
  - cbn [fold_left map concat]. rewrite scan_page_run.
    destruct (run_blocks_shape d (page_lines page) st) as (bs1 & A1 & A2 & A3).
    destruct (IH (run d (page_lines page) st)) as (bs2 & B1 & B2 & B3).
    exists (bs1 ++ bs2). rewrite B1, A1, <- app_assoc.
    split; [reflexivity|]. split.
    + unfold count_record_starts in *.
      rewrite length_app, filter_app, length_app. lia.
    + intros b Hb. apply in_app_or in Hb. destruct Hb as [Hb | Hb].
      * exists page. split; [left; reflexivity | apply A3, Hb].
      * destruct (B3 b Hb) as (pg & Hin & H). exists pg.
        split; [right; exact Hin | exact H].
Qed.

(** C6 (as stated): a line with a license number and [Capacity:] that also
    holds the header marker [ZIP CODE] is skipped; no block is opened. *)
Lemma marked_start_line_is_skipped :
  is_provider_start_line marked_start_line = true
  /\ blocks_of_pdf [None; Some marked_start_line] [] = []
  /\ extract_providers_from_pdf [None; Some marked_start_line] [] = [].
Proof. vm_compute. auto. Qed.

(** A record-start line that holds a header marker or begins with the
    total prefix has the role of a header or of a total line. *)
Lemma marked_start_line_role l :
  is_provider_start_line l = true ->
  is_header_line l = true \/ is_total_line l = true ->
  classify l = Header \/ classify l = Total.
Proof.
  intros Hs H. unfold classify.
  destruct (is_header_line l); [left; reflexivity|].
  destruct H as [H | H]; [discriminate|].
  rewrite (start_line_not_zip_header l Hs), H. right. reflexivity.
Qed.

(** A line at which the inner loop breaks and that opens no block is a
    line of no block. *)
Lemma stopping_line_in_no_block l b lines :
  stops l = true -> classify l <> Record_start ->
  block_in_lines b lines -> ~ In l (b_lines b).
Proof.
  intros Hs Hc (pre & first & conts & post & _ & E & Hf & Hk & _) Hin.
  rewrite E in Hin. destruct Hin as [<- | Hin]; [contradiction|].
  unfold continuations in Hk. rewrite forallb_forall in Hk.
  specialize (Hk l Hin). rewrite Hs in Hk. discriminate.
Qed.

(** C6 (amended): the fate of a line that satisfies the record-start
    condition is decided by the two tests that come first in the loop.
    If it holds no header marker and does not begin with the total prefix
    it is never skipped: wherever it stands among the lines of a page, it
    is the first line of a block, tagged with the zip/county context of
    the lines before it; and on any page after the first, it is the first
    line of a block handed to the record assembler.  If it holds a header
    marker or begins with the total prefix it is skipped: the loop passes
    over it without any change of state, and it is a line of no block of
    any document. *)
Theorem record_start_opens_block (download_date l : str) :
  is_provider_start_line l = true ->
  (is_header_line l = false ->
   is_total_line l = false ->
   (forall pre post st,
       exists conts rest more,
         post = conts ++ rest
         /\ handed (run download_date (pre ++ l :: post) st)
            = handed (run download_date pre st)
              ++ Block (l :: conts)
                       (fst (context_after pre (context_of st)))
                       (snd (context_after pre (context_of st)))
                 :: more)
   /\ (forall first before page after pre post,
          page_lines page = pre ++ l :: post ->
          exists conts zip county,
            In (Block (l :: conts) zip county)
               (blocks_of_pdf (first :: before ++ page :: after)
                              download_date)))
  /\ (is_header_line l = true \/ is_total_line l = true ->
      (forall rest st,
          run download_date (l :: rest) st = run download_date rest st)
      /\ (forall pages b,
             In b (blocks_of_pdf pages download_date) ->
             ~ In l (b_lines b))).
Proof.
  intros Hs. split.
  - intros Hh Ht.
    assert (Hc : classify l = Record_start)
      by (apply classify_start_line; auto).
    assert (Page : forall pre post st,
      exists conts rest more,
        post = conts ++ rest
        /\ handed (run download_date (pre ++ l :: post) st)
           = handed (run download_date pre st)
             ++ Block (l :: conts)
                      (fst (context_after pre (context_of st)))
                      (snd (context_after pre (context_of st)))
                :: more).
    { intros pre post st.
      destruct (@run_opens_block download_date pre l post st Hc)
        as (conts & rest & -> & _ & _ & E & Ectx).
      destruct (run_grows download_date rest
                  (emit download_date (l :: conts)
                        (run download_date pre st)))
        as (ps & bs & _ & Eh).
      exists conts, rest, bs. split; [reflexivity|].
      rewrite E, Eh, emit_start_line by assumption. cbn [handed].
      rewrite <- Ectx, <- app_assoc. reflexivity. }
    split; [exact Page|].
    intros first before page after pre post Hp.
    unfold blocks_of_pdf, extract_state. cbn [tl].
    rewrite fold_left_app. cbn [fold_left].
    set (st := fold_left (scan_page download_date) before initial_state).
    rewrite scan_page_run, Hp.
    destruct (Page pre post st) as (conts & rest & more & _ & E).
    destruct (pages_grow download_date after
                (run download_date (pre ++ l :: post) st))
      as (ps & bs & _ & Eh).
    exists conts, (fst (context_after pre (context_of st))),
      (snd (context_after pre (context_of st))).
    rewrite Eh, E. apply in_or_app. left. apply in_or_app. right.
    simpl; auto.
  - intros Hm. pose proof (marked_start_line_role l Hs Hm) as Hr. split.
    + intros rest st. rewrite run_cons.
      destruct Hr as [-> | ->]; reflexivity.
    + intros pages b Hb.
      unfold blocks_of_pdf, extract_state in Hb.
      destruct (pages_blocks_shape download_date (tl pages) initial_state)
        as (bs & E & _ & H).
      rewrite E in Hb. simpl in Hb.
      destruct (H b Hb) as (page & _ & Hin).
      apply (@stopping_line_in_no_block l b (page_lines page)); auto.
      * unfold stops. rewrite Hs. reflexivity.
      * destruct Hr as [-> | ->]; discriminate.
Qed.

Lemma record_start_opens_block_witness :
  (is_provider_start_line bright_start_line = true
   /\ is_header_line bright_start_line = false
   /\ is_total_line bright_start_line = false
   /\ exists conts zip county,
        In (Block (bright_start_line :: conts) zip county)
           (blocks_of_pdf sample_pdf sample_date))
  /\ (is_provider_start_line total_start_line = true
      /\ is_total_line total_start_line = true
      /\ run sample_date [total_start_line; bright_start_line] initial_state
         = run sample_date [bright_start_line] initial_state
      /\ forall b,
           In b (blocks_of_pdf [None; Some total_start_line] sample_date) ->
           ~ In total_start_line (b_lines b)).
Proof.
  assert (H1 : is_provider_start_line bright_start_line = true)
    by (vm_compute; reflexivity).
  assert (H2 : is_header_line bright_start_line = false)
    by (vm_compute; reflexivity).
  assert (H3 : is_total_line bright_start_line = false)
    by (vm_compute; reflexivity).
  assert (T1 : is_provider_start_line total_start_line = true)
    by (vm_compute; reflexivity).
  assert (T2 : is_total_line total_start_line = true)
    by (vm_compute; reflexivity).
  split.
  - repeat (split; [assumption|]).
    refine (proj2 (proj1 (@record_start_opens_block sample_date
                            bright_start_line H1) H2 H3)
                  (Some (lit "Nebraska DHHS")) [] sample_page []
                  (firstn 6 (page_lines sample_page))
                  (skipn 7 (page_lines sample_page)) _).
    vm_compute. reflexivity.
  - repeat (split; [assumption|]).
    destruct (proj2 (@record_start_opens_block sample_date total_start_line
                       T1) (or_intror T2)) as [R B].
    split; [apply R | apply B].
Defined.

Lemma collect_suffix conts : forall acc n,
  forallb (fun l => negb (stops l)) conts = true ->
  forallb (fun l => negb (stops l)) (snd (collect acc n conts)) = true.
Proof.
  intros acc n H.
  destruct (collect_split conts acc n) as (taken & rest & E & -> & _).
  rewrite E. cbn [snd]. rewrite forallb_app in H.
  apply andb_true_iff in H. tauto.
Qed.

(** A record start, continuation lines, then a line at which the inner
    loop breaks: the block is emitted and the loop goes on at that line. *)
Lemma run_record_then_stop d A conts B rest st :
  classify A = Record_start ->
  forallb (fun l => negb (stops l)) conts = true ->
  stops B = true ->
  exists taken,
    run d (A :: conts ++ B :: rest) st
    = run d (B :: rest) (emit d (A :: taken) st).
Proof.
  intros HA Hc HB. rewrite run_cons, HA.
  rewrite (@collect_app_stop B rest HB). cbn [fst snd].
  rewrite (@run_app_stop d B rest HB).
  rewrite (@run_continuations d (snd (collect [A] 1 conts)))
    by (apply collect_suffix; assumption).
  destruct (collect_split conts [A] 1) as (taken & rc & E & _).
  rewrite E. cbn [fst app]. eauto.
Qed.

(** C7: every emitted record carries the zip code and county of the most
    recent zip-county header among the lines read before its block, the
    lines of all pages from page 2 on taken as one stream, so the context
    lasts across blocks and pages.  In particular, when a page reads
    ["68002 Washington"; A; continuation lines; B; ...] with A and B
    record-start lines, the first two records both have zip code "68002"
    and county "Washington". *)
Theorem context_propagation (pages : list (option str)) (download_date : str) :
  (forall p,
      In p (extract_providers_from_pdf pages download_date) ->
      exists pre blk post,
        line_stream pages = pre ++ blk ++ post
        /\ p = parse_provider_block blk (Zip_Code p) (County p) download_date
        /\ (Zip_Code p, County p) = context_after pre ([], []))
  /\ (forall first page more A conts B rest,
         pages = first :: page :: more ->
         page_lines page = washington_header :: A :: conts ++ B :: rest ->
         classify A = Record_start ->
         forallb (fun l => negb (stops l)) conts = true ->
         classify B = Record_start ->
         exists pA pB others,
           extract_providers_from_pdf pages download_date
           = pA :: pB :: others
           /\ Zip_Code pA = lit "68002" /\ County pA = lit "Washington"
           /\ Zip_Code pB = lit "68002" /\ County pB = lit "Washington").
Proof.
  split.
  - intros p Hp.
    destruct (extract_state_blocks pages download_date) as (E & _ & _ & Hb).
    rewrite E in Hp. apply in_map_iff in Hp. destruct Hp as (b & <- & Hin).
    destruct (Hb b Hin) as (pre & post & El & Hctx).
    unfold assemble.
    destruct (parse_context (b_lines b) (b_zip b) (b_county b) download_date)
      as (Hz & Hc & _).
    exists pre, (b_lines b), post. rewrite Hz, Hc. auto.
  - intros first page more A conts B rest -> Hpage HA Hconts HB.
    unfold extract_providers_from_pdf, extract_state. cbn [tl fold_left].
    rewrite scan_page_run, Hpage.
    rewrite run_cons.
    change (classify washington_header)
      with (Zip_header (lit "68002") (lit "Washington")).
    cbv iota.
    set (st0 := PState (providers initial_state) (lit "68002")
                       (lit "Washington") (handed initial_state)).
    destruct (@run_record_then_stop download_date A conts B rest st0 HA Hconts
                (@classify_stops B HB)) as (takenA & ->).
    destruct (proj1 (classify_record_start A) HA) as (HsA & _).
    destruct (proj1 (classify_record_start B) HB) as (HsB & _).
    rewrite run_cons, HB.
    destruct (collect_split rest [B] 1) as (takenB & restB & EB & _).
    rewrite EB. cbn [fst snd app].
    rewrite !emit_start_line by assumption.
    cbn [providers current_zip current_county handed st0 initial_state app].
    match goal with
    | |- context [run download_date restB ?s] =>
        destruct (run_grows download_date restB s) as (ps1 & bs1 & E1 & _);
        destruct (pages_grow download_date more (run download_date restB s))
          as (ps2 & bs2 & E2 & _)
    end.
    rewrite E2, E1. cbn [providers app].
    eexists _, _, _. split; [reflexivity|].
    repeat split; apply parse_context.
Qed.

Lemma context_propagation_witness :
  page_lines propagation_page
  = washington_header :: sunny_start_line
      :: propagation_conts
      ++ bright_start_line :: [lit "Total Number in Zip Code: 2"]
  /\ classify sunny_start_line = Record_start
  /\ forallb (fun l => negb (stops l)) propagation_conts = true
  /\ classify bright_start_line = Record_start
  /\ exists pA pB others,
       extract_providers_from_pdf propagation_pdf sample_date
       = pA :: pB :: others
       /\ Zip_Code pA = lit "68002" /\ County pA = lit "Washington"
       /\ Zip_Code pB = lit "68002" /\ County pB = lit "Washington".
Proof.
  assert (H1 : page_lines propagation_page
               = washington_header :: sunny_start_line
                   :: propagation_conts
                   ++ bright_start_line :: [lit "Total Number in Zip Code: 2"])
    by (vm_compute; reflexivity).
  assert (H2 : classify sunny_start_line = Record_start)
    by (vm_compute; reflexivity).
  assert (H3 : forallb (fun l => negb (stops l)) propagation_conts = true)
    by (vm_compute; reflexivity).
  assert (H4 : classify bright_start_line = Record_start)
    by (vm_compute; reflexivity).
  repeat (split; [assumption|]).
  exact (proj2 (context_propagation propagation_pdf sample_date)
               None propagation_page [sample_page] sunny_start_line
               propagation_conts bright_start_line
               [lit "Total Number in Zip Code: 2"] eq_refl H1 H2 H3 H4).
Defined.

(** C10: the first page is left out of the parse.  The state after the
    whole document (records, zip/county context and blocks handed over)
    is the state after pages 2 onward alone, so it is the same whatever
    page 1 holds. *)
Theorem first_page_is_excluded (first : option str) (rest : list (option str))
        (download_date : str) :
  extract_state (first :: rest) download_date
  = fold_left (scan_page download_date) rest initial_state
  /\ forall other : option str,
       extract_state (other :: rest) download_date
       = extract_state (first :: rest) download_date
       /\ extract_providers_from_pdf (other :: rest) download_date
          = extract_providers_from_pdf (first :: rest) download_date
       /\ blocks_of_pdf (other :: rest) download_date
          = blocks_of_pdf (first :: rest) download_date.
Proof.
  split; [reflexivity|]. intros other. repeat split; reflexivity.
Qed.

(** * The field extractors *)

Lemma first_type_in_cases types : forall text,
  first_type_in types text = [] \/
  (In (first_type_in types text) types /\
   str_in (first_type_in types text) text = true).
Proof.
  induction types as [|t types IH]; intros text; simpl; auto.
  destruct (str_in t text) eqn:E; [right; auto|].
  destruct (IH text) as [H | [H1 H2]]; auto.
Qed.

(** C4 (the code at the failing input): a line that holds
    'School-Age-Only Child Care Center' is reported as 'Child Care
    Center', because [FACILITY_TYPES] lists the generic name first; and
    whatever the line, the extractor never returns 'School-Age-Only Child
    Care Center'. *)
Theorem school_age_reported_as_center :
  extract_facility_type school_age_center = lit "Child Care Center"
  /\ forall text, extract_facility_type text <> school_age_center.
Proof.
  split; [vm_compute; reflexivity|].
  intros text H.
  assert (Hc : str_in (lit "Child Care Center") text = true).
  { destruct (first_type_in_cases FACILITY_TYPES text) as [E | [_ E]];
      fold (extract_facility_type text) in E; rewrite H in E.
    - discriminate.
    - apply (@str_in_part (lit "School-Age-Only ") (lit "Child Care Center") []).
      exact E. }
  unfold extract_facility_type, FACILITY_TYPES in H. cbn [first_type_in] in H.
  rewrite Hc in H.
  destruct (str_in (lit "Family Child Care Home II") text);
    [discriminate|].
  destruct (str_in (lit "Family Child Care Home I") text); discriminate.
Qed.

(** C5 (as stated): the one-line block of the Sunny Days line does not
    give [days_open = "MTWTHF"]; the line has no [Days of Week Open:]
    label, so the field stays empty. *)
Lemma sunny_days_days_open_differs :
  ~ (let p := parse_provider_block [sunny_days_line] [] [] [] in
     Provider_Name p = lit "Sunny Days"
     /\ License_Number p = lit "CCC9578"
     /\ Capacity p = lit "10"
     /\ Days_Open p = lit "MTWTHF"
     /\ Address p = lit "123 Main St").
Proof. vm_compute. intros (_ & _ & _ & H & _). discriminate H. Qed.

(** C5 (amended): the one-line block of the Sunny Days line gives
    [provider_name = "Sunny Days"], [license_number = "CCC9578"],
    [capacity = "10"], [address = "123 Main St"] and an empty [days_open];
    with the label [Days of Week Open:] in front of the day letters the
    same line gives [days_open = "MTWTHF"]. *)
Theorem sunny_days_record (zip county date : str) :
  let p := parse_provider_block [sunny_days_line] zip county date in
  let p' := parse_provider_block [sunny_days_labelled_line] zip county date in
  is_provider_start_line sunny_days_line = true
  /\ Provider_Name p = lit "Sunny Days"
  /\ License_Number p = lit "CCC9578"
  /\ Capacity p = lit "10"
  /\ Days_Open p = []
  /\ Address p = lit "123 Main St"
  /\ Days_Open p' = lit "MTWTHF".
Proof. vm_compute. repeat split; reflexivity. Qed.

Lemma has_shape_app sh1 : forall sh2 s1 s2,
  has_shape sh1 s1 = true -> has_shape sh2 s2 = true ->
  has_shape (sh1 ++ sh2) (s1 ++ s2) = true.
Proof.
  induction sh1 as [|f sh1 IH]; intros sh2 s1 s2 H1 H2;
    destruct s1 as [|c s1]; simpl in *; try discriminate; auto.
  apply andb_true_iff in H1. destruct H1 as [Hc H1].
  rewrite Hc. simpl. apply IH; auto.
Qed.

Lemma has_shape_repeat f : forall t,
  forallb f t = true -> has_shape (repeat f (length t)) t = true.
Proof.
  induction t as [|c t IH]; simpl; auto.
  intros H. apply andb_true_iff in H. destruct H as [-> H]. auto.
Qed.

Lemma has_shape_cons f shape s :
  has_shape (f :: shape) s = true ->
  exists c s', s = c :: s' /\ f c = true /\ has_shape shape s' = true.
Proof.
  destruct s as [|c s']; simpl; [discriminate|].
  intros H. apply andb_true_iff in H. destruct H. eauto.
Qed.

Lemma has_shape_nil s : has_shape [] s = true -> s = [].
Proof. destruct s; [reflexivity | discriminate]. Qed.

Ltac shape_inv H :=
  repeat (let c := fresh "c" in
          let F := fresh "F" in
          apply has_shape_cons in H; destruct H as (c & ? & -> & F & H));
  apply has_shape_nil in H; subst;
  repeat match goal with
         | E : ch_eqb _ _ = true |- _ => apply ch_eqb_eq in E; subst
         end.

Lemma has_shape_lit s : has_shape (map ch_eqb s) s = true.
Proof. induction s; simpl; auto. rewrite ch_eqb_refl. auto. Qed.

(** [exactly n f] takes [n] characters of the class. *)
Lemma Match_exactly n f z c z' c' :
  Match false (exactly n f) z c z' c' <->
  exists t, advance z t z' /\ forallb f t = true /\ length t = n /\ c' = c.
Proof.
  unfold exactly. cbn [Match]. split.
  - intros (t & A & F & L & U & ->). rewrite forallb_cls_match_cs in F.
    simpl in U. exists t. repeat split; auto; try apply A. lia.
  - intros (t & A & F & L & ->). exists t. rewrite forallb_cls_match_cs.
    simpl. repeat split; auto; try apply A; lia.
Qed.

(** A capture group records the text it went over. *)
Lemma Match_Grp_text ic n r z c z' c' :
  Match ic (Grp n r) z c z' c' ->
  exists c1 t, Match ic r z c z' c1 /\ advance z t z'
               /\ c' = (n, (offset z, t)) :: c1.
Proof.
  cbn [Match]. intros (c1 & HM & ->).
  destruct (Match_advance _ _ _ _ _ _ HM) as [t A].
  exists c1, t. rewrite (between_advance A). auto.
Qed.

Lemma advance_unique z t1 t2 z' :
  advance z t1 z' -> advance z t2 z' -> t1 = t2.
Proof.
  intros [A1 _] [A2 _]. rewrite A1 in A2. apply app_inv_tail in A2. exact A2.
Qed.

Lemma digits_shape n t :
  forallb is_digit t = true -> length t = n ->
  has_shape (repeat is_digit n) t = true.
Proof. intros F <-. apply has_shape_repeat, F. Qed.

Lemma group_of_match n m z' c : 
  group_text n (Found m z' c) = option_map snd (group n c).
Proof. reflexivity. Qed.

(** A phone number read by [extract_phone] has the form [(DDD) DDD-DDDD]. *)
Lemma extract_phone_shape l :
  extract_phone l = [] \/ has_shape phone_shape (extract_phone l) = true.
Proof.
  unfold extract_phone, re_match.
  destruct (match_at false phone_re false (Cursor [] l)) as [m|] eqn:E;
    [right | left; reflexivity].
  apply match_at_sound in E. destruct E as (z' & c' & HM & -> & _).
  unfold phone_re in HM. cbn [Match chr] in HM. fold (chr "(") (chr ")") (chr "-") in HM.
  destruct HM as (z0 & c0 & (_ & -> & ->) & z1 & c1 & H1 & z2 & c2 & H2
                  & z3 & c3 & H3 & z4 & c4 & H4 & z5 & c5 & H5
                  & z6 & c6 & H6 & H7).
  destruct H1 as (x1 & q1 & _ & _ & _ & E1).
  destruct H2 as (k2 & H2 & E2). apply Match_exactly in H2.
  destruct H2 as (g1 & A1 & F1 & L1 & Ek2).
  destruct H3 as (x3 & q3 & _ & _ & _ & E3).
  destruct H4 as (w4 & _ & _ & _ & _ & E4).
  destruct H5 as (k5 & H5 & E5). apply Match_exactly in H5.
  destruct H5 as (g2 & A2 & F2 & L2 & Ek5).
  assert (E6 : c6 = c5).
  { destruct H6 as [(? & ? & _ & _ & _ & E6) | [_ E6]]; exact E6. }
  destruct H7 as (k7 & H7 & E7). apply Match_exactly in H7.
  destruct H7 as (g3 & A3 & F3 & L3 & Ek7).
  subst. unfold grp, group_text. cbn [m_caps group Nat.eqb option_map snd].
  rewrite !(between_advance A1), !(between_advance A2), !(between_advance A3).
  change phone_shape with
    (map ch_eqb (lit "(") ++ repeat is_digit 3 ++ map ch_eqb (lit ") ")
     ++ repeat is_digit 3 ++ map ch_eqb (lit "-") ++ repeat is_digit 4).
  repeat (apply has_shape_app);
    try apply has_shape_lit; apply digits_shape; assumption.
Qed.

(** Steps that build a match of a sequence from left to right. *)
Lemma Match_Bol_step r q c z' c' :
  Match false r (Cursor [] q) c z' c' ->
  Match false (Bol ;; r) (Cursor [] q) c z' c'.
Proof. intros H. exists (Cursor [] q), c. simpl. auto. Qed.

Lemma Match_chr_step x r p q c z' c' :
  Match false r (Cursor (x :: p) q) c z' c' ->
  Match false (chr x ;; r) (Cursor p (x :: q)) c z' c'.
Proof.
  intros H. exists (Cursor (x :: p) q), c. split; [|exact H].
  apply Match_chr_cs. split; [|reflexivity]. split; reflexivity.
Qed.

Lemma Match_exactly_step n f t r p q c z' c' :
  length t = n -> forallb f t = true ->
  Match false r (Cursor (rev t ++ p) q) c z' c' ->
  Match false (exactly n f ;; r) (Cursor p (t ++ q)) c z' c'.
Proof.
  intros L F H. exists (Cursor (rev t ++ p) q), c. split; [|exact H].
  apply Match_exactly. exists t. repeat split; auto.
Qed.

Lemma Match_exactly_last n f t p q c :
  length t = n -> forallb f t = true ->
  Match false (exactly n f) (Cursor p (t ++ q)) c (Cursor (rev t ++ p) q) c.
Proof.
  intros L F. apply Match_exactly. exists t. repeat split; auto.
Qed.

Lemma Match_Eol_last p c : Match false Eol (Cursor p []) c (Cursor p []) c.
Proof. simpl. auto. Qed.

(** The date pattern goes over exactly the texts of the form [DD/DD/DDDD]. *)
Lemma Match_date_body z c z' c' :
  Match false date_body z c z' c' <->
  exists t, advance z t z' /\ has_shape date_shape t = true /\ c' = c.
Proof.
  split.
  - unfold date_body. cbn [Match chr]. fold (chr "/").
    intros (z1 & c1 & H1 & z2 & c2 & H2 & z3 & c3 & H3 & z4 & c4 & H4 & H5).
    apply Match_exactly in H1. destruct H1 as (t1 & A1 & F1 & L1 & ->).
    apply Match_chr_cs in H2. destruct H2 as (A2 & ->).
    apply Match_exactly in H3. destruct H3 as (t3 & A3 & F3 & L3 & ->).
    apply Match_chr_cs in H4. destruct H4 as (A4 & ->).
    apply Match_exactly in H5. destruct H5 as (t5 & A5 & F5 & L5 & ->).
    exists (t1 ++ lit "/" ++ t3 ++ lit "/" ++ t5). split; [|split; [|reflexivity]].
    + apply (advance_trans A1). apply (advance_trans A2).
      apply (advance_trans A3). apply (advance_trans A4). exact A5.
    + change date_shape with
        (repeat is_digit 2 ++ map ch_eqb (lit "/") ++ repeat is_digit 2
         ++ map ch_eqb (lit "/") ++ repeat is_digit 4).
      repeat (apply has_shape_app);
        try apply has_shape_lit; apply digits_shape; assumption.
  - intros (t & [A S] & H & ->).
    unfold date_shape in H. shape_inv H.
    destruct z as [p q], z' as [p' q']. simpl in A, S. subst q p'.
    unfold date_body.
    apply (@Match_exactly_step 2 is_digit [c0; c1]);
      [reflexivity | simpl; rewrite F, F0; reflexivity |].
    apply Match_chr_step.
    apply (@Match_exactly_step 2 is_digit [c3; c4]);
      [reflexivity | simpl; rewrite F2, F3; reflexivity |].
    apply Match_chr_step.
    apply (@Match_exactly_last 4 is_digit [c6; c7; c8; c9]); [reflexivity|].
    simpl. rewrite F5, F6, F7, F8. reflexivity.
Qed.

(** A date read by [extract_effective_date] has the form [DD/DD/DDDD]. *)
Lemma extract_effective_date_shape l :
  extract_effective_date l = []
  \/ has_shape date_shape (extract_effective_date l) = true.
Proof.
  unfold extract_effective_date.
  destruct (re_search false date_re l) as [m|] eqn:E; [right | left; reflexivity].
  apply re_search_sound in E.
  destruct E as (a & b & z' & c' & -> & HM & ->).
  unfold date_re in HM.
  destruct HM as (z0 & c0 & (_ & -> & ->) & z1 & c1 & HG & (_ & Ez & Ec)).
  subst z1 c'. destruct HG as (k & HB & ->).
  apply Match_date_body in HB. destruct HB as (t & A & S & ->).
  unfold grp, group_text. simpl. rewrite (between_advance A). exact S.
Qed.

Lemma matches_intro r s z' c' :
  Match false r (Cursor [] s) [] z' c' -> matches r s = true.
Proof.
  intros H. apply match_at_complete in H. destruct H as [m H].
  unfold matches, re_match. rewrite H. reflexivity.
Qed.

(** The validator accepts every text of the three fixed formats and every
    license number. *)
Lemma date_shape_matches s :
  has_shape date_shape s = true -> matches DATE_PATTERN s = true.
Proof.
  intros H. unfold DATE_PATTERN.
  apply (@matches_intro _ s (Cursor (rev s) []) []).
  apply Match_Bol_step.
  exists (Cursor (rev s) []), []. split; [|apply Match_Eol_last].
  apply Match_date_body. exists s. repeat split; auto.
  - simpl. symmetry. apply app_nil_r.
  - simpl. symmetry. apply app_nil_r.
Qed.

Lemma phone_shape_matches s :
  has_shape phone_shape s = true -> matches PHONE_PATTERN s = true.
Proof.
  intros H. unfold phone_shape in H. shape_inv H. unfold PHONE_PATTERN.
  eapply matches_intro.
  apply Match_Bol_step. apply Match_chr_step.
  apply (@Match_exactly_step 3 is_digit [c0; c1; c2]);
    [reflexivity | simpl; rewrite F0, F1, F2; reflexivity |].
  apply Match_chr_step. apply Match_chr_step.
  apply (@Match_exactly_step 3 is_digit [c5; c6; c7]);
    [reflexivity | simpl; rewrite F5, F6, F7; reflexivity |].
  apply Match_chr_step.
  apply (@Match_exactly_step 4 is_digit [c9; c10; c11; c12]);
    [reflexivity | simpl; rewrite F9, F10, F11, F12; reflexivity |].
  apply Match_Eol_last.
Qed.

Lemma zip_shape_matches s :
  has_shape zip_shape s = true -> matches ZIP_PATTERN s = true.
Proof.
  intros H. unfold zip_shape in H. shape_inv H. unfold ZIP_PATTERN.
  eapply matches_intro.
  apply Match_Bol_step.
  apply (@Match_exactly_step 5 is_digit [c; c0; c1; c2; c3]);
    [reflexivity | simpl; rewrite F, F0, F1, F2, F3; reflexivity |].
  apply Match_Eol_last.
Qed.

Lemma license_token_matches tk :
  is_license_token tk -> matches LICENSE_PATTERN tk = true.
Proof.
  intros H. unfold LICENSE_PATTERN.
  apply (@matches_intro _ tk (Cursor (rev tk) [])
           [(1, (0, between (Cursor [] tk) (Cursor (rev tk) [])))]).
  apply Match_Bol_step.
  exists (Cursor (rev tk) []),
    [(1, (0, between (Cursor [] tk) (Cursor (rev tk) [])))].
  split; [|apply Match_Eol_last].
  exists []. split; [|reflexivity].
  apply Match_license_alternatives. exists tk. repeat split; auto.
  - simpl. symmetry. apply app_nil_r.
  - simpl. symmetry. apply app_nil_r.
Qed.

Lemma phone_fold lines : forall acc,
  acc = [] \/ has_shape phone_shape acc = true ->
  fold_left phone_step lines acc = []
  \/ has_shape phone_shape (fold_left phone_step lines acc) = true.
Proof.
  induction lines as [|l lines IH]; intros acc H; [exact H|].
  simpl. apply IH. unfold phone_step.
  destruct (negb (nonempty acc)); [|exact H].
  destruct (nonempty (extract_phone l)); [|exact H].
  apply extract_phone_shape.
Qed.

Lemma date_fold lines : forall acc,
  fst acc = [] \/ has_shape date_shape (fst acc) = true ->
  fst (fold_left date_step lines acc) = []
  \/ has_shape date_shape (fst (fold_left date_step lines acc)) = true.
Proof.
  induction lines as [|l lines IH]; intros acc H; [exact H|].
  simpl. apply IH. unfold date_step. destruct acc as [eff owner].
  destruct (negb (nonempty eff)); [|exact H].
  destruct (nonempty (extract_effective_date l)) eqn:E; [|exact H].
  destruct (re_match false (owner_re (extract_effective_date l)) l);
    apply extract_effective_date_shape.
Qed.

(** The three pattern fields of an assembled record. *)
Lemma parse_fields lines zip county d :
  let p := parse_provider_block lines zip county d in
  (License_Number p = [] \/ is_license_token (License_Number p))
  /\ (Phone p = [] \/ has_shape phone_shape (Phone p) = true)
  /\ (Effective_Date p = []
      \/ has_shape date_shape (Effective_Date p) = true).
Proof.
  unfold parse_provider_block. destruct lines as [|l conts]; [simpl; auto|].
  destruct (name_and_address l (extract_license_number l)).
  pose proof (@date_fold (l :: conts) ([], []) (or_introl eq_refl)) as Hd.
  destruct (fold_left date_step (l :: conts) ([], [])) as [eff owner].
  cbn [License_Number Phone Effective_Date]. simpl in Hd.
  split; [apply extract_license_number_cases|].
  split; [apply phone_fold; auto | exact Hd].
Qed.

Lemma context_step_zip ctx l :
  fst ctx = [] \/ has_shape zip_shape (fst ctx) = true ->
  fst (context_step ctx l) = []
  \/ has_shape zip_shape (fst (context_step ctx l)) = true.
Proof.
  intros H. unfold context_step. destruct (classify l) eqn:E; auto.
  apply classify_zip_header in E. destruct E as (m & E & -> & _).
  apply zip_header_shape in E.
  destruct E as (dg & w & a & w2 & _ & L & F & _ & _ & _ & _ & _ & -> & _).
  right. apply (@digits_shape 5); assumption.
Qed.

Lemma context_after_zip lines : forall ctx,
  fst ctx = [] \/ has_shape zip_shape (fst ctx) = true ->
  fst (context_after lines ctx) = []
  \/ has_shape zip_shape (fst (context_after lines ctx)) = true.
Proof.
  induction lines as [|l lines IH]; intros ctx H; [exact H|].
  rewrite context_after_cons. apply IH, context_step_zip, H.
Qed.

Lemma or_nonempty (P : Prop) (s : str) : s = [] \/ P -> s <> [] -> P.
Proof. intros [-> | H] N; [congruence | exact H]. Qed.

(** C8: in every record produced by the parser, a non-empty license
    number is one of the five prefixes followed by digits, a non-empty
    phone has the form (DDD) DDD-DDDD, a non-empty effective date has the
    form DD/DD/DDDD and a non-empty zip code is five digits; each of them
    is also accepted by the pattern the validator uses for it. *)
Theorem field_formats (pages : list (option str)) (download_date : str)
        (p : provider) :
  In p (extract_providers_from_pdf pages download_date) ->
  (License_Number p <> [] ->
   is_license_token (License_Number p)
   /\ matches LICENSE_PATTERN (License_Number p) = true)
  /\ (Phone p <> [] ->
      has_shape phone_shape (Phone p) = true
      /\ matches PHONE_PATTERN (Phone p) = true)
  /\ (Effective_Date p <> [] ->
      has_shape date_shape (Effective_Date p) = true
      /\ matches DATE_PATTERN (Effective_Date p) = true)
  /\ (Zip_Code p <> [] ->
      has_shape zip_shape (Zip_Code p) = true
      /\ matches ZIP_PATTERN (Zip_Code p) = true).
Proof.
  intros Hp.
  destruct (extract_state_blocks pages download_date) as (E & _ & _ & Hb).
  rewrite E in Hp. apply in_map_iff in Hp. destruct Hp as (b & <- & Hin).
  destruct (Hb b Hin) as (pre & post & _ & Hctx).
  unfold assemble.
  destruct (parse_fields (b_lines b) (b_zip b) (b_county b) download_date)
    as (HL & HP & HD).
  destruct (parse_context (b_lines b) (b_zip b) (b_county b) download_date)
    as (HZ & _).
  assert (HZok : b_zip b = [] \/ has_shape zip_shape (b_zip b) = true).
  { pose proof (@context_after_zip pre ([], []) (or_introl eq_refl)) as K.
    rewrite <- Hctx in K. exact K. }
  rewrite HZ.
  repeat split.
  - eapply or_nonempty; eauto.
  - apply license_token_matches. eapply or_nonempty; eauto.
  - eapply or_nonempty; eauto.
  - apply phone_shape_matches. eapply or_nonempty; eauto.
  - eapply or_nonempty; eauto.
  - apply date_shape_matches. eapply or_nonempty; eauto.
  - eapply or_nonempty; eauto.
  - apply zip_shape_matches. eapply or_nonempty; eauto.
Qed.

Lemma field_formats_witness :
  In sample_record (extract_providers_from_pdf sample_pdf sample_date)
  /\ is_license_token (License_Number sample_record)
  /\ has_shape phone_shape (Phone sample_record) = true
  /\ has_shape date_shape (Effective_Date sample_record) = true
  /\ has_shape zip_shape (Zip_Code sample_record) = true.
Proof.
  assert (H : In sample_record
                 (extract_providers_from_pdf sample_pdf sample_date))
    by (vm_compute; left; reflexivity).
  split; [exact H|].
  destruct (field_formats sample_pdf sample_date sample_record H)
    as (HL & HP & HD & HZ).
  split; [apply HL; discriminate|].
  split; [apply HP; discriminate|].
  split; [apply HD; discriminate | apply HZ; discriminate].
Defined.

(** * Name cleanup *)

Lemma lstrip_starts_clean s : starts_clean (lstrip s).
Proof.
  induction s as [|c s IH]; simpl; [exact I|].
  destruct (is_space c) eqn:E; [exact IH | exact E].
Qed.

Lemma lstrip_clean s : starts_clean s -> lstrip s = s.
Proof. destruct s as [|c s]; simpl; [reflexivity | intros ->; reflexivity]. Qed.

Lemma lstrip_snoc u c : is_space c = false -> lstrip (u ++ [c]) = lstrip u ++ [c].
Proof.
  intros Hc. induction u as [|x u IH]; simpl; [rewrite Hc; reflexivity|].
  destruct (is_space x); [exact IH | reflexivity].
Qed.

Lemma rstrip_ends_clean s : ends_clean (rstrip s).
Proof.
  unfold ends_clean, rstrip. rewrite rev_involutive. apply lstrip_starts_clean.
Qed.

Lemma rstrip_clean s : ends_clean s -> rstrip s = s.
Proof.
  unfold ends_clean, rstrip. intros H.
  rewrite lstrip_clean by exact H. apply rev_involutive.
Qed.

Lemma rstrip_starts_clean s : starts_clean s -> starts_clean (rstrip s).
Proof.
  destruct s as [|c s]; [intros _; exact I|]. simpl. intros Hc.
  unfold rstrip. simpl. rewrite lstrip_snoc by exact Hc.
  rewrite rev_app_distr. simpl. exact Hc.
Qed.

Lemma strip_clean s : starts_clean (strip s) /\ ends_clean (strip s).
Proof.
  unfold strip. split.
  - apply rstrip_starts_clean, lstrip_starts_clean.
  - apply rstrip_ends_clean.
Qed.

Lemma strip_fixed s : starts_clean s -> ends_clean s -> strip s = s.
Proof.
  intros H1 H2. unfold strip. rewrite lstrip_clean by exact H1.
  apply rstrip_clean, H2.
Qed.

Lemma strip_idempotent s : strip (strip s) = strip s.
Proof. apply strip_fixed; apply strip_clean. Qed.

Lemma lstrip_length s : length (lstrip s) <= length s.
Proof.
  induction s as [|c s IH]; simpl; [lia|]. destruct (is_space c); simpl; lia.
Qed.

Lemma strip_length s : length (strip s) <= length s.
Proof.
  unfold strip, rstrip. rewrite length_rev.
  pose proof (lstrip_length (rev (lstrip s))) as H1.
  pose proof (lstrip_length s) as H2. rewrite length_rev in H1. lia.
Qed.

Lemma re_sub_no_match ic r repl s :
  re_search ic r s = None -> re_sub ic r repl s = s.
Proof.
  unfold re_sub, re_search. intros H.
  replace (2 * length s + 2) with (S (2 * length s + 1)) by lia.
  cbn [sub_loop]. rewrite H. reflexivity.
Qed.

(** One round of the loop of [re.sub] with an empty replacement. *)
Lemma sub_loop_step ic r fuel adv p q m :
  search_from ic r adv p q = Some m ->
  exists a t,
    q = a ++ t ++ ahead (m_stop m)
    /\ Match ic r (Cursor (rev a ++ p) (t ++ ahead (m_stop m))) []
             (m_stop m) (m_caps m)
    /\ sub_loop (S fuel) ic r [] adv p q
       = a ++ sub_loop fuel ic r [] (m_end m =? m_start m)
                       (seen (m_stop m)) (ahead (m_stop m)).
Proof.
  intros H. simpl. rewrite H. apply search_from_sound in H.
  destruct H as (a & b & z' & c' & -> & HM & ->).
  destruct (Match_advance _ _ _ _ _ _ HM) as [t [A _]]. simpl in A. subst b.
  exists a, t. cbn [m_stop m_caps m_start app]. repeat split; auto.
  replace (length a + length p - length p) with (length a) by lia.
  rewrite firstn_app, Nat.sub_diag, firstn_all. simpl.
  rewrite app_nil_r. reflexivity.
Qed.

Lemma sub_loop_length ic r : forall fuel adv p q,
  length (sub_loop fuel ic r [] adv p q) <= length q.
Proof.
  induction fuel as [|fuel IH]; intros adv p q; [simpl; lia|].
  destruct (search_from ic r adv p q) as [m|] eqn:E.
  - destruct (@sub_loop_step ic r fuel adv p q m E) as (a & t & Eq & _ & ->).
    apply (f_equal (@length ascii)) in Eq. rewrite !length_app in *.
    specialize (IH (m_end m =? m_start m) (seen (m_stop m)) (ahead (m_stop m))).
    lia.
  - simpl. rewrite E. lia.
Qed.

Lemma re_sub_length ic r s : length (re_sub ic r [] s) <= length s.
Proof. apply sub_loop_length. Qed.

(** A pattern that cannot match the empty text and matches somewhere:
    the substitution makes the text shorter. *)
Lemma re_sub_shrinks ic r s m :
  consuming ic r -> re_search ic r s = Some m ->
  length (re_sub ic r [] s) < length s.
Proof.
  intros Hr H. unfold re_sub, re_search in *.
  replace (2 * length s + 2) with (S (2 * length s + 1)) by lia.
  destruct (@sub_loop_step ic r (2 * length s + 1) false [] s m H)
    as (a & t & Eq & HM & ->).
  assert (Ht : t <> []).
  { apply (Hr _ _ _ _ t HM). split; [reflexivity|].
    destruct (Match_advance _ _ _ _ _ _ HM) as [t' [A S]].
    simpl in A. apply app_inv_tail in A. subst t'. exact S. }
  pose proof (sub_loop_length ic r (2 * length s + 1)
                (m_end m =? m_start m) (seen (m_stop m)) (ahead (m_stop m))).
  apply (f_equal (@length ascii)) in Eq. rewrite !length_app in *.
  destruct t; [congruence | simpl in *; lia].
Qed.

(** What a substitution does: nothing, or it shortens the text. *)
Lemma re_sub_cases ic r s :
  consuming ic r ->
  (re_search ic r s = None /\ re_sub ic r [] s = s)
  \/ ((exists m, re_search ic r s = Some m)
      /\ length (re_sub ic r [] s) < length s).
Proof.
  intros Hr. destruct (re_search ic r s) as [m|] eqn:E.
  - right. split; [eauto | eapply re_sub_shrinks; eauto].
  - left. split; [reflexivity | apply re_sub_no_match, E].
Qed.

Lemma cls_space_ci c : cls_match true is_space c = is_space c.
Proof. destruct c as [[] [] [] [] [] [] [] []]; vm_compute; reflexivity. Qed.

Lemma forallb_cls_space ic t :
  forallb (cls_match ic is_space) t = forallb is_space t.
Proof.
  destruct ic; [|apply forallb_cls_match_cs].
  induction t as [|c t IH]; simpl; [|rewrite cls_space_ci, IH]; reflexivity.
Qed.

(** What the pattern [\s+W\s*$] goes over. *)
Lemma Match_trailing ic w z c z' c' :
  Match ic (trailing w) z c z' c' <->
  exists t1 t2 t3,
    t1 <> [] /\ forallb is_space t1 = true
    /\ Forall2 (fun p x => ch_match ic p x = true) (lit w) t2
    /\ forallb is_space t3 = true
    /\ advance z (t1 ++ t2 ++ t3) z' /\ at_eol z' = true /\ c' = c.
Proof.
  unfold trailing, tok, plus, star. cbn [Match]. split.
  - intros (z1 & c1 & (t1 & A1 & F1 & L1 & _ & ->) & z2 & c2 & (H2 & ->)
            & z3 & c3 & (t3 & A3 & F3 & _ & _ & ->) & (He & Ez & Ec)).
    subst z3 c'. apply lit_match_advance in H2. destruct H2 as (t2 & A2 & F2).
    rewrite forallb_cls_space in F1, F3.
    exists t1, t2, t3. repeat split; auto.
    + destruct t1; [simpl in L1; lia | discriminate].
    + apply (advance_trans A1 (advance_trans A2 A3)).
    + apply (advance_trans A1 (advance_trans A2 A3)).
  - intros (t1 & t2 & t3 & N1 & F1 & F2 & F3 & A & He & ->).
    destruct z as [p q], z' as [p' q']. destruct A as [A S].
    simpl in A, S. subst q p'.
    exists (Cursor (rev t1 ++ p) (t2 ++ t3 ++ q')), c. split.
    { exists t1. rewrite forallb_cls_space. repeat split; auto.
      - simpl. rewrite <- !app_assoc. reflexivity.
      - destruct t1; [congruence | simpl; lia]. }
    exists (Cursor (rev t2 ++ rev t1 ++ p) (t3 ++ q')), c. split.
    { split; [|reflexivity]. apply lit_match_intro; auto. }
    exists (Cursor (rev (t1 ++ t2 ++ t3) ++ p) q'), c. split.
    { exists t3. rewrite forallb_cls_space. repeat split; auto; try (simpl; lia).
      simpl. rewrite !rev_app_distr, <- !app_assoc. reflexivity. }
    auto.
Qed.

Lemma trailing_consuming ic w : consuming ic (trailing w).
Proof.
  intros z c z' c' t HM A. apply Match_trailing in HM.
  destruct HM as (t1 & t2 & t3 & N1 & _ & _ & _ & A' & _).
  rewrite (advance_unique A A'). destruct t1; [congruence | discriminate].
Qed.

Lemma ci_prefix_spec w : forall s rest,
  ci_prefix w s = Some rest <->
  exists t, s = t ++ rest /\ Forall2 (fun p x => ch_match true p x = true) w t.
Proof.
  induction w as [|p w IH]; intros s rest; simpl.
  - split.
    + intros H. inversion H. exists []. split; [reflexivity | constructor].
    + intros (t & -> & F). inversion F. reflexivity.
  - destruct s as [|x s].
    + split; [discriminate|]. intros (t & E & F). inversion F; subst.
      discriminate.
    + destruct (ch_match true p x) eqn:Ep.
      * rewrite IH. split.
        -- intros (t & -> & F). exists (x :: t). split; [reflexivity|].
           constructor; auto.
        -- intros (t & E & F). inversion F; subst. inversion E; subst. eauto.
      * split; [discriminate|]. intros (t & E & F). inversion F; subst.
        inversion E; subst. congruence.
Qed.

Lemma Forall2_rev_ci w t :
  Forall2 (fun p x => ch_match true p x = true) w t ->
  Forall2 (fun p x => ch_match true p x = true) (rev w) (rev t).
Proof.
  induction 1; simpl; [constructor|].
  apply Forall2_app; [assumption | constructor; [assumption | constructor]].
Qed.

(** The words of the specification for a trailing fragment. *)
Lemma ends_with_fragment_spec w y :
  ends_with_fragment w y = true <->
  exists pre sp t,
    y = pre ++ sp :: t /\ is_space sp = true
    /\ Forall2 (fun p x => ch_match true p x = true) w t.
Proof.
  unfold ends_with_fragment. split.
  - destruct (ci_prefix (rev w) (rev y)) as [[|sp rest]|] eqn:E;
      try discriminate.
    intros Hs. apply ci_prefix_spec in E. destruct E as (t & Ey & F).
    exists (rev rest), sp, (rev t). repeat split; auto.
    + apply (f_equal (@rev ascii)) in Ey. rewrite rev_involutive in Ey.
      rewrite Ey, rev_app_distr. simpl. rewrite <- app_assoc. reflexivity.
    + apply Forall2_rev_ci in F. rewrite rev_involutive in F. exact F.
  - intros (pre & sp & t & -> & Hs & F).
    rewrite rev_app_distr. simpl. rewrite <- app_assoc. simpl.
    apply Forall2_rev_ci in F.
    rewrite (proj2 (ci_prefix_spec (rev w) (rev t ++ sp :: rev pre)
                                   (sp :: rev pre))); eauto.
Qed.

Lemma ends_clean_tail u tail :
  ends_clean (u ++ tail) -> forallb is_space tail = true -> tail = [].
Proof.
  intros Hc Hs. destruct tail as [|x0 tail0] eqn:Et; [reflexivity|].
  rewrite <- Et in *. assert (N : tail <> []) by (rewrite Et; discriminate).
  destruct (exists_last N) as (l' & x & E). rewrite E in *.
  unfold ends_clean in Hc. rewrite !rev_app_distr in Hc. simpl in Hc.
  rewrite forallb_app in Hs. apply andb_true_iff in Hs. destruct Hs as [_ Hs].
  simpl in Hs. rewrite Hc in Hs. discriminate.
Qed.

(** On a text without white space at its end, a match of [\s+W\s*$] means
    that the text ends in white space and the word. *)
Lemma trailing_search_sound ic w y m :
  ends_clean y -> re_search ic (trailing w) y = Some m ->
  exists pre sp t,
    y = pre ++ sp :: t /\ is_space sp = true
    /\ Forall2 (fun p x => ch_match ic p x = true) (lit w) t.
Proof.
  intros Hc H. apply re_search_sound in H.
  destruct H as (a & b & z' & c' & -> & HM & _).
  apply Match_trailing in HM.
  destruct HM as (t1 & t2 & t3 & N1 & F1 & F2 & F3 & [A _] & He & _).
  simpl in A. subst b. apply at_eol_spaces in He.
  assert (T : t3 ++ ahead z' = []).
  { apply (@ends_clean_tail (a ++ t1 ++ t2)).
    - rewrite <- !app_assoc in *. exact Hc.
    - rewrite forallb_app, F3, He. reflexivity. }
  destruct (exists_last N1) as (l' & sp & E). subst t1.
  rewrite forallb_app in F1. apply andb_true_iff in F1. destruct F1 as [_ F1].
  simpl in F1. rewrite andb_true_r in F1.
  apply app_eq_nil in T. destruct T as [-> T]. rewrite T.
  exists (a ++ l'), sp, t2. repeat split; auto.
  rewrite !app_nil_r, <- !app_assoc. reflexivity.
Qed.

Lemma trailing_search_complete w y :
  ends_with_fragment (lit w) y = true ->
  exists m, re_search true (trailing w) y = Some m.
Proof.
  intros H. apply ends_with_fragment_spec in H.
  destruct H as (pre & sp & t & -> & Hs & F).
  apply (@re_search_complete true (trailing w) pre (sp :: t)
           (Cursor (rev ([sp] ++ t ++ []) ++ rev pre) []) []).
  apply Match_trailing. exists [sp], t, [].
  repeat split; auto; try discriminate.
  - simpl. rewrite Hs. reflexivity.
  - simpl. rewrite !app_nil_r. reflexivity.
Qed.

Lemma owned_by_upper t :
  Forall2 (fun p x => ch_match false p x = true) (lit "OWNED BY") t ->
  Forall2 (fun p x => ch_match true p x = true) (lit "owned by") t.
Proof.
  intros H. apply Forall2_ch_match_cs in H. subst t.
  repeat constructor.
Qed.

(** The four substitutions and the final [strip], one after the other. *)
Lemma clean_provider_name_length y :
  length (clean_provider_name y) <= length y.
Proof.
  unfold clean_provider_name.
  eapply Nat.le_trans; [apply strip_length|].
  eapply Nat.le_trans; [apply re_sub_length|].
  eapply Nat.le_trans; [apply re_sub_length|].
  eapply Nat.le_trans; [apply re_sub_length|].
  apply re_sub_length.
Qed.

Lemma fragment_is_removed y :
  has_trailing_fragment y = true ->
  length (clean_provider_name y) < length y.
Proof.
  unfold has_trailing_fragment, FRAGMENTS. cbn [existsb].
  rewrite orb_false_r. intros H.
  unfold clean_provider_name.
  eapply Nat.le_lt_trans; [apply strip_length|].
  destruct (@re_sub_cases true (trailing "owned by") y
              (@trailing_consuming true "owned by"%string))
    as [[N1 E1] | [_ L1]].
  2:{ eapply Nat.le_lt_trans; [apply re_sub_length|].
      eapply Nat.le_lt_trans; [apply re_sub_length|].
      eapply Nat.le_lt_trans; [apply re_sub_length|]. exact L1. }
  rewrite E1.
  destruct (@re_sub_cases false (trailing "OWNED BY") y
              (@trailing_consuming false "OWNED BY"%string))
    as [[N2 E2] | [_ L2]].
  2:{ eapply Nat.le_lt_trans; [apply re_sub_length|].
      eapply Nat.le_lt_trans; [apply re_sub_length|]. exact L2. }
  rewrite E2.
  destruct (@re_sub_cases true (trailing "owned") y
              (@trailing_consuming true "owned"%string))
    as [[N3 E3] | [_ L3]].
  2:{ eapply Nat.le_lt_trans; [apply re_sub_length|]. exact L3. }
  rewrite E3.
  destruct (@re_sub_cases true (trailing "ob") y
              (@trailing_consuming true "ob"%string))
    as [[N4 E4] | [_ L4]]; [|exact L4].
  exfalso.
  apply orb_true_iff in H. destruct H as [H | H].
  - apply trailing_search_complete in H. destruct H as [m H]. congruence.
  - apply orb_true_iff in H. destruct H as [H | H];
      apply trailing_search_complete in H; destruct H as [m H]; congruence.
Qed.

Lemma no_fragment_fixed y :
  starts_clean y -> ends_clean y -> has_trailing_fragment y = false ->
  clean_provider_name y = y.
Proof.
  unfold has_trailing_fragment, FRAGMENTS. cbn [existsb].
  rewrite orb_false_r. intros Hs He H.
  apply orb_false_iff in H. destruct H as [H1 H].
  apply orb_false_iff in H. destruct H as [H2 H3].
  assert (K : forall ic w w',
             ends_with_fragment (lit w') y = false ->
             (forall t, Forall2 (fun p x => ch_match ic p x = true) (lit w) t ->
                        Forall2 (fun p x => ch_match true p x = true) (lit w') t) ->
             re_sub ic (trailing w) [] y = y).
  { intros ic w w' Hf Hw. apply re_sub_no_match.
    destruct (re_search ic (trailing w) y) as [m|] eqn:E; [|reflexivity].
    apply trailing_search_sound in E; [|exact He].
    destruct E as (pre & sp & t & Ey & Hsp & F).
    rewrite (proj2 (ends_with_fragment_spec (lit w') y)) in Hf;
      [discriminate | eauto 7]. }
  unfold clean_provider_name.
  rewrite (K true "owned by"%string "owned by"%string H1) by auto.
  rewrite (K false "OWNED BY"%string "owned by"%string H1)
    by apply owned_by_upper.
  rewrite (K true "owned"%string "owned"%string H2) by auto.
  rewrite (K true "ob"%string "ob"%string H3) by auto.
  apply strip_fixed; assumption.
Qed.

(** C3 (as stated): cleanup is not idempotent.  From "Bright Start ob ob"
    the first pass removes one "ob" and the second pass the other. *)
Lemma cleanup_not_idempotent :
  clean_provider_name (clean_provider_name stacked_fragments)
  <> clean_provider_name stacked_fragments.
Proof. vm_compute. discriminate. Qed.

(** C3 (amended): cleaning a cleaned name again changes nothing exactly
    when the cleaned name does not itself end in white space followed by
    one of the fragments "owned by", "owned" or "ob" (in any letter
    case). *)
Theorem cleanup_idempotent_iff (x : str) :
  clean_provider_name (clean_provider_name x) = clean_provider_name x
  <-> has_trailing_fragment (clean_provider_name x) = false.
Proof.
  split.
  - intros H. destruct (has_trailing_fragment (clean_provider_name x)) eqn:E;
      [|reflexivity].
    apply fragment_is_removed in E. rewrite H in E. lia.
  - apply no_fragment_fixed; unfold clean_provider_name; apply strip_clean.
Qed.

Lemma cleanup_idempotent_iff_witness :
  has_trailing_fragment (clean_provider_name owned_by_name) = false
  /\ clean_provider_name (clean_provider_name owned_by_name)
     = clean_provider_name owned_by_name.
Proof.
  assert (H : has_trailing_fragment (clean_provider_name owned_by_name) = false)
    by (vm_compute; reflexivity).
  split; [exact H|].
  apply (proj2 (cleanup_idempotent_iff owned_by_name) H).
Defined.

(** * The validator *)


Lemma keeps_refl r : keeps r r.
Proof. repeat split; auto. Qed.

Lemma keeps_trans r1 r2 r3 : keeps r1 r2 -> keeps r2 r3 -> keeps r1 r3.
Proof.
  intros (P1 & E1 & V1) (P2 & E2 & V2). repeat split; auto.
Qed.

Lemma keeps_add_error m r : is_volume_error m = false -> keeps r (add_error m r).
Proof.
  intros Hm. repeat split; simpl; auto.
  - intros x Hx. apply in_or_app. auto.
  - intros x Hv Hx. apply in_app_or in Hx. destruct Hx as [Hx | [<- | []]]; auto.
    congruence.
Qed.

Lemma keeps_add_warning m r : keeps r (add_warning m r).
Proof. repeat split; simpl; auto. Qed.

Lemma keeps_set_stat key v r : keeps r (set_stat key v r).
Proof. repeat split; simpl; auto. Qed.

Lemma keeps_report_missing field missing total r :
  keeps r (report_missing field missing total r).
Proof.
  unfold report_missing. destruct (0 <? missing); [|apply keeps_refl].
  destruct (PrimFloat.ltb _ _);
    [apply keeps_add_error; reflexivity | apply keeps_add_warning].
Qed.

Lemma keeps_report_invalid_licenses bad r :
  keeps r (report_invalid_licenses bad r).
Proof.
  destruct bad as [|[i e] bad]; simpl;
    [apply keeps_refl | apply keeps_add_error; reflexivity].
Qed.

Lemma keeps_report_invalid_phones bad total r :
  keeps r (report_invalid_phones bad total r).
Proof.
  destruct bad as [|x bad]; simpl; [apply keeps_refl|].
  destruct (PrimFloat.ltb _ _);
    [apply keeps_add_error; reflexivity | apply keeps_add_warning].
Qed.

Lemma keeps_report_if_any bad m r :
  (forall n, is_volume_error (m n) = false) -> keeps r (report_if_any bad m r).
Proof.
  intros Hm. destruct bad; simpl; [apply keeps_refl | apply keeps_add_error; auto].
Qed.

Lemma keeps_quality_step t ip : keeps (t_result t) (t_result (quality_step t ip)).
Proof.
  destruct ip as [i p]. unfold quality_step.
  repeat match goal with
         | |- context [if ?c then _ else _] => destruct c
         end; cbn [t_result];
    first [apply keeps_refl | apply keeps_add_warning].
Qed.

Lemma keeps_quality_loop ips : forall t,
  keeps (t_result t) (t_result (fold_left quality_step ips t)).
Proof.
  induction ips as [|ip ips IH]; intros t; simpl; [apply keeps_refl|].
  eapply keeps_trans; [apply keeps_quality_step | apply IH].
Qed.

Lemma test_data_quality_keeps providers :
  keeps (if length providers <? MIN_EXPECTED_PROVIDERS
         then add_error (Too_few_providers (length providers)
                                           MIN_EXPECTED_PROVIDERS) new_result
         else new_result)
        (test_data_quality providers).
Proof.
  unfold test_data_quality.
  repeat (eapply keeps_trans; [|apply keeps_set_stat]).
  eapply keeps_trans; [|apply keeps_report_if_any; reflexivity].
  eapply keeps_trans; [|apply keeps_report_if_any; reflexivity].
  eapply keeps_trans; [|apply keeps_report_invalid_phones].
  eapply keeps_trans; [|apply keeps_report_invalid_licenses].
  eapply keeps_trans; [|apply keeps_report_missing].
  eapply keeps_trans; [|apply keeps_report_missing].
  eapply keeps_trans; [|apply keeps_quality_loop].
  simpl. apply keeps_set_stat.
Qed.

(** C9 (amended): the validator reports the volume error exactly when the
    number of records is below [MIN_EXPECTED_PROVIDERS] = 100; in that case
    the result of [test_data_quality] and the overall result of
    [run_all_tests] are failures.  In particular a set of 5 records fails
    with the volume error in its error list. *)
Theorem volume_error_below_minimum (providers : list provider) :
  (In (Too_few_providers (length providers) MIN_EXPECTED_PROVIDERS)
      (errors (test_data_quality providers))
   <-> length providers < MIN_EXPECTED_PROVIDERS)
  /\ (length providers < MIN_EXPECTED_PROVIDERS ->
      passed (test_data_quality providers) = false
      /\ forall pdf parse_func download_date,
           fst (run_all_tests pdf providers parse_func download_date) = false)
  /\ (length providers = 5 ->
      passed (test_data_quality providers) = false
      /\ In (Too_few_providers 5 100) (errors (test_data_quality providers))).
Proof.
  pose proof (test_data_quality_keeps providers) as (HP & HE & HV).
  assert (Hlt : length providers < MIN_EXPECTED_PROVIDERS ->
                passed (test_data_quality providers) = false
                /\ In (Too_few_providers (length providers)
                                         MIN_EXPECTED_PROVIDERS)
                      (errors (test_data_quality providers))).
  { intros Hlt. apply Nat.ltb_lt in Hlt. rewrite Hlt in HP, HE.
    split; [apply HP; reflexivity | apply HE; simpl; auto]. }
  split; [split|split].
  - intros Hin. destruct (Nat.ltb_spec (length providers) MIN_EXPECTED_PROVIDERS)
      as [Hlt' | Hge]; [exact Hlt'|].
    apply HV in Hin; [destruct Hin | reflexivity].
  - intros H. apply Hlt, H.
  - intros H. destruct (Hlt H) as [Hp Hin]. split; [exact Hp|].
    intros pdf parse_func d. unfold run_all_tests. cbn [fst passed errors new_result app].
    apply Nat.eqb_neq. intros Hz. apply length_zero_iff_nil in Hz.
    destruct parse_func; cbn [errors] in Hz.
    + apply app_eq_nil in Hz. destruct Hz as [Hz _].
      apply app_eq_nil in Hz. destruct Hz as [Hz _].
      rewrite Hz in Hin. destruct Hin.
    + apply app_eq_nil in Hz. destruct Hz as [Hz _].
      rewrite Hz in Hin. destruct Hin.
  - intros H5. assert (H : length providers < MIN_EXPECTED_PROVIDERS)
      by (rewrite H5; unfold MIN_EXPECTED_PROVIDERS; lia).
    destruct (Hlt H) as [Hp Hin]. rewrite H5 in Hin. auto.
Qed.

Lemma volume_error_below_minimum_witness :
  length (repeat sample_provider 5) = 5
  /\ passed (test_data_quality (repeat sample_provider 5)) = false
  /\ In (Too_few_providers 5 100)
        (errors (test_data_quality (repeat sample_provider 5))).
Proof.
  split; [reflexivity|].
  apply (proj2 (proj2 (volume_error_below_minimum (repeat sample_provider 5)))).
  reflexivity.
Defined.

(** C9 (as stated): a set of exactly 100 records does not exceed the floor
    of 100, yet the validator passes it and reports no error. *)
Lemma hundred_providers_pass :
  length (repeat sample_provider 100) <= MIN_EXPECTED_PROVIDERS
  /\ passed (test_data_quality (repeat sample_provider 100)) = true
  /\ errors (test_data_quality (repeat sample_provider 100)) = []
  /\ fst (run_all_tests [] (repeat sample_provider 100) None []) = true.
Proof. vm_compute. repeat split; auto. Qed.

(** * Further properties of the code *)

(** ** Lines of a page *)

Lemma split_aux_chars sep s : forall skip cur piece x,
  In piece (split_aux sep skip cur s) -> In x piece -> In x cur \/ In x s.
Proof.
  induction s as [|y s IH]; intros skip cur piece x Hp Hx; simpl in Hp.
  - destruct Hp as [<- | []]. left. apply in_rev. exact Hx.
  - destruct skip as [|n].
    + destruct (startswith sep (y :: s)).
      * destruct Hp as [<- | Hp].
        -- left. apply in_rev. exact Hx.
        -- destruct (IH _ _ _ _ Hp Hx) as [[] | H]. right. right. exact H.
      * destruct (IH _ _ _ _ Hp Hx) as [[<- | H] | H]; simpl; auto.
    + destruct (IH _ _ _ _ Hp Hx) as [H | H]; simpl; auto.
Qed.

Lemma split_chars sep s piece x :
  In piece (split sep s) -> In x piece -> In x s.
Proof.
  intros Hp Hx. destruct (split_aux_chars _ _ _ _ _ x Hp Hx) as [[] | H].
  exact H.
Qed.

(** Splitting at a single character leaves that character in no piece. *)
Lemma split_aux_char c s : forall cur piece,
  ~ In c cur -> In piece (split_aux [c] 0 cur s) -> ~ In c piece.
Proof.
  induction s as [|y s IH]; intros cur piece Hc Hp; simpl in Hp.
  - destruct Hp as [<- | []]. intros H. apply Hc, in_rev, H.
  - destruct (ch_eqb c y) eqn:E; simpl in Hp.
    + destruct Hp as [<- | Hp].
      * intros H. apply Hc, in_rev, H.
      * apply (IH [] piece); auto.
    + apply (IH (y :: cur) piece); auto.
      intros [-> | H]; [|auto]. rewrite ch_eqb_refl in E. discriminate.
Qed.

Lemma lstrip_incl s x : In x (lstrip s) -> In x s.
Proof.
  induction s as [|c s IH]; simpl; [auto|].
  destruct (is_space c); simpl; auto.
Qed.

Lemma strip_incl s x : In x (strip s) -> In x s.
Proof.
  unfold strip, rstrip. intros H. apply in_rev in H.
  apply lstrip_incl in H. apply in_rev in H. apply lstrip_incl, H.
Qed.

Lemma lstrip_spaces s : forallb is_space s = true -> lstrip s = [].
Proof.
  induction s as [|c s IH]; simpl; [reflexivity|].
  intros H. apply andb_true_iff in H. destruct H as [-> H]. auto.
Qed.

Lemma strip_spaces s : forallb is_space s = true -> strip s = [].
Proof. intros H. unfold strip. rewrite lstrip_spaces; auto. Qed.

(** X1: every line the page loop works on ([l.strip()] for the pieces of
    [text.split('\n')], empty ones dropped) is non-empty, has no white
    space at either end, holds no newline, and is the stripped form of a
    piece of the page text. *)
Theorem text_lines_are_trimmed (text l : str) :
  In l (text_lines text) ->
  l <> [] /\ starts_clean l /\ ends_clean l /\ ~ In nl l
  /\ exists raw, In raw (split newline text) /\ l = strip raw.
Proof.
  unfold text_lines. intros H. apply in_map_iff in H.
  destruct H as (raw & <- & H). apply filter_In in H. destruct H as [Hr Hn].
  split; [destruct (strip raw); [discriminate | discriminate]|].
  split; [apply strip_clean|]. split; [apply strip_clean|].
  split; [|eauto].
  intros Hx. apply strip_incl in Hx.
  apply (@split_aux_char nl text [] raw); auto.
Qed.

Lemma text_lines_blank text : forallb is_space text = true -> text_lines text = [].
Proof.
  intros H. unfold text_lines.
  assert (F : filter (fun l => nonempty (strip l)) (split newline text) = []).
  { apply filter_none.
    intros piece Hp. rewrite strip_spaces; [reflexivity|].
    apply forallb_forall. intros x Hx.
    rewrite forallb_forall in H. apply H.
    eapply split_chars; eauto. }
  rewrite F. reflexivity.
Qed.

Lemma text_lines_are_trimmed_witness :
  In sunny_start_line (page_lines sample_page)
  /\ sunny_start_line <> [] /\ ~ In nl sunny_start_line.
Proof.
  assert (H : In sunny_start_line (text_lines
                match sample_page with Some t => t | None => [] end))
    by (vm_compute; right; right; left; reflexivity).
  split; [exact H|].
  destruct (text_lines_are_trimmed _ _ H) as (H1 & _ & _ & H2 & _).
  split; assumption.
Defined.

(** ** Pages without text *)

Lemma scan_page_blank d st page : blank_page page = true -> scan_page d st page = st.
Proof.
  intros H. rewrite scan_page_run. destruct page as [text|]; [|reflexivity].
  simpl in *. rewrite text_lines_blank by exact H. reflexivity.
Qed.

(** X2: a page whose text is missing, empty or white space only
    contributes nothing: removing such a page from the document, anywhere
    after the first page, changes nothing in the final state of
    [extract_providers_from_pdf] (records, zip code and county). *)
Theorem blank_pages_are_transparent (download_date : str)
        (first page : option str) (before after : list (option str)) :
  blank_page page = true ->
  extract_state (first :: before ++ page :: after) download_date
  = extract_state (first :: before ++ after) download_date.
Proof.
  intros H. unfold extract_state. cbn [tl].
  rewrite !fold_left_app. cbn [fold_left].
  rewrite scan_page_blank by exact H. reflexivity.
Qed.

Lemma blank_pages_are_transparent_witness :
  blank_page white_page = true
  /\ extract_state (None :: [propagation_page] ++ white_page :: [sample_page])
                   sample_date
     = extract_state (None :: [propagation_page] ++ [sample_page]) sample_date.
Proof.
  assert (H : blank_page white_page = true) by (vm_compute; reflexivity).
  split; [exact H|].
  apply (@blank_pages_are_transparent sample_date None white_page
           [propagation_page] [sample_page] H).
Defined.

(** ** Zip-county headers *)

Lemma zip_header_not_total l m :
  is_zip_header l = Some m -> is_total_line l = false.
Proof.
  intros H. apply zip_header_shape in H.
  destruct H as (d & w & a & w2 & -> & L & F & _).
  destruct d as [|c d]; [discriminate L|].
  simpl in F. apply andb_true_iff in F. destruct F as [Fc _].
  destruct (is_total_line ((c :: d) ++ w ++ a ++ w2)) eqn:E; [|reflexivity].
  unfold is_total_line in E. apply startswith_spec in E. destruct E as [b E].
  inversion E; subst. discriminate Fc.
Qed.

(** X3: a line that [is_zip_header] accepts holds none of the header
    markers, does not begin with the total prefix and is no record-start
    line, so the order of the tests in the page loop does not matter for
    it: it sets the zip code and the county to its two groups. *)
Theorem zip_header_is_exclusive (l : str) (m : found) :
  is_zip_header l = Some m ->
  is_header_line l = false
  /\ is_total_line l = false
  /\ is_provider_start_line l = false
  /\ classify l = Zip_header (grp 1 m) (grp 2 m).
Proof.
  intros H.
  split; [eapply zip_header_not_header_line; eauto|].
  split; [eapply zip_header_not_total; eauto|].
  split.
  - destruct (is_provider_start_line l) eqn:E; [|reflexivity].
    apply start_line_not_zip_header in E. congruence.
  - apply classify_zip_header. eauto.
Qed.

Lemma zip_header_is_exclusive_witness :
  (exists m, is_zip_header washington_header = Some m)
  /\ is_header_line washington_header = false
  /\ is_total_line washington_header = false
  /\ is_provider_start_line washington_header = false.
Proof.
  destruct (is_zip_header washington_header) as [m|] eqn:E;
    [|vm_compute in E; discriminate E].
  split; [eauto|].
  destruct (zip_header_is_exclusive washington_header E) as (H1 & H2 & H3 & _).
  auto.
Defined.

Lemma span_unique (f : ascii -> bool) u : forall v x y,
  forallb f u = true -> forallb f v = true -> u ++ x = v ++ y ->
  not_head f x -> not_head f y -> u = v /\ x = y.
Proof.
  induction u as [|c u IH]; intros v x y Fu Fv E Hx Hy.
  - destruct v as [|c v]; [auto|]. simpl in E. subst x. simpl in Hx, Fv.
    rewrite Hx in Fv. discriminate.
  - destruct v as [|c' v].
    + simpl in E. subst y. simpl in Hy, Fu. rewrite Hy in Fu. discriminate.
    + simpl in E, Fu, Fv. inversion E; subst.
      apply andb_true_iff in Fu. apply andb_true_iff in Fv.
      destruct (IH v x y) as [-> ->]; tauto.
Qed.

Lemma app_same_length {A : Type} (a : list A) : forall a' b b',
  length a = length a' -> a ++ b = a' ++ b' -> a = a' /\ b = b'.
Proof.
  induction a as [|x a IH]; intros [|x' a'] b b' L E; try discriminate L.
  - auto.
  - simpl in *. inversion E; subst. destruct (IH a' b b') as [-> ->]; auto.
Qed.

Lemma alpha_not_space c : is_alpha c = true -> is_space c = false.
Proof.
  intros H. destruct (is_space c) eqn:E; [|reflexivity].
  rewrite (space_not_alpha _ E) in H. discriminate.
Qed.

(** X4: [is_zip_header] accepts exactly the lines made of five digits,
    white space, a non-empty run of ASCII letters and optional white
    space; for such a line group 1 is the five digits and group 2 the
    letters. *)
Theorem is_zip_header_accepts (l : str) :
  ((exists m, is_zip_header l = Some m) <->
   exists d w a w2,
     l = d ++ w ++ a ++ w2
     /\ length d = 5 /\ forallb is_digit d = true
     /\ w <> [] /\ forallb is_space w = true
     /\ a <> [] /\ forallb is_alpha a = true
     /\ forallb is_space w2 = true)
  /\ (forall m d w a w2,
         is_zip_header l = Some m ->
         l = d ++ w ++ a ++ w2 ->
         length d = 5 -> forallb is_space w = true ->
         a <> [] -> forallb is_alpha a = true ->
         forallb is_space w2 = true ->
         grp 1 m = d /\ grp 2 m = a).
Proof.
  split; [split|].
  - intros [m H]. apply zip_header_shape in H.
    destruct H as (d & w & a & w2 & H). exists d, w, a, w2. tauto.
  - intros (d & w & a & w2 & -> & Ld & Fd & Nw & Fw & Na & Fa & Fw2).
    unfold is_zip_header, re_match.
    apply (@match_at_complete false zip_header_re _
             (Cursor (rev w2 ++ rev a ++ rev w ++ rev d) [])
             [(2, (length (rev w ++ rev d), a)); (1, (0, d))]).
    unfold zip_header_re. apply Match_Bol_step.
    exists (Cursor (rev d) (w ++ a ++ w2)), [(1, (0, d))]. split.
    { exists []. split.
      - apply Match_exactly. exists d. repeat split; auto. simpl.
        symmetry. apply app_nil_r.
      - unfold offset. simpl. f_equal. f_equal. f_equal. symmetry.
        apply between_advance.
        split; simpl; [reflexivity | symmetry; apply app_nil_r]. }
    exists (Cursor (rev w ++ rev d) (a ++ w2)), [(1, (0, d))]. split.
    { exists w. rewrite forallb_cls_match_cs. repeat split; auto.
      destruct w; [congruence | simpl; lia]. }
    exists (Cursor (rev a ++ rev w ++ rev d) w2),
      [(2, (length (rev w ++ rev d), a)); (1, (0, d))]. split.
    { exists [(1, (0, d))]. split.
      - exists a. rewrite forallb_cls_match_cs. repeat split; auto.
        destruct a; [congruence | simpl; lia].
      - unfold offset. simpl. f_equal. f_equal. f_equal. symmetry.
        apply between_advance. split; reflexivity. }
    exists (Cursor (rev w2 ++ rev a ++ rev w ++ rev d) []),
      [(2, (length (rev w ++ rev d), a)); (1, (0, d))]. split.
    { exists w2. rewrite forallb_cls_match_cs. repeat split; auto.
      - simpl. symmetry. apply app_nil_r.
      - simpl. lia. }
    simpl. auto.
  - intros m d w a w2 H El Ld Fw Na Fa Fw2. apply zip_header_shape in H.
    destruct H as (d' & w' & a' & w2' & El' & Ld' & _ & _ & Fw' & Na' & Fa'
                   & Fw2' & -> & ->).
    rewrite El in El'.
    assert (Ed : d = d' /\ w ++ a ++ w2 = w' ++ a' ++ w2').
    { apply app_same_length; [congruence | exact El']. }
    destruct Ed as [<- E]. split; [reflexivity|].
    apply span_unique with (f := is_space) in E; auto.
    + destruct E as [_ E].
      apply span_unique with (f := is_alpha) in E; auto.
      * destruct E as [E _]. symmetry. exact E.
      * destruct w2 as [|c ?]; simpl; auto. simpl in Fw2.
        apply andb_true_iff in Fw2. apply space_not_alpha. tauto.
      * destruct w2' as [|c ?]; simpl; auto. simpl in Fw2'.
        apply andb_true_iff in Fw2'. apply space_not_alpha. tauto.
    + destruct a as [|c ?]; [congruence|]. simpl. simpl in Fa.
      apply andb_true_iff in Fa. apply alpha_not_space. tauto.
    + destruct a' as [|c ?]; [congruence|]. simpl. simpl in Fa'.
      apply andb_true_iff in Fa'. apply alpha_not_space. tauto.
Qed.

Lemma is_zip_header_accepts_witness :
  exists m, is_zip_header washington_header = Some m
            /\ grp 1 m = lit "68002" /\ grp 2 m = lit "Washington".
Proof.
  destruct (proj2 (proj1 (is_zip_header_accepts washington_header)))
    as [m E].
  { exists (lit "68002"), (lit " "), (lit "Washington"), [].
    repeat split; try reflexivity; discriminate. }
  exists m. split; [exact E|].
  apply (proj2 (is_zip_header_accepts washington_header) m
               (lit "68002") (lit " ") (lit "Washington") [] E);
    try reflexivity; discriminate.
Defined.

(** ** Blocks *)

(** On continuation lines the inner loop takes lines until it has ten. *)
Lemma collect_continuations conts : forall acc n,
  continuations conts = true ->
  collect acc n conts = (acc ++ firstn (10 - n) conts, skipn (10 - n) conts).
Proof.
  induction conts as [|l conts IH]; intros acc n H.
  - simpl. rewrite firstn_nil, skipn_nil, app_nil_r. reflexivity.
  - simpl in H. apply andb_true_iff in H. destruct H as [Hl H].
    apply negb_true_iff in Hl. destruct (stops_false l Hl) as (H1 & H2 & H3 & H4).
    cbn [collect]. destruct (Nat.ltb_spec n 10) as [Hn | Hn].
    + rewrite H1, H2, H3, H4, IH by exact H.
      replace (10 - n) with (S (10 - (n + 1))) by lia.
      simpl. rewrite <- app_assoc. reflexivity.
    + replace (10 - n) with 0 by lia. simpl. rewrite app_nil_r. reflexivity.
Qed.

(** X5: a record-start line followed by continuation lines only (no
    record start, zip header, total line or header marker) gives one block:
    the start line and at most the first nine of the lines that follow.
    The same block is cut when a stopping line follows, and the scan goes
    on from that stopping line. *)
Theorem block_is_capped (download_date A : str) (conts : list str)
        (st : pstate) :
  classify A = Record_start ->
  continuations conts = true ->
  run download_date (A :: conts) st
  = emit download_date (A :: firstn 9 conts) st
  /\ forall B rest,
       stops B = true ->
       run download_date (A :: conts ++ B :: rest) st
       = run download_date (B :: rest)
             (emit download_date (A :: firstn 9 conts) st).
Proof.
  intros HA Hc.
  assert (Hk : continuations (skipn 9 conts) = true).
  { unfold continuations in *. rewrite <- (firstn_skipn 9 conts) in Hc.
    rewrite forallb_app in Hc. apply andb_true_iff in Hc. tauto. }
  split.
  - rewrite run_cons, HA, collect_continuations by exact Hc.
    cbn [fst snd app Nat.sub]. apply run_continuations, Hk.
  - intros B rest HB. rewrite run_cons, HA.
    rewrite (@collect_app_stop B rest HB), collect_continuations by exact Hc.
    cbn [fst snd app Nat.sub].
    rewrite (@run_app_stop download_date B rest HB).
    rewrite (@run_continuations download_date (skipn 9 conts)) by exact Hk.
    reflexivity.
Qed.

Lemma block_is_capped_witness :
  classify sunny_start_line = Record_start
  /\ continuations twelve_lines = true
  /\ run sample_date (sunny_start_line :: twelve_lines) initial_state
     = emit sample_date (sunny_start_line :: firstn 9 twelve_lines)
            initial_state.
Proof.
  assert (H1 : classify sunny_start_line = Record_start)
    by (vm_compute; reflexivity).
  assert (H2 : continuations twelve_lines = true) by (vm_compute; reflexivity).
  repeat (split; [assumption|]).
  apply (proj1 (@block_is_capped sample_date sunny_start_line twelve_lines
                  initial_state H1 H2)).
Defined.

(** X6: every block handed to [parse_provider_block] lies in the lines
    of one page after the first: it is a record-start line and the
    continuation lines that directly follow it, at most nine, and it ends
    at the end of the page, at the tenth line or in front of a stopping
    line.  No block goes over a page break. *)
Theorem blocks_lie_in_pages (pages : list (option str)) (download_date : str)
        (b : block) :
  In b (blocks_of_pdf pages download_date) ->
  exists page, In page (tl pages) /\ block_in_lines b (page_lines page).
Proof.
  unfold blocks_of_pdf, extract_state.
  destruct (pages_blocks_shape download_date (tl pages) initial_state)
    as (bs & E & _ & H).
  rewrite E. simpl. apply H.
Qed.

Lemma blocks_lie_in_pages_witness :
  In sample_block (blocks_of_pdf sample_pdf sample_date)
  /\ exists page, In page (tl sample_pdf)
                  /\ block_in_lines sample_block (page_lines page).
Proof.
  assert (H : In sample_block (blocks_of_pdf sample_pdf sample_date))
    by (vm_compute; right; left; reflexivity).
  split; [exact H|].
  apply (@blocks_lie_in_pages sample_pdf sample_date sample_block H).
Defined.

(** A record started by a record-start line carries a license number. *)
Lemma start_line_license_token d f conts zip county :
  is_provider_start_line f = true ->
  is_license_token
    (License_Number (parse_provider_block (f :: conts) zip county d)).
Proof.
  intros Hf.
  destruct (parse_fields (f :: conts) zip county d) as ([HL | HL] & _);
    [|exact HL].
  exfalso.
  assert (K : nonempty (extract_license_number f) = true)
    by (apply start_line_has_license, Hf).
  unfold parse_provider_block in HL.
  destruct (name_and_address f (extract_license_number f)).
  destruct (fold_left date_step (f :: conts) ([], [])).
  cbn [License_Number] in HL. rewrite HL in K. discriminate.
Qed.

(** X7: the records of [extract_providers_from_pdf] are the assembled
    blocks, in order; there are as many records as pages 2 onward hold
    lines that the page loop takes for a record start (none is dropped by
    the name-or-license test), and the license number of every record is a
    license token. *)
Theorem one_record_per_start_line (pages : list (option str))
        (download_date : str) :
  extract_providers_from_pdf pages download_date
  = map (assemble download_date) (blocks_of_pdf pages download_date)
  /\ length (extract_providers_from_pdf pages download_date)
     = count_record_starts (line_stream pages)
  /\ forall p, In p (extract_providers_from_pdf pages download_date) ->
               is_license_token (License_Number p).
Proof.
  destruct (extract_state_blocks pages download_date) as (E & _).
  split; [exact E|]. split.
  - rewrite E, length_map. unfold blocks_of_pdf, extract_state, line_stream.
    destruct (pages_blocks_shape download_date (tl pages) initial_state)
      as (bs & Eh & El & _).
    rewrite Eh. simpl. exact El.
  - intros p Hp. rewrite E in Hp. apply in_map_iff in Hp.
    destruct Hp as (b & Ep & Hb). subst p.
    unfold blocks_of_pdf, extract_state in Hb.
    destruct (pages_blocks_shape download_date (tl pages) initial_state)
      as (bs & Eh & _ & Hs).
    rewrite Eh in Hb. simpl in Hb.
    destruct (Hs b Hb) as (pg & _ & pre & f & conts & post & _ & Eb & Hf & _).
    unfold assemble. rewrite Eb.
    apply start_line_license_token, classify_record_start, Hf.
Qed.

(** ** The fields of a record *)

Lemma is_YN_cases x : is_YN x = true -> [x] = lit "Y" \/ [x] = lit "N".
Proof.
  unfold is_YN. intros H. apply orb_true_iff in H.
  destruct H as [H | H]; apply ch_eqb_eq in H; subst; auto.
Qed.

(** An optional group of one character [Y] or [N]. *)
Lemma Match_opt_yn z z' c' m0 :
  Match false (Opt (Grp 1 (Cls is_YN))) z [] z' c' ->
  yn_value (grp 1 (Found m0 z' c')).
Proof.
  intros [H | [_ ->]]; [|left; reflexivity].
  destruct H as (k & (x & q & Ha & Hx & -> & ->) & ->).
  rewrite cls_match_cs in Hx.
  unfold grp, group_text. cbn [m_caps group Nat.eqb option_map snd].
  rewrite (between_advance (advance_one z Ha)).
  right. apply is_YN_cases, Hx.
Qed.

Lemma extract_yn_value_cases line prefix :
  yn_value (extract_yn_value line prefix).
Proof.
  unfold extract_yn_value. destruct (str_in prefix line); [|left; reflexivity].
  destruct (re_search false (yn_re prefix) line) as [m|] eqn:E;
    [|left; reflexivity].
  apply re_search_sound in E. destruct E as (a & b & z' & c' & _ & HM & ->).
  unfold yn_re, star in HM.
  destruct HM as (z1 & c1 & H1 & z2 & c2 & H2 & H3).
  apply Match_Lit_cs in H1. destruct H1 as [_ ->].
  apply Match_Rep_cs in H2. destruct H2 as (t & _ & _ & _ & _ & ->).
  eapply Match_opt_yn, H3.
Qed.

Lemma extract_accredited_cases line : yn_value (extract_accredited line).
Proof.
  unfold extract_accredited.
  destruct (re_search false accredited_re line) as [m|] eqn:E;
    [|left; reflexivity].
  apply re_search_sound in E. destruct E as (a & b & z' & c' & _ & HM & ->).
  unfold accredited_re, star, tok in HM.
  destruct HM as (z1 & c1 & H1 & z2 & c2 & H2 & H3).
  apply Match_Lit_cs in H1. destruct H1 as [_ ->].
  apply Match_Rep_cs in H2. destruct H2 as (t & _ & _ & _ & _ & ->).
  eapply Match_opt_yn, H3.
Qed.

Lemma extract_step_up_quality_digits line :
  forallb is_digit (extract_step_up_quality line) = true.
Proof.
  unfold extract_step_up_quality.
  destruct (re_search false step_up_re line) as [m|] eqn:E; [|reflexivity].
  apply re_search_sound in E. destruct E as (a & b & z' & c' & _ & HM & ->).
  unfold step_up_re, star, plus, tok in HM.
  destruct HM as (z1 & c1 & H1 & z2 & c2 & H2 & H3).
  apply Match_Lit_cs in H1. destruct H1 as [_ ->].
  apply Match_Rep_cs in H2. destruct H2 as (t & _ & _ & _ & _ & ->).
  destruct H3 as [H | [_ ->]]; [|reflexivity].
  destruct H as (k & H & ->). apply Match_Rep_cs in H.
  destruct H as (g & A & F & _ & _ & ->).
  unfold grp, group_text. cbn [m_caps group Nat.eqb option_map snd].
  rewrite (between_advance A). exact F.
Qed.

Lemma extract_capacity_digits line :
  forallb is_digit (extract_capacity line) = true.
Proof.
  unfold extract_capacity.
  destruct (re_search false capacity_re line) as [m|] eqn:E; [|reflexivity].
  apply re_search_sound in E. destruct E as (a & b & z' & c' & _ & HM & ->).
  unfold capacity_re, star, plus, tok in HM.
  destruct HM as (z1 & c1 & H1 & z2 & c2 & H2 & k & H & ->).
  apply Match_Rep_cs in H. destruct H as (g & A & F & _ & _ & _).
  unfold grp, group_text. cbn [m_caps group Nat.eqb option_map snd].
  rewrite (between_advance A). exact F.
Qed.

Lemma extract_days_upper line : forallb is_upper (extract_days line) = true.
Proof.
  unfold extract_days.
  destruct (re_search false days_re line) as [m|] eqn:E; [|reflexivity].
  apply re_search_sound in E. destruct E as (a & b & z' & c' & _ & HM & ->).
  unfold days_re, star, plus, tok in HM.
  destruct HM as (z1 & c1 & H1 & z2 & c2 & H2 & k & H & ->).
  apply Match_Rep_cs in H. destruct H as (g & A & F & _ & _ & _).
  unfold grp, group_text. cbn [m_caps group Nat.eqb option_map snd].
  rewrite (between_advance A). exact F.
Qed.

(** Hours read by [extract_hours] have the form [DDDD To DDDD]. *)
Lemma extract_hours_shape line :
  extract_hours line = [] \/ has_shape hours_shape (extract_hours line) = true.
Proof.
  unfold extract_hours.
  destruct (re_search false hours_re line) as [m|] eqn:E;
    [right | left; reflexivity].
  apply re_search_sound in E. destruct E as (a & b & z' & c' & _ & HM & ->).
  unfold hours_re, star, tok in HM.
  destruct HM as (z1 & c1 & H1 & z2 & c2 & H2 & z3 & c3 & H3 & z4 & c4 & H4
                  & z5 & c5 & H5 & z6 & c6 & H6 & H7).
  apply Match_Lit_cs in H1. destruct H1 as [_ ->].
  apply Match_Rep_cs in H2. destruct H2 as (t2 & _ & _ & _ & _ & ->).
  destruct H3 as (k3 & H3 & ->). apply Match_exactly in H3.
  destruct H3 as (g1 & A1 & F1 & L1 & ->).
  apply Match_Rep_cs in H4. destruct H4 as (t4 & _ & _ & _ & _ & ->).
  apply Match_Lit_cs in H5. destruct H5 as [_ ->].
  apply Match_Rep_cs in H6. destruct H6 as (t6 & _ & _ & _ & _ & ->).
  destruct H7 as (k7 & H7 & ->). apply Match_exactly in H7.
  destruct H7 as (g2 & A2 & F2 & L2 & ->).
  unfold grp, group_text. cbn [m_caps group Nat.eqb option_map snd].
  rewrite (between_advance A1), (between_advance A2).
  change hours_shape with
    (repeat is_digit 4 ++ map ch_eqb (lit " To ") ++ repeat is_digit 4).
  repeat (apply has_shape_app);
    try apply has_shape_lit; apply digits_shape; assumption.
Qed.

Lemma Match_tok_step (s : string) r p q c z' c' :
  Match false r (Cursor (rev (lit s) ++ p) q) c z' c' ->
  Match false (tok s ;; r) (Cursor p (lit s ++ q)) c z' c'.
Proof.
  intros H. exists (Cursor (rev (lit s) ++ p) q), c. split; [|exact H].
  apply Match_Lit_cs. split; [|reflexivity]. split; reflexivity.
Qed.

Lemma hours_shape_matches s :
  has_shape hours_shape s = true -> matches HOURS_PATTERN s = true.
Proof.
  intros H. unfold hours_shape in H. shape_inv H. unfold HOURS_PATTERN.
  eapply matches_intro.
  apply Match_Bol_step.
  apply (@Match_exactly_step 4 is_digit [c; c0; c1; c2]);
    [reflexivity | simpl; rewrite F, F0, F1, F2; reflexivity |].
  apply (@Match_tok_step " To ").
  apply (@Match_exactly_step 4 is_digit [c7; c8; c9; c10]);
    [reflexivity | simpl; rewrite F7, F8, F9, F10; reflexivity |].
  apply Match_Eol_last.
Qed.

Lemma hours_fold lines : forall acc,
  acc = [] \/ has_shape hours_shape acc = true ->
  fold_left hours_step lines acc = []
  \/ has_shape hours_shape (fold_left hours_step lines acc) = true.
Proof.
  induction lines as [|l lines IH]; intros acc H; [exact H|].
  simpl. apply IH. unfold hours_step.
  destruct (negb (nonempty acc)); [|exact H].
  destruct (nonempty (extract_hours l)); [|exact H].
  apply extract_hours_shape.
Qed.

Lemma answers_fold lines : forall a,
  yn_value (a_currently a) /\ yn_value (a_willing a)
  /\ yn_value (a_does_not a) /\ forallb is_digit (a_step_up a) = true
  /\ yn_value (a_accredited a) ->
  let a' := fold_left answers_step lines a in
  yn_value (a_currently a') /\ yn_value (a_willing a')
  /\ yn_value (a_does_not a') /\ forallb is_digit (a_step_up a') = true
  /\ yn_value (a_accredited a').
Proof.
  induction lines as [|l lines IH]; intros a H; [exact H|].
  cbn [fold_left]. apply IH. destruct H as (H1 & H2 & H3 & H4 & H5).
  unfold answers_step. cbn [a_currently a_willing a_does_not a_step_up a_accredited].
  repeat split;
    match goal with
    | |- context [if ?c then _ else _] => destruct c
    end; auto using extract_yn_value_cases, extract_accredited_cases,
                    extract_step_up_quality_digits.
Qed.

Lemma extract_facility_type_valid text :
  extract_facility_type text = []
  \/ (In (extract_facility_type text) FACILITY_TYPES
      /\ in_set (extract_facility_type text) VALID_LICENSE_TYPES = true).
Proof.
  unfold extract_facility_type.
  destruct (first_type_in_cases FACILITY_TYPES text) as [H | [H _]]; auto.
  right. split; [exact H|].
  remember (first_type_in FACILITY_TYPES text) as t eqn:Et. clear Et.
  destruct H as [H | [H | [H | [H | [H | []]]]]]; subst t; reflexivity.
Qed.

(** X8: whatever the lines of a block, the coded fields of the record
    made by [parse_provider_block] are typed: the three subsidy answers
    and Accredited are Y, N or empty; Step_Up_Quality and Capacity hold
    digits only; Days_Open holds capital letters only; Hours is empty or
    of the form DDDD To DDDD, which the validator's HOURS_PATTERN accepts;
    License_Type is empty or one of FACILITY_TYPES, all of which the
    validator lists as valid; State is NE; Download_Date, Zip_Code and
    County are the arguments. *)
Theorem coded_fields_are_typed (lines : list str)
        (zip county download_date : str) :
  let p := parse_provider_block lines zip county download_date in
  yn_value (Currently_Accepts_Subsidy p)
  /\ yn_value (Willing_To_Accept_Subsidy p)
  /\ yn_value (Does_Not_Accept_Subsidy p)
  /\ yn_value (Accredited p)
  /\ forallb is_digit (Step_Up_Quality p) = true
  /\ forallb is_digit (Capacity p) = true
  /\ forallb is_upper (Days_Open p) = true
  /\ (Hours p = []
      \/ (has_shape hours_shape (Hours p) = true
          /\ matches HOURS_PATTERN (Hours p) = true))
  /\ (License_Type p = []
      \/ (In (License_Type p) FACILITY_TYPES
          /\ in_set (License_Type p) VALID_LICENSE_TYPES = true))
  /\ State p = lit "NE"
  /\ Download_Date p = download_date
  /\ Zip_Code p = zip
  /\ County p = county.
Proof.
  unfold parse_provider_block. destruct lines as [|l conts].
  - cbn. unfold yn_value. repeat split; auto.
  - destruct (name_and_address l (extract_license_number l)).
    destruct (fold_left date_step (l :: conts) ([], [])) as [eff owner].
    cbn [Currently_Accepts_Subsidy Willing_To_Accept_Subsidy
         Does_Not_Accept_Subsidy Accredited Step_Up_Quality Capacity Days_Open
         Hours License_Type State Download_Date Zip_Code County].
    destruct (@answers_fold (l :: conts) (Answers [] [] [] [] []))
      as (A1 & A2 & A3 & A4 & A5).
    { unfold yn_value. cbn. repeat split; auto. }
    repeat (split; [assumption|]).
    split; [apply extract_capacity_digits|].
    split; [apply extract_days_upper|].
    split.
    { destruct (@hours_fold (l :: conts) [] (or_introl eq_refl)) as [H | H];
        [left; exact H | right; split; [exact H | apply hours_shape_matches, H]]. }
    split; [apply extract_facility_type_valid|].
    repeat split.
Qed.

(** ** Text fields *)

Lemma trimmed_nil : trimmed [].
Proof. split; exact I. Qed.

Lemma trimmed_strip s : trimmed (strip s).
Proof. apply strip_clean. Qed.

Lemma clean_provider_name_trimmed name : trimmed (clean_provider_name name).
Proof. unfold clean_provider_name. apply trimmed_strip. Qed.

Lemma name_and_address_trimmed line1 license :
  trimmed (fst (name_and_address line1 license))
  /\ trimmed (snd (name_and_address line1 license)).
Proof.
  unfold name_and_address.
  destruct (nonempty license); [|split; apply trimmed_nil].
  destruct (split license line1) as [|part0 [|part1 parts]];
    try (split; apply trimmed_nil).
  cbn [fst snd]. split.
  - destruct (re_search true owned_re (strip part0));
      apply clean_provider_name_trimmed.
  - destruct (re_search false cap_marker_re part1);
      [apply trimmed_strip | apply trimmed_nil].
Qed.

Lemma extract_city_trimmed line :
  trimmed (fst (fst (extract_city_state_zip line))).
Proof.
  unfold extract_city_state_zip.
  destruct (re_search false city_re line); [|apply trimmed_nil].
  cbv zeta.
  destruct (nonempty (strip (re_sub true nebraska_re [] (strip (grp 1 f)))));
    [apply trimmed_strip | apply trimmed_nil].
Qed.

Lemma city_fold lines : forall acc,
  trimmed acc -> trimmed (fold_left city_step lines acc).
Proof.
  induction lines as [|l lines IH]; intros acc H; [exact H|].
  simpl. apply IH. unfold city_step.
  destruct (negb (nonempty acc)); [|exact H].
  pose proof (extract_city_trimmed l) as Hc.
  destruct (extract_city_state_zip l) as [[c s] z]. simpl in Hc.
  destruct (nonempty c); assumption.
Qed.

Lemma owner_fold lines : forall acc,
  trimmed (snd acc) -> trimmed (snd (fold_left date_step lines acc)).
Proof.
  induction lines as [|l lines IH]; intros acc H; [exact H|].
  simpl. apply IH. unfold date_step. destruct acc as [eff owner].
  destruct (negb (nonempty eff)); [|exact H].
  destruct (nonempty (extract_effective_date l)); [|exact H].
  destruct (re_match false (owner_re (extract_effective_date l)) l);
    [apply trimmed_strip | exact H].
Qed.

Lemma extract_ages_trimmed text : trimmed (extract_ages text).
Proof.
  unfold extract_ages. destruct (re_search false ages_re text);
    [apply trimmed_strip | apply trimmed_nil].
Qed.

(** X9: the text fields of a record made by [parse_provider_block]
    (Provider_Name, Address, Owner_Name, City, Ages) have no white space
    at either end. *)
Theorem text_fields_are_trimmed (lines : list str)
        (zip county download_date : str) :
  let p := parse_provider_block lines zip county download_date in
  trimmed (Provider_Name p) /\ trimmed (Address p) /\ trimmed (Owner_Name p)
  /\ trimmed (City p) /\ trimmed (Ages p).
Proof.
  unfold parse_provider_block. destruct lines as [|l conts].
  - cbn. repeat split.
  - pose proof (name_and_address_trimmed l (extract_license_number l)) as [N A].
    destruct (name_and_address l (extract_license_number l)) as [name address].
    pose proof (@owner_fold (l :: conts) ([], []) trimmed_nil) as O.
    destruct (fold_left date_step (l :: conts) ([], [])) as [eff owner].
    cbn [Provider_Name Address Owner_Name City Ages].
    simpl in N, A, O.
    repeat (split; [assumption|]).
    split; [apply city_fold, trimmed_nil | apply extract_ages_trimmed].
Qed.

(** ** The validator's results *)

Lemma consistent_new : consistent new_result.
Proof. split; reflexivity. Qed.

Lemma consistent_add_error m r : consistent (add_error m r).
Proof.
  split; simpl; [discriminate|].
  intros H. apply app_eq_nil in H. destruct H as [_ H]. discriminate.
Qed.

Lemma consistent_add_warning m r : consistent r -> consistent (add_warning m r).
Proof. intros H. exact H. Qed.

Lemma consistent_set_stat key v r : consistent r -> consistent (set_stat key v r).
Proof. intros H. exact H. Qed.

Lemma consistent_report_missing field missing total r :
  consistent r -> consistent (report_missing field missing total r).
Proof.
  intros H. unfold report_missing. destruct (0 <? missing); [|exact H].
  destruct (PrimFloat.ltb _ _);
    [apply consistent_add_error | apply consistent_add_warning, H].
Qed.

Lemma consistent_report_invalid_licenses bad r :
  consistent r -> consistent (report_invalid_licenses bad r).
Proof.
  intros H. destruct bad as [|[i e] bad]; simpl;
    [exact H | apply consistent_add_error].
Qed.

Lemma consistent_report_invalid_phones bad total r :
  consistent r -> consistent (report_invalid_phones bad total r).
Proof.
  intros H. destruct bad as [|x bad]; simpl; [exact H|].
  destruct (PrimFloat.ltb _ _);
    [apply consistent_add_error | apply consistent_add_warning, H].
Qed.

Lemma consistent_report_if_any bad m r :
  consistent r -> consistent (report_if_any bad m r).
Proof.
  intros H. destruct bad; simpl; [exact H | apply consistent_add_error].
Qed.

Lemma consistent_quality_step t ip :
  consistent (t_result t) -> consistent (t_result (quality_step t ip)).
Proof.
  intros H. destruct ip as [i p]. unfold quality_step.
  repeat match goal with
         | |- context [if ?c then _ else _] => destruct c
         end; cbn [t_result];
    first [exact H | apply consistent_add_warning, H].
Qed.

Lemma consistent_quality_loop ips : forall t,
  consistent (t_result t) -> consistent (t_result (fold_left quality_step ips t)).
Proof.
  induction ips as [|ip ips IH]; intros t H; simpl; [exact H|].
  apply IH, consistent_quality_step, H.
Qed.

Lemma consistent_test_data_quality providers :
  consistent (test_data_quality providers).
Proof.
  unfold test_data_quality.
  repeat apply consistent_set_stat.
  repeat apply consistent_report_if_any.
  apply consistent_report_invalid_phones, consistent_report_invalid_licenses.
  repeat apply consistent_report_missing.
  apply consistent_quality_loop. cbn [t_result]. apply consistent_set_stat.
  destruct (length providers <? MIN_EXPECTED_PROVIDERS);
    [apply consistent_add_error | apply consistent_new].
Qed.

Lemma consistent_completeness_step providers rate r kf :
  consistent r -> consistent (completeness_step providers rate r kf).
Proof.
  intros H. destruct kf as [field get]. unfold completeness_step.
  destruct (PrimFloat.ltb _ _); [apply consistent_add_error | exact H].
Qed.

Lemma consistent_completeness_loop providers rate kfs : forall r,
  consistent r ->
  consistent (fold_left (completeness_step providers rate) kfs r).
Proof.
  induction kfs as [|kf kfs IH]; intros r H; simpl; [exact H|].
  apply IH, consistent_completeness_step, H.
Qed.

Lemma consistent_determinism_step acc ipp :
  consistent (snd acc) -> consistent (snd (determinism_step acc ipp)).
Proof.
  intros H. destruct acc as [n r], ipp as [i [p1 p2]]. unfold determinism_step.
  destruct (negb (provider_eqb p1 p2)); [|exact H].
  destruct (n + 1 <=? 3); [apply consistent_add_error | exact H].
Qed.

Lemma consistent_determinism_loop ipps : forall acc,
  consistent (snd acc) ->
  consistent (snd (fold_left determinism_step ipps acc)).
Proof.
  induction ipps as [|ipp ipps IH]; intros acc H; simpl; [exact H|].
  apply IH, consistent_determinism_step, H.
Qed.

Lemma consistent_test_parsing_determinism pdf f d :
  consistent (test_parsing_determinism pdf f d).
Proof.
  unfold test_parsing_determinism.
  destruct (negb (length (f pdf d) =? length (f pdf d)));
    [apply consistent_add_error|].
  pose proof (@consistent_determinism_loop
                (enumerate_from 0 (combine (f pdf d) (f pdf d)))
                (0, set_stat "provider_count" (Count (length (f pdf d)))
                             new_result)
                (consistent_set_stat _ _ consistent_new)) as H.
  destruct (fold_left determinism_step _ _) as [n r]. simpl in H.
  destruct (3 <? n); [apply consistent_add_error | exact H].
Qed.

(** X10: in the result of each of the three tests
    ([test_data_quality], [test_field_completeness],
    [test_parsing_determinism]) [passed] is true exactly when the list of
    errors is empty: warnings and statistics never fail a test, and every
    error does. *)
Theorem tests_pass_iff_no_errors (providers : list provider)
        (required_rate : float) (pdf : list (option str))
        (parse_func : parser) (download_date : str) :
  (passed (test_data_quality providers) = true
   <-> errors (test_data_quality providers) = [])
  /\ (passed (test_field_completeness providers required_rate) = true
      <-> errors (test_field_completeness providers required_rate) = [])
  /\ (passed (test_parsing_determinism pdf parse_func download_date) = true
      <-> errors (test_parsing_determinism pdf parse_func download_date) = []).
Proof.
  split; [apply consistent_test_data_quality|].
  split; [|apply consistent_test_parsing_determinism].
  apply consistent_completeness_loop, consistent_new.
Qed.

Lemma run_all_tests_errors pdf providers parse_func d :
  errors (snd (run_all_tests pdf providers parse_func d))
  = errors (test_data_quality providers)
    ++ errors (test_field_completeness providers default_required_rate)
    ++ determinism_errors pdf parse_func d.
Proof.
  unfold run_all_tests, determinism_errors.
  destruct parse_func; cbn [snd errors new_result app].
  - rewrite <- app_assoc. reflexivity.
  - rewrite app_nil_r. reflexivity.
Qed.

Lemma run_all_tests_passed pdf providers parse_func d :
  fst (run_all_tests pdf providers parse_func d) = true
  <-> errors (snd (run_all_tests pdf providers parse_func d)) = [].
Proof.
  unfold run_all_tests. cbn [fst snd passed errors].
  rewrite Nat.eqb_eq. apply length_zero_iff_nil.
Qed.

(** X11: the combined result of [run_all_tests] lists the errors, and
    the warnings, of the quality test, the completeness test and (when a
    parser is given) the determinism test, in this order; the flag it
    returns is the [passed] of the combined result, and it is true exactly
    when every test that was run passed. *)
Theorem run_all_tests_combines (pdf : list (option str))
        (providers : list provider) (parse_func : option parser)
        (download_date : str) :
  let quality := test_data_quality providers in
  let completeness := test_field_completeness providers default_required_rate in
  let combined := snd (run_all_tests pdf providers parse_func download_date) in
  errors combined
  = errors quality ++ errors completeness
    ++ determinism_errors pdf parse_func download_date
  /\ warnings combined
     = warnings quality ++ warnings completeness
       ++ determinism_warnings pdf parse_func download_date
  /\ passed combined
     = fst (run_all_tests pdf providers parse_func download_date)
  /\ (fst (run_all_tests pdf providers parse_func download_date) = true
      <-> passed quality = true /\ passed completeness = true
          /\ determinism_errors pdf parse_func download_date = []).
Proof.
  cbv zeta. split; [apply run_all_tests_errors|]. split; [|split].
  - unfold run_all_tests, determinism_warnings.
    destruct parse_func; cbn [snd warnings new_result app].
    + rewrite <- app_assoc. reflexivity.
    + rewrite app_nil_r. reflexivity.
  - reflexivity.
  - pose proof (consistent_test_data_quality providers) as Q.
    pose proof (@consistent_completeness_loop providers default_required_rate
                  key_fields new_result consistent_new) as C.
    fold (test_field_completeness providers default_required_rate) in C.
    unfold consistent in Q, C.
    pose proof (run_all_tests_passed pdf providers parse_func download_date)
      as P.
    rewrite run_all_tests_errors in P.
    split.
    + intros H. apply P in H. apply app_eq_nil in H. destruct H as [H1 H].
      apply app_eq_nil in H. tauto.
    + intros (H1 & H2 & H3). apply P.
      apply Q in H1. apply C in H2. rewrite H1, H2, H3. reflexivity.
Qed.

(** ** The parser's records under the format checks *)

Lemma clean_record_spec p :
  clean_record p = true ->
  nonempty (License_Number p) = true
  /\ matches LICENSE_PATTERN (License_Number p) = true
  /\ (nonempty (License_Type p) = true ->
      in_set (License_Type p) VALID_LICENSE_TYPES = true)
  /\ (nonempty (Phone p) = true -> matches PHONE_PATTERN (Phone p) = true)
  /\ (nonempty (Effective_Date p) = true ->
      matches DATE_PATTERN (Effective_Date p) = true)
  /\ (nonempty (Zip_Code p) = true -> matches ZIP_PATTERN (Zip_Code p) = true).
Proof.
  unfold clean_record. intros H.
  repeat (apply andb_true_iff in H; destruct H as [H ?]).
  repeat split; auto;
    intros N; rewrite N in *; simpl in *; assumption.
Qed.

(** One round of the loop of [test_data_quality] on a clean record. *)
Lemma quality_step_clean t i p :
  clean_record p = true ->
  let t' := quality_step t (i, p) in
  t_result t' = t_result t
  /\ invalid_licenses t' = invalid_licenses t
  /\ invalid_phones t' = invalid_phones t
  /\ invalid_dates t' = invalid_dates t
  /\ invalid_zips t' = invalid_zips t
  /\ missing_license_numbers t' = missing_license_numbers t
  /\ missing_names t'
     = missing_names t + (if nonempty (Provider_Name p) then 0 else 1).
Proof.
  intros H. apply clean_record_spec in H.
  destruct H as (H1 & H2 & H3 & H4 & H5 & H6).
  cbv zeta. unfold quality_step. rewrite H1, H2. cbn [negb].
  destruct (nonempty (License_Type p));
    [rewrite (H3 eq_refl)|]; cbn [negb];
  (destruct (nonempty (Phone p)); [rewrite (H4 eq_refl)|]);
  (destruct (nonempty (Effective_Date p)); [rewrite (H5 eq_refl)|]);
  (destruct (nonempty (Zip_Code p)); [rewrite (H6 eq_refl)|]);
  destruct (nonempty (Provider_Name p)); cbn; repeat split; lia.
Qed.

Lemma quality_loop_clean ips : forall t,
  forallb (fun ip => clean_record (snd ip)) ips = true ->
  let t' := fold_left quality_step ips t in
  t_result t' = t_result t
  /\ invalid_licenses t' = invalid_licenses t
  /\ invalid_phones t' = invalid_phones t
  /\ invalid_dates t' = invalid_dates t
  /\ invalid_zips t' = invalid_zips t
  /\ missing_license_numbers t' = missing_license_numbers t
  /\ missing_names t' = missing_names t + unnamed (map snd ips).
Proof.
  induction ips as [|[i p] ips IH]; intros t H.
  - cbn. repeat split; auto.
  - simpl in H. apply andb_true_iff in H. destruct H as [Hp H].
    cbn [fold_left]. cbv zeta.
    destruct (IH (quality_step t (i, p)) H) as (A1 & A2 & A3 & A4 & A5 & A6 & A7).
    destruct (@quality_step_clean t i p Hp) as (B1 & B2 & B3 & B4 & B5 & B6 & B7).
    rewrite A1, A2, A3, A4, A5, A6, A7, B1, B2, B3, B4, B5, B6, B7.
    repeat split; auto.
    unfold unnamed. cbn [map snd filter].
    destruct (nonempty (Provider_Name p)); cbn [negb length]; lia.
Qed.

Lemma enumerate_from_snd {A : Type} (xs : list A) : forall i,
  map snd (enumerate_from i xs) = xs.
Proof.
  induction xs as [|x xs IH]; intros i; simpl; [|rewrite IH]; reflexivity.
Qed.

Lemma forallb_enumerate {A : Type} (f : A -> bool) (xs : list A) : forall i,
  forallb (fun ip => f (snd ip)) (enumerate_from i xs) = forallb f xs.
Proof.
  induction xs as [|x xs IH]; intros i; simpl; [|rewrite IH]; reflexivity.
Qed.

(** What [test_data_quality] reports on clean records. *)
Lemma test_data_quality_clean providers :
  forallb clean_record providers = true ->
  let volume :=
    if length providers <? MIN_EXPECTED_PROVIDERS
    then add_error (Too_few_providers (length providers)
                                      MIN_EXPECTED_PROVIDERS) new_result
    else new_result in
  let reported :=
    report_missing "Provider_Name" (unnamed providers) (length providers)
                   (set_stat "total_providers" (Count (length providers))
                             volume) in
  passed (test_data_quality providers) = passed reported
  /\ errors (test_data_quality providers) = errors reported
  /\ warnings (test_data_quality providers) = warnings reported.
Proof.
  intros H. cbv zeta. unfold test_data_quality.
  rewrite <- (forallb_enumerate clean_record providers 0) in H.
  destruct (@quality_loop_clean (enumerate_from 0 providers)
              (Tally (set_stat "total_providers" (Count (length providers))
                        (if length providers <? MIN_EXPECTED_PROVIDERS
                         then add_error (Too_few_providers (length providers)
                                           MIN_EXPECTED_PROVIDERS) new_result
                         else new_result)) [] [] [] [] [] 0 0) H)
    as (A1 & A2 & A3 & A4 & A5 & A6 & A7).
  cbn [t_result invalid_licenses invalid_phones invalid_dates invalid_zips
       missing_license_numbers missing_names] in A1, A2, A3, A4, A5, A6, A7.
  rewrite enumerate_from_snd in A7. simpl in A7.
  rewrite A1, A2, A3, A4, A5, A6, A7.
  cbn [report_invalid_licenses report_invalid_phones report_if_any].
  unfold report_missing at 1. change (0 <? 0) with false.
  repeat split.
Qed.

Lemma license_token_nonempty_field tk :
  is_license_token tk -> nonempty tk = true.
Proof.
  intros (fam & ds & Hf & Hd & _ & ->).
  destruct fam; [|reflexivity]. destruct ds; [congruence | reflexivity].
Qed.

Lemma nonempty_or (P : str -> bool) (s : str) :
  s = [] \/ P s = true -> negb (nonempty s) || P s = true.
Proof. intros [-> | ->]; [reflexivity | apply orb_true_r]. Qed.

Lemma parse_license_type l conts zip county d :
  License_Type (parse_provider_block (l :: conts) zip county d)
  = extract_facility_type (nth 1 (l :: conts) []).
Proof.
  unfold parse_provider_block.
  destruct (name_and_address l (extract_license_number l)).
  destruct (fold_left date_step (l :: conts) ([], [])).
  reflexivity.
Qed.

(** The record of a block that opens with a record-start line is clean. *)
Lemma block_record_clean d f conts zip county :
  is_provider_start_line f = true ->
  zip = [] \/ has_shape zip_shape zip = true ->
  clean_record (parse_provider_block (f :: conts) zip county d) = true.
Proof.
  intros Hf Hz.
  pose proof (@start_line_license_token d f conts zip county Hf) as HL.
  destruct (parse_fields (f :: conts) zip county d) as (_ & HP & HD).
  destruct (parse_context (f :: conts) zip county d) as (HZ & _).
  pose proof (parse_license_type f conts zip county d) as HT.
  unfold clean_record.
  rewrite (license_token_nonempty_field HL), (license_token_matches HL).
  cbn [andb]. rewrite HZ, HT.
  repeat (apply andb_true_iff; split).
  - destruct (extract_facility_type_valid (nth 1 (f :: conts) []))
      as [-> | [_ ->]]; [reflexivity | apply orb_true_r].
  - apply nonempty_or. destruct HP as [HP | HP];
      [left; exact HP | right; apply phone_shape_matches, HP].
  - apply nonempty_or. destruct HD as [HD | HD];
      [left; exact HD | right; apply date_shape_matches, HD].
  - apply nonempty_or. destruct Hz as [Hz | Hz];
      [left; exact Hz | right; apply zip_shape_matches, Hz].
Qed.

Lemma parser_records_clean pages d :
  forallb clean_record (extract_providers_from_pdf pages d) = true.
Proof.
  apply forallb_forall. intros p Hp.
  destruct (extract_state_blocks pages d) as (E & W & _ & Hb).
  rewrite E in Hp. apply in_map_iff in Hp. destruct Hp as (b & <- & Hin).
  destruct (Hb b Hin) as (pre & post & _ & Hctx).
  rewrite forallb_forall in W. specialize (W b Hin).
  unfold well_formed_block in W. unfold assemble.
  destruct (b_lines b) as [|f conts]; [discriminate|].
  apply andb_true_iff in W. destruct W as [W _].
  apply andb_true_iff in W. destruct W as [W _].
  apply block_record_clean; [exact W|].
  pose proof (@context_after_zip pre ([], []) (or_introl eq_refl)) as K.
  rewrite <- Hctx in K. exact K.
Qed.

Lemma report_missing_messages field missing total r :
  let r' := report_missing field missing total r in
  (forall m, In m (errors r') ->
             In m (errors r)
             \/ m = Missing_field (lit field) missing (percent missing total))
  /\ (forall m, In m (warnings r') ->
                In m (warnings r)
                \/ m = Missing_field (lit field) missing (percent missing total)).
Proof.
  cbv zeta. unfold report_missing. destruct (0 <? missing); [|auto].
  destruct (PrimFloat.ltb _ _); simpl; split; intros m Hm; auto;
    apply in_app_or in Hm; destruct Hm as [Hm | [<- | []]]; auto.
Qed.

(** X12: on the output of [extract_providers_from_pdf] the format
    checks of [test_data_quality] never fire: every record has a license
    number, license type, phone, date and zip code of the accepted form
    (or an empty one, the license number apart).  The only errors the
    quality test can report for parser output are the volume error and the
    share of records without a name; the only warning is that share. *)
Theorem parser_output_passes_format_checks (pages : list (option str))
        (download_date : str) :
  let records := extract_providers_from_pdf pages download_date in
  let name_message :=
    Missing_field (lit "Provider_Name") (unnamed records)
                  (percent (unnamed records) (length records)) in
  forallb clean_record records = true
  /\ (forall m, In m (errors (test_data_quality records)) ->
        m = Too_few_providers (length records) MIN_EXPECTED_PROVIDERS
        \/ m = name_message)
  /\ (forall m, In m (warnings (test_data_quality records)) ->
        m = name_message).
Proof.
  cbv zeta.
  pose proof (parser_records_clean pages download_date) as C.
  split; [exact C|].
  destruct (test_data_quality_clean _ C) as (_ & -> & ->).
  match goal with
  | |- context [report_missing ?f ?n ?t ?r] =>
      destruct (report_missing_messages f n t r) as [He Hw]
  end.
  split; intros m Hm.
  - destruct (He m Hm) as [H | H]; [|right; exact H].
    left. cbn [set_stat errors] in H.
    destruct (length _ <? MIN_EXPECTED_PROVIDERS); simpl in H;
      [destruct H as [<- | []]; reflexivity | destruct H].
  - destruct (Hw m Hm) as [H | H]; [|exact H].
    cbn [set_stat warnings] in H.
    destruct (length _ <? MIN_EXPECTED_PROVIDERS); simpl in H; destruct H.
Qed.

(** X13: a list of at least MIN_EXPECTED_PROVIDERS records, each with a
    name and with fields of the accepted formats, passes
    [test_data_quality] with no error and no warning. *)
Theorem clean_named_records_pass (providers : list provider) :
  MIN_EXPECTED_PROVIDERS <= length providers ->
  forallb clean_record providers = true ->
  forallb (fun p => nonempty (Provider_Name p)) providers = true ->
  passed (test_data_quality providers) = true
  /\ errors (test_data_quality providers) = []
  /\ warnings (test_data_quality providers) = [].
Proof.
  intros Hn Hc Hnames.
  destruct (test_data_quality_clean _ Hc) as (-> & -> & ->).
  assert (U : unnamed providers = 0).
  { unfold unnamed. rewrite filter_none; [reflexivity|].
    intros p Hp. rewrite forallb_forall in Hnames.
    rewrite (Hnames p Hp). reflexivity. }
  apply Nat.ltb_ge in Hn. rewrite U, Hn. unfold report_missing.
  change (0 <? 0) with false. repeat split.
Qed.

Lemma clean_named_records_pass_witness :
  passed (test_data_quality (repeat sample_provider 100)) = true
  /\ errors (test_data_quality (repeat sample_provider 100)) = []
  /\ warnings (test_data_quality (repeat sample_provider 100)) = [].
Proof.
  apply (@clean_named_records_pass (repeat sample_provider 100)).
  - vm_compute. lia.
  - vm_compute. reflexivity.
  - vm_compute. reflexivity.
Defined.

(** ** First hit wins *)

Lemma nonempty_false s : nonempty s = false -> s = [].
Proof. destruct s; [reflexivity | discriminate]. Qed.

(** A loop that fills an empty field from the first line that yields a
    value. *)
Lemma first_hit_fold (f : str -> str) (step : str -> str -> str) :
  (forall acc l,
      step acc l = if negb (nonempty acc)
                   then if nonempty (f l) then f l else acc
                   else acc) ->
  forall lines acc,
    fold_left step lines acc
    = if nonempty acc then acc else first_hit f lines.
Proof.
  intros Hstep. induction lines as [|l lines IH]; intros acc.
  - simpl. destruct acc; reflexivity.
  - cbn [fold_left]. rewrite IH, Hstep. unfold first_hit. cbn [map first_nonempty].
    destruct (nonempty acc) eqn:Ea; cbn [negb]; [rewrite Ea; reflexivity|].
    destruct (nonempty (f l)) eqn:Ef; cbv iota; rewrite ?Ef, ?Ea; reflexivity.
Qed.

Lemma phone_first_hit lines :
  fold_left phone_step lines [] = first_hit extract_phone lines.
Proof. rewrite (@first_hit_fold extract_phone phone_step); reflexivity. Qed.

Lemma hours_first_hit lines :
  fold_left hours_step lines [] = first_hit extract_hours lines.
Proof. rewrite (@first_hit_fold extract_hours hours_step); reflexivity. Qed.

Lemma city_first_hit lines :
  fold_left city_step lines [] = first_hit city_of lines.
Proof.
  rewrite (@first_hit_fold city_of city_step); [reflexivity|].
  intros acc l. unfold city_step, city_of.
  destruct (extract_city_state_zip l) as [[c s] z]. reflexivity.
Qed.

Lemma date_first_hit lines : forall eff owner,
  fold_left date_step lines (eff, owner)
  = if nonempty eff then (eff, owner)
    else match dated_line lines with
         | Some l =>
             (extract_effective_date l,
              match re_match false (owner_re (extract_effective_date l)) l with
              | Some owner_match => strip (grp 1 owner_match)
              | None => owner
              end)
         | None => (eff, owner)
         end.
Proof.
  induction lines as [|l lines IH]; intros eff owner.
  - simpl. destruct (nonempty eff); reflexivity.
  - cbn [fold_left]. unfold date_step at 2. unfold dated_line. cbn [find].
    destruct (nonempty eff) eqn:Ee; cbn [negb].
    + rewrite IH, Ee. reflexivity.
    + destruct (nonempty (extract_effective_date l)) eqn:Ed.
      * destruct (re_match false (owner_re (extract_effective_date l)) l);
          rewrite IH, Ed; reflexivity.
      * rewrite IH, Ee. reflexivity.
Qed.

Lemma date_first_hit_nil lines :
  fold_left date_step lines ([], [])
  = match dated_line lines with
    | Some l => (extract_effective_date l, owner_of l)
    | None => ([], [])
    end.
Proof. rewrite date_first_hit. reflexivity. Qed.

Lemma dated_line_first_hit lines :
  first_hit extract_effective_date lines
  = match dated_line lines with
    | Some l => extract_effective_date l
    | None => []
    end.
Proof.
  unfold first_hit, dated_line.
  induction lines as [|l lines IH]; simpl; [reflexivity|].
  destruct (nonempty (extract_effective_date l)); [reflexivity | exact IH].
Qed.

Lemma answer_step_form (q : str) (f g : str -> str) acc l :
  (str_in q l = true -> g l = f l) ->
  (str_in q l = false -> f l = []) ->
  (if str_in q l && negb (nonempty acc) then g l else acc)
  = if negb (nonempty acc) then if nonempty (f l) then f l else acc else acc.
Proof.
  intros Hg H. destruct (nonempty acc) eqn:Ea; cbn [negb].
  - rewrite andb_false_r. reflexivity.
  - rewrite andb_true_r. apply nonempty_false in Ea. subst acc.
    destruct (str_in q l).
    + rewrite (Hg eq_refl). destruct (nonempty (f l)) eqn:Ef; [reflexivity|].
      apply nonempty_false, Ef.
    + rewrite (H eq_refl). reflexivity.
Qed.

Lemma yn_not_asked line prefix :
  str_in prefix line = false -> extract_yn_value line prefix = [].
Proof. intros H. unfold extract_yn_value. rewrite H. reflexivity. Qed.

Lemma answers_first_hit lines : forall a,
  let a' := fold_left answers_step lines a in
  a_currently a'
  = fold_left (fun acc l => if str_in q_currently l && negb (nonempty acc)
                            then extract_yn_value l q_currently else acc)
              lines (a_currently a)
  /\ a_willing a'
     = fold_left (fun acc l => if str_in q_willing l && negb (nonempty acc)
                               then extract_yn_value l q_willing else acc)
                 lines (a_willing a)
  /\ a_does_not a'
     = fold_left (fun acc l => if str_in q_does_not l && negb (nonempty acc)
                               then extract_yn_value l q_does_not else acc)
                 lines (a_does_not a)
  /\ a_step_up a'
     = fold_left (fun acc l => if str_in q_step_up l && negb (nonempty acc)
                               then extract_step_up_quality l else acc)
                 lines (a_step_up a)
  /\ a_accredited a'
     = fold_left (fun acc l => if str_in q_accredited l && negb (nonempty acc)
                               then extract_accredited l else acc)
                 lines (a_accredited a).
Proof.
  induction lines as [|l lines IH]; intros a; [cbn; auto 6|].
  cbn [fold_left]. cbv zeta.
  destruct (IH (answers_step a l)) as (H1 & H2 & H3 & H4 & H5).
  rewrite H1, H2, H3, H4, H5. unfold answers_step.
  cbn [a_currently a_willing a_does_not a_step_up a_accredited].
  auto 6.
Qed.

(** The record of a block with a first line, field by field. *)
Lemma parse_provider_block_cons l conts zip county d :
  let lines := l :: conts in
  let a := fold_left answers_step lines (Answers [] [] [] [] []) in
  parse_provider_block lines zip county d
  = Provider d zip county
      (fst (name_and_address l (extract_license_number l)))
      (extract_license_number l)
      (extract_facility_type (nth 1 lines []))
      (snd (fold_left date_step lines ([], [])))
      (fst (fold_left date_step lines ([], [])))
      (snd (name_and_address l (extract_license_number l)))
      (fold_left city_step lines []) (lit "NE")
      (fold_left phone_step lines [])
      (extract_capacity l) (extract_ages (nth 1 lines []))
      (fold_left hours_step lines []) (extract_days l)
      (a_currently a) (a_willing a) (a_does_not a) (a_step_up a)
      (a_accredited a).
Proof.
  cbv zeta. unfold parse_provider_block.
  destruct (name_and_address l (extract_license_number l)).
  destruct (fold_left date_step (l :: conts) ([], [])).
  reflexivity.
Qed.

(** X14: the fields [parse_provider_block] searches for line by line
    take the value of the first line of the block that yields one, later
    lines never overwrite it: Phone, Hours, City, Effective_Date, the
    three subsidy answers, Step_Up_Quality and Accredited.  Owner_Name is
    read from the line that gave the date, and only from it. *)
Theorem first_hit_wins (lines : list str) (zip county download_date : str) :
  let p := parse_provider_block lines zip county download_date in
  Phone p = first_hit extract_phone lines
  /\ Hours p = first_hit extract_hours lines
  /\ City p = first_hit city_of lines
  /\ Effective_Date p = first_hit extract_effective_date lines
  /\ Owner_Name p
     = match dated_line lines with Some l => owner_of l | None => [] end
  /\ Currently_Accepts_Subsidy p
     = first_hit (fun l => extract_yn_value l q_currently) lines
  /\ Willing_To_Accept_Subsidy p
     = first_hit (fun l => extract_yn_value l q_willing) lines
  /\ Does_Not_Accept_Subsidy p
     = first_hit (fun l => extract_yn_value l q_does_not) lines
  /\ Step_Up_Quality p = first_hit step_up_of lines
  /\ Accredited p = first_hit accredited_of lines.
Proof.
  cbv zeta. destruct lines as [|l conts]; [cbn; auto 12|].
  pose proof (parse_provider_block_cons l conts zip county download_date) as E.
  cbv zeta in E. rewrite E. clear E.
  cbn [Phone Hours City Effective_Date Owner_Name Currently_Accepts_Subsidy
       Willing_To_Accept_Subsidy Does_Not_Accept_Subsidy Step_Up_Quality
       Accredited].
  destruct (answers_first_hit (l :: conts) (Answers [] [] [] [] []))
    as (A1 & A2 & A3 & A4 & A5).
  cbn [a_currently a_willing a_does_not a_step_up a_accredited]
    in A1, A2, A3, A4, A5.
  rewrite A1, A2, A3, A4, A5, date_first_hit_nil, dated_line_first_hit.
  split; [apply phone_first_hit|].
  split; [apply hours_first_hit|].
  split; [apply city_first_hit|].
  split; [destruct (dated_line (l :: conts)); reflexivity|].
  split; [destruct (dated_line (l :: conts)); reflexivity|].
  split.
  { rewrite (@first_hit_fold (fun l => extract_yn_value l q_currently));
      [reflexivity|].
    intros acc x.
    apply (@answer_step_form q_currently (fun l => extract_yn_value l q_currently)
             (fun l => extract_yn_value l q_currently) acc x);
      [reflexivity | apply yn_not_asked]. }
  split.
  { rewrite (@first_hit_fold (fun l => extract_yn_value l q_willing));
      [reflexivity|].
    intros acc x.
    apply (@answer_step_form q_willing (fun l => extract_yn_value l q_willing)
             (fun l => extract_yn_value l q_willing) acc x);
      [reflexivity | apply yn_not_asked]. }
  split.
  { rewrite (@first_hit_fold (fun l => extract_yn_value l q_does_not));
      [reflexivity|].
    intros acc x.
    apply (@answer_step_form q_does_not (fun l => extract_yn_value l q_does_not)
             (fun l => extract_yn_value l q_does_not) acc x);
      [reflexivity | apply yn_not_asked]. }
  split.
  { rewrite (@first_hit_fold step_up_of); [reflexivity|].
    intros acc x.
    apply (@answer_step_form q_step_up step_up_of extract_step_up_quality
             acc x); unfold step_up_of; intros ->; reflexivity. }
  rewrite (@first_hit_fold accredited_of); [reflexivity|].
  intros acc x.
  apply (@answer_step_form q_accredited accredited_of extract_accredited
           acc x); unfold accredited_of; intros ->; reflexivity.
Qed.

(** ** Phone numbers *)

Lemma digit_not_space c : is_digit c = true -> is_space c = false.
Proof.
  destruct c as [[] [] [] [] [] [] [] []]; vm_compute; congruence.
Qed.

Lemma digits_not_head_space t rest n :
  length t = S n -> forallb is_digit t = true -> not_head is_space (t ++ rest).
Proof.
  destruct t as [|x t]; [discriminate|]. simpl. intros _ F.
  apply andb_true_iff in F. apply digit_not_space, F.
Qed.

(** What a match of the phone pattern at the start of a text consists of. *)
Lemma Match_phone_inv text z' c' :
  Match false phone_re (Cursor [] text) [] z' c' ->
  exists g1 w g2 d g3,
    text = phone_text g1 g2 g3 w d (ahead z')
    /\ phone_parts g1 g2 g3 w d
    /\ exists o1 o2 o3, c' = [(3, (o3, g3)); (2, (o2, g2)); (1, (o1, g1))].
Proof.
  unfold phone_re, star. intros HM.
  destruct HM as (z0 & c0 & (_ & -> & ->) & z1 & c1 & H1 & z2 & c2 & H2
                  & z3 & c3 & H3 & z4 & c4 & H4 & z5 & c5 & H5
                  & z6 & c6 & H6 & H7).
  apply Match_chr_cs in H1. destruct H1 as [[A1 _] ->].
  destruct H2 as (k2 & H2 & ->). apply Match_exactly in H2.
  destruct H2 as (g1 & A2 & F1 & L1 & ->).
  apply Match_chr_cs in H3. destruct H3 as [[A3 _] ->].
  apply Match_Rep_cs in H4. destruct H4 as (w & [A4 _] & Fw & _ & _ & ->).
  assert (H6' : exists d, ahead z5 = d ++ ahead z6
                          /\ (d = [] \/ d = lit "-") /\ c6 = c5).
  { destruct H6 as [H6 | [-> ->]].
    - apply Match_chr_cs in H6. destruct H6 as [[A6 _] ->].
      exists (lit "-"). auto.
    - exists []. auto. }
  destruct H6' as (d & A6 & Hd & ->). clear H6.
  destruct H5 as (k5 & H5 & ->). apply Match_exactly in H5.
  destruct H5 as (g2 & A5 & F2 & L2 & ->).
  destruct H7 as (k7 & H7 & ->). apply Match_exactly in H7.
  destruct H7 as (g3 & A7 & F3 & L3 & ->).
  exists g1, w, g2, d, g3. split; [|split].
  - simpl in A1. unfold phone_text.
    rewrite A1, (proj1 A2), A3, A4, (proj1 A5), A6, (proj1 A7). reflexivity.
  - unfold phone_parts. repeat (split; [assumption|]). exact Hd.
  - rewrite (between_advance A2), (between_advance A5), (between_advance A7).
    do 3 eexists. reflexivity.
Qed.

Lemma Match_seq_step r1 r2 t p q c c1 z' c' :
  Match false r1 (Cursor p (t ++ q)) c (Cursor (rev t ++ p) q) c1 ->
  Match false r2 (Cursor (rev t ++ p) q) c1 z' c' ->
  Match false (r1 ;; r2) (Cursor p (t ++ q)) c z' c'.
Proof. intros H1 H2. exists (Cursor (rev t ++ p) q), c1. auto. Qed.

Lemma Match_Grp_exactly n k f t p q c :
  length t = k -> forallb f t = true ->
  Match false (Grp n (exactly k f)) (Cursor p (t ++ q)) c
        (Cursor (rev t ++ p) q) ((n, (length p, t)) :: c).
Proof.
  intros L F. exists c. split; [apply Match_exactly_last; assumption|].
  rewrite (@between_advance (Cursor p (t ++ q)) t (Cursor (rev t ++ p) q));
    [reflexivity | split; reflexivity].
Qed.

(** A text that begins with a phone number has a match. *)
Lemma Match_phone_intro a b c ws dash tail :
  phone_parts a b c ws dash ->
  exists z' c',
    Match false phone_re (Cursor [] (phone_text a b c ws dash tail)) [] z' c'.
Proof.
  intros (La & Fa & Lb & Fb & Lc & Fc & Fw & Hd).
  unfold phone_re, phone_text.
  destruct Hd as [-> | ->]; do 2 eexists;
    (apply Match_Bol_step; cbn [lit list_ascii_of_string app];
     apply Match_chr_step;
     eapply (@Match_seq_step _ _ a); [apply Match_Grp_exactly; assumption|];
     apply Match_chr_step;
     eapply (@Match_seq_step _ _ ws);
     [apply Match_Rep_cs; exists ws; split; [split; reflexivity|];
      repeat split; auto; lia|];
     eapply (@Match_seq_step _ _ b); [apply Match_Grp_exactly; assumption|]).
  - eapply (@Match_seq_step _ _ []); [right; split; reflexivity|].
    apply Match_Grp_exactly; assumption.
  - eapply (@Match_seq_step _ _ (lit "-")).
    { left. apply Match_chr_cs. split; [split|]; reflexivity. }
    apply Match_Grp_exactly; assumption.
Qed.

(** A text begins with at most one phone number. *)
Lemma phone_text_unique a b c ws dash tail a' b' c' ws' dash' tail' :
  phone_parts a b c ws dash -> phone_parts a' b' c' ws' dash' ->
  phone_text a b c ws dash tail = phone_text a' b' c' ws' dash' tail' ->
  a = a' /\ b = b' /\ c = c'.
Proof.
  intros (La & Fa & Lb & Fb & Lc & Fc & Fw & Hd)
         (La' & Fa' & Lb' & Fb' & Lc' & Fc' & Fw' & Hd') E.
  unfold phone_text in E. cbn [lit list_ascii_of_string app] in E.
  inversion E as [E1]. clear E.
  apply app_same_length in E1; [|congruence]. destruct E1 as [<- E].
  inversion E as [E1]. clear E.
  apply (@span_unique is_space) in E1; auto;
    try (eapply digits_not_head_space; eauto).
  destruct E1 as [<- E].
  apply app_same_length in E; [|congruence]. destruct E as [<- E].
  assert (E' : c ++ tail = c' ++ tail').
  { destruct c as [|x c]; [discriminate|]. destruct c' as [|x' c']; [discriminate|].
    simpl in Fc, Fc'. apply andb_true_iff in Fc, Fc'.
    destruct Fc as [Fx _], Fc' as [Fx' _].
    destruct Hd as [-> | ->], Hd' as [-> | ->]; simpl in E.
    - exact E.
    - inversion E; subst. discriminate Fx.
    - inversion E; subst. discriminate Fx'.
    - inversion E as [[Ex Ec]]. simpl. rewrite Ec. reflexivity. }
  apply app_same_length in E'; [|congruence]. destruct E' as [<- _]. auto.
Qed.

Lemma extract_phone_of_text a b c ws dash tail :
  phone_parts a b c ws dash ->
  extract_phone (phone_text a b c ws dash tail) = phone_number a b c.
Proof.
  intros P. destruct (Match_phone_intro tail P) as (z1 & c1 & HM).
  apply match_at_complete in HM. destruct HM as [m Hm].
  unfold extract_phone, re_match. rewrite Hm.
  apply match_at_sound in Hm. destruct Hm as (z' & c' & HM & -> & _).
  apply Match_phone_inv in HM.
  destruct HM as (g1 & w & g2 & d & g3 & E & P' & o1 & o2 & o3 & ->).
  destruct (phone_text_unique P P' E) as (<- & <- & <-).
  reflexivity.
Qed.

Lemma extract_phone_inv text :
  extract_phone text <> [] ->
  exists a b c ws dash tail,
    phone_parts a b c ws dash /\ text = phone_text a b c ws dash tail.
Proof.
  unfold extract_phone, re_match. intros H.
  destruct (match_at false phone_re false (Cursor [] text)) as [m|] eqn:E;
    [|contradiction].
  apply match_at_sound in E. destruct E as (z' & c' & HM & _ & _).
  apply Match_phone_inv in HM.
  destruct HM as (g1 & w & g2 & d & g3 & E & P & _).
  exists g1, g2, g3, w, d, (ahead z'). auto.
Qed.

(** X15: [extract_phone] reads a phone number at the start of a text
    only, written as "(DDD)", optional white space, "DDD", an optional
    dash and "DDDD", and returns it as "(DDD) DDD-DDDD" whatever the
    spacing and the dash were and whatever follows; any other text gives
    the empty string.  Reading a phone number from its own result gives
    it back. *)
Theorem phone_is_normalised (text : str) :
  (forall a b c ws dash tail,
      phone_parts a b c ws dash ->
      text = phone_text a b c ws dash tail ->
      extract_phone text = phone_number a b c)
  /\ (extract_phone text <> [] ->
      exists a b c ws dash tail,
        phone_parts a b c ws dash /\ text = phone_text a b c ws dash tail)
  /\ extract_phone (extract_phone text) = extract_phone text.
Proof.
  split; [|split].
  - intros a b c ws dash tail P ->. apply extract_phone_of_text, P.
  - apply extract_phone_inv.
  - destruct (extract_phone text) as [|x s] eqn:E; [reflexivity|].
    assert (N : extract_phone text <> []) by (rewrite E; discriminate).
    apply extract_phone_inv in N.
    destruct N as (a & b & c & ws & dash & tail & P & ->).
    rewrite (extract_phone_of_text tail P) in E. rewrite <- E.
    destruct P as (La & Fa & Lb & Fb & Lc & Fc & _ & _).
    assert (T : phone_number a b c = phone_text a b c (lit " ") (lit "-") []).
    { unfold phone_number, phone_text. rewrite app_nil_r. reflexivity. }
    rewrite T at 1. apply extract_phone_of_text.
    unfold phone_parts. repeat (split; [assumption|]).
    split; [reflexivity | right; reflexivity].
Qed.

Lemma phone_is_normalised_witness :
  extract_phone spaced_phone_line = lit "(402) 555-1234".
Proof.
  apply (proj1 (phone_is_normalised spaced_phone_line)
               (lit "402") (lit "555") (lit "1234") (lit "   ") []
               (lit " Currently Accepts Subsidy? Y")).
  - unfold phone_parts. repeat split; auto.
  - reflexivity.
Defined.

(** ** Names that cleanup leaves alone *)

(** X16: [clean_provider_name] returns a name unchanged exactly when
    the name has no white space at either end and does not end in white
    space followed by "owned by", "owned" or "ob" (in any letter case);
    the cleaned name is never longer than the name. *)
Theorem clean_provider_name_fixed_points (name : str) :
  (clean_provider_name name = name
   <-> trimmed name /\ has_trailing_fragment name = false)
  /\ length (clean_provider_name name) <= length name.
Proof.
  split; [|apply clean_provider_name_length].
  split.
  - intros H. split.
    + rewrite <- H. apply clean_provider_name_trimmed.
    + destruct (has_trailing_fragment name) eqn:E; [|reflexivity].
      apply fragment_is_removed in E. rewrite H in E. lia.
  - intros [[Hs He] Hf]. apply no_fragment_fixed; assumption.
Qed.

(** ** The script *)

Lemma main_cases downloaded date_str :
  main downloaded date_str
  = match downloaded with
    | None => Exit 1
    | Some pdf =>
        let rows := extract_providers_from_pdf pdf date_str in
        if fst (run_all_tests pdf rows (Some extract_providers_from_pdf)
                              date_str)
        then Csv_written rows else Exit 1
    end.
Proof.
  unfold main. destruct downloaded as [pdf|]; [|reflexivity]. cbv zeta.
  destruct (run_all_tests pdf _ _ date_str) as [[] r]; reflexivity.
Qed.

(** The three tests of [run_all_tests] when the parser is passed on. *)
Lemma run_all_tests_pass_iff pdf rows (f : parser) d :
  fst (run_all_tests pdf rows (Some f) d) = true
  <-> errors (test_data_quality rows) = []
      /\ errors (test_field_completeness rows default_required_rate) = []
      /\ errors (test_parsing_determinism pdf f d) = [].
Proof.
  rewrite run_all_tests_passed, run_all_tests_errors.
  unfold determinism_errors. split.
  - intros H. apply app_eq_nil in H. destruct H as [Q H].
    apply app_eq_nil in H. tauto.
  - intros (-> & -> & ->). reflexivity.
Qed.

Lemma quality_errors_volume rows :
  errors (test_data_quality rows) = [] -> MIN_EXPECTED_PROVIDERS <= length rows.
Proof.
  intros H. destruct (test_data_quality_keeps rows) as (_ & HE & _).
  destruct (length rows <? MIN_EXPECTED_PROVIDERS) eqn:E.
  - specialize (HE (Too_few_providers (length rows) MIN_EXPECTED_PROVIDERS)).
    rewrite H in HE. destruct HE. simpl. auto.
  - apply Nat.ltb_ge in E. exact E.
Qed.

(** X17: the script [main] of download_and_parse.py writes the CSV file
    exactly when the download succeeded and none of the three tests run
    by [run_all_tests] (data quality, field completeness, and the
    determinism test on two further runs of the parser) reports an error;
    the rows written are the records parsed first, at least
    MIN_EXPECTED_PROVIDERS of them, each with fields of the accepted
    formats.  In every other case the script exits with status 1. *)
Theorem main_writes_validated_records
        (downloaded : option (list (option str))) (date_str : str) :
  (forall rows,
      main downloaded date_str = Csv_written rows
      <-> exists pdf,
            downloaded = Some pdf
            /\ rows = extract_providers_from_pdf pdf date_str
            /\ errors (test_data_quality rows) = []
            /\ errors (test_field_completeness rows default_required_rate) = []
            /\ errors (test_parsing_determinism
                         pdf extract_providers_from_pdf date_str) = [])
  /\ (forall rows,
        main downloaded date_str = Csv_written rows ->
        MIN_EXPECTED_PROVIDERS <= length rows
        /\ forallb clean_record rows = true)
  /\ (forall status, main downloaded date_str = Exit status -> status = 1).
Proof.
  assert (A : forall rows,
      main downloaded date_str = Csv_written rows
      <-> exists pdf,
            downloaded = Some pdf
            /\ rows = extract_providers_from_pdf pdf date_str
            /\ errors (test_data_quality rows) = []
            /\ errors (test_field_completeness rows default_required_rate) = []
            /\ errors (test_parsing_determinism
                         pdf extract_providers_from_pdf date_str) = []).
  { intros rows. rewrite main_cases. split.
    - destruct downloaded as [pdf|]; [|discriminate]. cbv zeta.
      destruct (fst (run_all_tests pdf _ _ date_str)) eqn:E; [|discriminate].
      intros H. inversion H as [R]. exists pdf.
      apply run_all_tests_pass_iff in E. rewrite R in *. tauto.
    - intros (pdf & -> & -> & Q & C & D). cbv zeta.
      pose proof (proj2 (run_all_tests_pass_iff
                           pdf (extract_providers_from_pdf pdf date_str)
                           extract_providers_from_pdf date_str)
                        (conj Q (conj C D))) as P.
      match goal with
      | |- (if ?c then _ else _) = _ => destruct c eqn:E
      end; [reflexivity|].
      assert (X : false = true) by (rewrite <- E; exact P). discriminate X. }
  split; [exact A|]. split.
  - intros rows H. apply A in H. destruct H as (pdf & _ & -> & Q & _).
    split; [apply quality_errors_volume, Q | apply parser_records_clean].
  - intros status. rewrite main_cases.
    destruct downloaded as [pdf|]; cbv zeta;
      [destruct (fst (run_all_tests pdf _ _ date_str))|];
      intros H; inversion H; reflexivity.
Qed.

Lemma main_writes_validated_records_witness :
  main (Some full_pdf) sample_date = Csv_written (repeat short_record 100).
Proof.
  assert (E : extract_providers_from_pdf full_pdf sample_date
              = repeat short_record 100) by (vm_compute; reflexivity).
  apply (proj2 (proj1 (main_writes_validated_records (Some full_pdf)
                                                     sample_date) _)).
  exists full_pdf. unfold test_parsing_determinism. cbv zeta. rewrite E.
  repeat split; vm_compute; reflexivity.
Defined.

(** ** City, state and zip code *)

Lemma sub_loop_incl ic r x : forall fuel adv p q,
  In x (sub_loop fuel ic r [] adv p q) -> In x q.
Proof.
  induction fuel as [|fuel IH]; intros adv p q H; [exact H|].
  destruct (search_from ic r adv p q) as [m|] eqn:E.
  - destruct (@sub_loop_step ic r fuel adv p q m E) as (a & t & Eq & _ & Es).
    rewrite Es in H. rewrite Eq. apply in_app_or in H.
    destruct H as [H | H]; [apply in_or_app; auto|].
    apply IH in H. apply in_or_app. right. apply in_or_app. auto.
  - simpl in H. rewrite E in H. exact H.
Qed.

Lemma re_sub_incl ic r s x : In x (re_sub ic r [] s) -> In x s.
Proof. apply sub_loop_incl. Qed.

(** What a match of the city pattern consists of. *)
Lemma Match_city_inv z z' c' :
  Match false city_re z [] z' c' ->
  exists g w1 w2 zip o1 o2,
    ahead z = g ++ w1 ++ lit "NE" ++ w2 ++ zip ++ ahead z'
    /\ g <> [] /\ forallb is_city_char g = true /\ length g <= 31
    /\ w1 <> [] /\ forallb is_space w1 = true
    /\ w2 <> [] /\ forallb is_space w2 = true
    /\ length zip = 5 /\ forallb is_digit zip = true
    /\ c' = [(2, (o2, zip)); (1, (o1, g))].
Proof.
  unfold city_re, plus, tok. intros HM.
  destruct HM as (z0 & c0 & (_ & -> & ->) & z1 & c1 & H1 & z2 & c2 & H2
                  & z3 & c3 & H3 & z4 & c4 & H4 & z5 & c5 & H5 & _ & -> & ->).
  destruct H1 as (k1 & (zm & cm & Hx & Ht) & ->).
  destruct Hx as (x & q & Ax & Fx & -> & ->). rewrite cls_match_cs in Fx.
  apply Match_Rep_cs in Ht. destruct Ht as (t & At & Ft & _ & Lt & ->).
  apply Match_Rep_cs in H2. destruct H2 as (w1 & A2 & F2 & L2 & _ & ->).
  apply Match_Lit_cs in H3. destruct H3 as [A3 ->].
  apply Match_Rep_cs in H4. destruct H4 as (w2 & A4 & F4 & L4 & _ & ->).
  destruct H5 as (k5 & H5 & ->). apply Match_exactly in H5.
  destruct H5 as (zip & A5 & F5 & L5 & ->).
  pose proof (advance_trans (advance_one z Ax) At) as Ag.
  rewrite (between_advance Ag), (between_advance A5).
  exists ([x] ++ t), w1, w2, zip, (offset z), (offset z4).
  split.
  { rewrite (proj1 Ag), (proj1 A2), (proj1 A3), (proj1 A4), (proj1 A5).
    reflexivity. }
  simpl in Lt.
  repeat split; auto.
  - discriminate.
  - simpl. unfold is_city_char at 1. rewrite Fx, Ft. reflexivity.
  - simpl. lia.
  - intros ->. simpl in L2. lia.
  - intros ->. simpl in L4. lia.
Qed.

Lemma forallb_incl (f : ascii -> bool) (s t : str) :
  (forall x, In x s -> In x t) -> forallb f t = true -> forallb f s = true.
Proof.
  intros H F. apply forallb_forall. intros x Hx.
  rewrite forallb_forall in F. apply F, H, Hx.
Qed.

Lemma city_cleanup_incl g x :
  In x (strip (re_sub true nebraska_re [] (strip g))) -> In x g.
Proof.
  intros H. apply strip_incl, re_sub_incl, strip_incl in H. exact H.
Qed.

Lemma city_cleanup_length g :
  length (strip (re_sub true nebraska_re [] (strip g))) <= length g.
Proof.
  eapply Nat.le_trans; [apply strip_length|].
  eapply Nat.le_trans; [apply re_sub_length | apply strip_length].
Qed.

Lemma extract_city_state_zip_cases text :
  extract_city_state_zip text = ([], [], [])
  \/ exists city zip pre g w1 w2 post,
       extract_city_state_zip text = (city, lit "NE", zip)
       /\ city_shape city
       /\ length zip = 5 /\ forallb is_digit zip = true
       /\ text = pre ++ g ++ w1 ++ lit "NE" ++ w2 ++ zip ++ post
       /\ w1 <> [] /\ forallb is_space w1 = true
       /\ w2 <> [] /\ forallb is_space w2 = true
       /\ (forall x, In x city -> In x g).
Proof.
  unfold extract_city_state_zip.
  destruct (re_search false city_re text) as [m|] eqn:E; [|left; reflexivity].
  apply re_search_sound in E. destruct E as (a & b & z' & c' & -> & HM & ->).
  apply Match_city_inv in HM.
  destruct HM as (g & w1 & w2 & zip & o1 & o2 & Eb & Ng & Fg & Lg & N1 & F1
                  & N2 & F2 & Lz & Fz & ->).
  cbv zeta. unfold grp, group_text. cbn [m_caps group Nat.eqb option_map snd].
  destruct (nonempty (strip (re_sub true nebraska_re [] (strip g)))) eqn:En;
    [right | left; reflexivity].
  exists (strip (re_sub true nebraska_re [] (strip g))), zip, a, g, w1, w2,
    (ahead z').
  simpl in Eb. rewrite Eb.
  split; [reflexivity|]. split.
  { split; [intros H; rewrite H in En; discriminate|].
    split; [apply trimmed_strip|]. split.
    - eapply forallb_incl; [apply city_cleanup_incl | exact Fg].
    - eapply Nat.le_trans; [apply city_cleanup_length | exact Lg]. }
  repeat split; auto. apply city_cleanup_incl.
Qed.

Lemma city_fold_shape lines : forall acc,
  acc = [] \/ city_shape acc ->
  fold_left city_step lines acc = []
  \/ city_shape (fold_left city_step lines acc).
Proof.
  induction lines as [|l lines IH]; intros acc H; [exact H|].
  simpl. apply IH. unfold city_step.
  destruct (negb (nonempty acc)); [|exact H].
  destruct (extract_city_state_zip_cases l) as [-> | (city & zip & pre & g & w1
    & w2 & post & -> & S & _)]; [exact H|].
  destruct (nonempty city); [right; exact S | exact H].
Qed.

(** X18: [extract_city_state_zip] returns three empty strings, or a city,
    the state NE and a zip code of five digits that stands in the text
    after a text for the city, white space, NE and white space.  The city
    is then not empty, has no white space at either end, is made of
    letters, white space and periods taken from the text in front of NE,
    and has at most 31 characters.  The City of a record made by
    [parse_provider_block] is empty or such a city. *)
Theorem city_state_zip_shape (text : str) (lines : list str)
        (zip county download_date : str) :
  (extract_city_state_zip text = ([], [], [])
   \/ exists city zip5 pre g w1 w2 post,
        extract_city_state_zip text = (city, lit "NE", zip5)
        /\ city_shape city
        /\ length zip5 = 5 /\ forallb is_digit zip5 = true
        /\ text = pre ++ g ++ w1 ++ lit "NE" ++ w2 ++ zip5 ++ post
        /\ w1 <> [] /\ forallb is_space w1 = true
        /\ w2 <> [] /\ forallb is_space w2 = true
        /\ (forall x, In x city -> In x g))
  /\ (City (parse_provider_block lines zip county download_date) = []
      \/ city_shape (City (parse_provider_block lines zip county
                                                download_date))).
Proof.
  split; [apply extract_city_state_zip_cases|].
  unfold parse_provider_block. destruct lines as [|l conts];
    [left; reflexivity|].
  destruct (name_and_address l (extract_license_number l)) as [name address].
  destruct (fold_left date_step (l :: conts) ([], [])) as [eff owner].
  cbn [City]. apply city_fold_shape. left. reflexivity.
Qed.

(** ** The first line of a block *)

Lemma occurrences_none n : forall s, occurrences n s = 0 -> str_in n s = false.
Proof.
  induction s as [|x s IH]; simpl; intros H.
  - destruct (startswith n []); [discriminate | reflexivity].
  - destruct (startswith n (x :: s)); [discriminate|]. simpl. apply IH, H.
Qed.

Lemma occurrences_some n a b : 1 <= occurrences n (a ++ n ++ b).
Proof.
  destruct (occurrences n (a ++ n ++ b)) eqn:E; [|lia].
  apply occurrences_none in E.
  assert (H : str_in n (a ++ n ++ b) = true) by (apply str_in_spec; eauto).
  rewrite H in E. discriminate.
Qed.

Lemma occurrences_app_r n s : forall a,
  occurrences n s <= occurrences n (a ++ s).
Proof.
  induction a as [|x a IH]; [apply Nat.le_refl|].
  cbn [app occurrences]. lia.
Qed.

Lemma startswith_self n b : startswith n (n ++ b) = true.
Proof. apply startswith_spec. eauto. Qed.

(** The one place at which a text stands. *)
Lemma occurrences_unique n : n <> [] -> forall a a' b b',
  occurrences n (a ++ n ++ b) = 1 -> a ++ n ++ b = a' ++ n ++ b' -> a = a'.
Proof.
  intros Hn.
  assert (Head : forall b t b', occurrences n (n ++ b) = 1 ->
                                tl (n ++ b) = t ++ n ++ b' -> False).
  { intros b t b' H E. destruct n as [|y n']; [contradiction|].
    cbn [app] in H, E. cbn [occurrences] in H.
    change (y :: n' ++ b) with ((y :: n') ++ b) in H.
    rewrite startswith_self in H. cbn [tl] in E. rewrite E in H.
    pose proof (occurrences_some (y :: n') t b') as P.
    cbn [app] in H, P. lia. }
  induction a as [|x a IH]; intros a' b b' H E.
  - destruct a' as [|x' a']; [reflexivity|]. exfalso.
    simpl in E. apply (Head b a' b' H). rewrite E. reflexivity.
  - destruct a' as [|x' a'].
    + exfalso. cbn [app] in E, H. rewrite E in H.
      apply (Head b' a b H). rewrite <- E. reflexivity.
    + cbn [app] in E. inversion E as [[Ex Et]]. f_equal.
      apply (IH a' b b'); [|exact Et].
      cbn [app occurrences] in H.
      pose proof (occurrences_some n a b). lia.
Qed.

Lemma split_aux_skip sep : forall t cur s,
  split_aux sep (length t) cur (t ++ s) = split_aux sep 0 cur s.
Proof.
  induction t as [|x t IH]; intros cur s; [reflexivity|]. simpl. apply IH.
Qed.

Lemma split_aux_none sep : forall s cur,
  str_in sep s = false -> split_aux sep 0 cur s = [rev cur ++ s].
Proof.
  induction s as [|x s IH]; intros cur H.
  - simpl. rewrite app_nil_r. reflexivity.
  - cbn [str_in] in H. apply orb_false_iff in H. destruct H as [H1 H2].
    cbn [split_aux]. rewrite H1, (IH (x :: cur) H2). simpl.
    rewrite <- app_assoc. reflexivity.
Qed.

(** [s.split(sep)] when [sep] stands in [s] once. *)
Lemma split_aux_once sep : sep <> [] -> forall pre cur post,
  occurrences sep (pre ++ sep ++ post) = 1 ->
  split_aux sep 0 cur (pre ++ sep ++ post) = [rev cur ++ pre; post].
Proof.
  intros Hn. induction pre as [|x pre IH]; intros cur post H.
  - destruct sep as [|y sep']; [contradiction|].
    cbn [app] in *. cbn [occurrences] in H. cbn [split_aux].
    change (y :: sep' ++ post) with ((y :: sep') ++ post) in *.
    rewrite startswith_self in *. rewrite app_nil_r.
    replace (length (y :: sep') - 1) with (length sep') by (simpl; lia).
    rewrite split_aux_skip, split_aux_none; [reflexivity|].
    apply occurrences_none.
    pose proof (occurrences_app_r (y :: sep') post sep'). lia.
  - cbn [app] in *. cbn [occurrences] in H.
    pose proof (occurrences_some sep pre post) as P.
    cbn [split_aux].
    destruct (startswith sep (x :: pre ++ sep ++ post)); [lia|].
    rewrite IH by lia. simpl. rewrite <- app_assoc. reflexivity.
Qed.

Lemma split_once sep pre post :
  sep <> [] -> occurrences sep (pre ++ sep ++ post) = 1 ->
  split sep (pre ++ sep ++ post) = [pre; post].
Proof. intros Hn H. unfold split. rewrite split_aux_once; auto. Qed.

Lemma lstrip_app a b :
  lstrip (a ++ b) = if forallb is_space a then lstrip b else lstrip a ++ b.
Proof.
  induction a as [|x a IH]; [reflexivity|]. simpl.
  destruct (is_space x); [exact IH | reflexivity].
Qed.

Lemma lstrip_nil_spaces s : lstrip s = [] -> forallb is_space s = true.
Proof.
  induction s as [|x s IH]; [reflexivity|]. simpl.
  destruct (is_space x); [exact IH | discriminate].
Qed.

Lemma forallb_reverse (f : ascii -> bool) s :
  forallb f (rev s) = forallb f s.
Proof.
  induction s as [|x s IH]; [reflexivity|]. simpl.
  rewrite forallb_app, IH. simpl. rewrite andb_true_r. apply andb_comm.
Qed.

Lemma rstrip_app_spaces a w :
  forallb is_space w = true -> rstrip (a ++ w) = rstrip a.
Proof.
  intros H. unfold rstrip. rewrite rev_app_distr, lstrip_app.
  rewrite forallb_reverse, H. reflexivity.
Qed.

Lemma strip_app_spaces a w :
  forallb is_space w = true -> strip (a ++ w) = strip a.
Proof.
  intros H. unfold strip. rewrite lstrip_app.
  destruct (forallb is_space a) eqn:E.
  - rewrite (lstrip_spaces _ H), (lstrip_spaces _ E). reflexivity.
  - apply rstrip_app_spaces, H.
Qed.

(** The address ends where [Capacity:] or the white space in front of it
    begins. *)
Lemma address_before_capacity mid rest :
  occurrences (lit "Capacity:") (mid ++ lit "Capacity:" ++ rest) = 1 ->
  match re_search false cap_marker_re (mid ++ lit "Capacity:" ++ rest) with
  | Some cap_match =>
      strip (firstn (m_start cap_match) (mid ++ lit "Capacity:" ++ rest))
  | None => []
  end = strip mid.
Proof.
  intros H.
  assert (C : exists m, re_search false cap_marker_re
                                  (mid ++ lit "Capacity:" ++ rest) = Some m).
  { apply (@re_search_complete false cap_marker_re mid
             (lit "Capacity:" ++ rest)
             (Cursor (rev (lit "Capacity:") ++ rev mid) rest) []).
    unfold cap_marker_re, star, tok.
    exists (Cursor (rev mid) (lit "Capacity:" ++ rest)), []. split.
    - apply Match_Rep_cs. exists []. repeat split; simpl; auto.
    - apply Match_Lit_cs. split; [split|]; reflexivity. }
  destruct C as [m Em]. rewrite Em.
  apply re_search_sound in Em.
  destruct Em as (a & b & z' & c' & E & HM & ->).
  unfold cap_marker_re, star, tok in HM.
  destruct HM as (z1 & c1 & H1 & H2).
  apply Match_Rep_cs in H1. destruct H1 as (w & [A1 _] & Fw & _ & _ & ->).
  apply Match_Lit_cs in H2. destruct H2 as [[A2 _] _].
  simpl in A1. rewrite A2 in A1. subst b.
  cbn [m_start]. rewrite E, firstn_app, Nat.sub_diag, firstn_all.
  simpl. rewrite app_nil_r.
  assert (U : mid = a ++ w).
  { apply (@occurrences_unique (lit "Capacity:")) with (b := rest)
                                                       (b' := ahead z');
      [discriminate | exact H |].
    rewrite E, <- app_assoc. reflexivity. }
  rewrite U, strip_app_spaces by exact Fw. reflexivity.
Qed.

Lemma nonempty_true s : s <> [] -> nonempty s = true.
Proof. destruct s; [contradiction | reflexivity]. Qed.

Lemma name_and_address_layout pre lic mid rest :
  lic <> [] ->
  occurrences lic (pre ++ lic ++ mid ++ lit "Capacity:" ++ rest) = 1 ->
  occurrences (lit "Capacity:")
              (pre ++ lic ++ mid ++ lit "Capacity:" ++ rest) = 1 ->
  name_and_address (pre ++ lic ++ mid ++ lit "Capacity:" ++ rest) lic
  = (clean_provider_name (before_owned_by (strip pre)), strip mid).
Proof.
  intros Hn Hl Hc. unfold name_and_address.
  rewrite (nonempty_true Hn), (split_once _ _ Hn Hl).
  rewrite address_before_capacity.
  - unfold before_owned_by.
    destruct (re_search true owned_re (strip pre)); reflexivity.
  - pose proof (occurrences_some (lit "Capacity:") mid rest) as P.
    pose proof (occurrences_app_r (lit "Capacity:")
                  (mid ++ lit "Capacity:" ++ rest) (pre ++ lic)) as Q.
    rewrite <- app_assoc in Q. lia.
Qed.

(** X19: the layout of the first line of a block.  When the line reads
    [pre], license number, [mid], "Capacity:", [rest], where the license
    number is the one [extract_license_number] finds and it and
    "Capacity:" stand in the line once, the record has this license
    number, the cleaned name read from [pre] (cut in front of the words
    "owned by" when they follow a name), and the address [mid] without
    the white space around it; Capacity and Days_Open are read from this
    line. *)
Theorem first_line_layout (pre lic mid rest : str) (conts : list str)
        (zip county download_date : str) :
  let line1 := pre ++ lic ++ mid ++ lit "Capacity:" ++ rest in
  extract_license_number line1 = lic ->
  lic <> [] ->
  occurrences lic line1 = 1 ->
  occurrences (lit "Capacity:") line1 = 1 ->
  let p := parse_provider_block (line1 :: conts) zip county download_date in
  License_Number p = lic
  /\ Provider_Name p = clean_provider_name (before_owned_by (strip pre))
  /\ Address p = strip mid
  /\ Capacity p = extract_capacity line1
  /\ Days_Open p = extract_days line1.
Proof.
  intros line1 El Hn Hl Hc p. subst p.
  rewrite parse_provider_block_cons.
  cbn [License_Number Provider_Name Address Capacity Days_Open].
  rewrite El. unfold line1. rewrite (name_and_address_layout _ _ _ Hn Hl Hc).
  repeat split; reflexivity.
Qed.

Lemma first_line_layout_witness :
  let p := parse_provider_block [sunny_days_line] [] [] [] in
  License_Number p = lit "CCC9578"
  /\ Provider_Name p = lit "Sunny Days"
  /\ Address p = lit "123 Main St".
Proof.
  destruct (@first_line_layout (lit "Sunny Days ") (lit "CCC9578")
              (lit " 123 Main St ") (lit " 10 MTWTHF") [] [] [] [])
    as (L & N & A & _); try (vm_compute; reflexivity); [discriminate|].
  cbv zeta. split; [exact L|]. split; [exact N | exact A].
Defined.

(** ** The line that holds the date *)

(** What a match of the owner pattern at the start of a line consists
    of. *)
Lemma Match_owner_inv date line z' c' :
  Match false (owner_re date) (Cursor [] line) [] z' c' ->
  exists g w o,
    line = g ++ w ++ date ++ ahead z'
    /\ forallb is_space w = true
    /\ c' = [(1, (o, g))].
Proof.
  unfold owner_re, lazy_plus, plus. intros HM.
  destruct HM as (z0 & c0 & (_ & -> & ->) & z1 & c1 & H1 & z2 & c2 & H2 & H3).
  destruct H1 as (k1 & H1 & ->).
  apply Match_Rep_cs in H1. destruct H1 as (g & A1 & _ & _ & _ & ->).
  apply Match_Rep_cs in H2. destruct H2 as (w & [A2 _] & Fw & _ & _ & ->).
  apply Match_Lit_cs in H3. destruct H3 as [[A3 _] ->].
  exists g, w, (offset (Cursor [] line)).
  rewrite (between_advance A1).
  pose proof (proj1 A1) as E. simpl in E.
  rewrite E, A2, A3. auto.
Qed.

Lemma Match_Lit_last s p q c :
  Match false (Lit s) (Cursor p (s ++ q)) c (Cursor (rev s ++ p) q) c.
Proof. apply Match_Lit_cs. split; [split|]; reflexivity. Qed.

(** A line with an owner name, white space and the date has a match. *)
Lemma Match_owner_intro date owner ws rest :
  owner <> [] -> ws <> [] -> forallb is_space ws = true ->
  forallb is_dot (owner ++ ws) = true ->
  exists z' c',
    Match false (owner_re date)
          (Cursor [] (owner ++ ws ++ date ++ rest)) [] z' c'.
Proof.
  intros Ho Hw Fw Fd.
  destruct (exists_last Hw) as (ws0 & x & ->).
  rewrite forallb_app in Fw. apply andb_true_iff in Fw.
  destruct Fw as [_ Fx]. simpl in Fx. rewrite andb_true_r in Fx.
  rewrite app_assoc, forallb_app in Fd. apply andb_true_iff in Fd.
  destruct Fd as [Fd _].
  replace (owner ++ (ws0 ++ [x]) ++ date ++ rest)
    with ((owner ++ ws0) ++ [x] ++ date ++ rest)
    by (rewrite <- !app_assoc; reflexivity).
  unfold owner_re, lazy_plus, plus. do 2 eexists.
  apply Match_Bol_step.
  eapply (@Match_seq_step _ _ (owner ++ ws0)).
  { exists []. split; [|reflexivity].
    apply Match_Rep_cs. exists (owner ++ ws0).
    split; [split; reflexivity|]. repeat split; auto.
    rewrite length_app. destruct owner; [contradiction | simpl; lia]. }
  eapply (@Match_seq_step _ _ [x]).
  { apply Match_Rep_cs. exists [x]. split; [split; reflexivity|].
    simpl. rewrite Fx. repeat split; auto. }
  apply Match_Lit_last.
Qed.

Lemma owner_of_layout owner ws date rest :
  let line := owner ++ ws ++ date ++ rest in
  extract_effective_date line = date -> date <> [] ->
  occurrences date line = 1 ->
  owner <> [] -> ws <> [] -> forallb is_space ws = true ->
  forallb is_dot (owner ++ ws) = true ->
  owner_of line = strip owner.
Proof.
  intros line Ed Nd Hocc Ho Hw Fw Fd. unfold owner_of. rewrite Ed.
  destruct (@Match_owner_intro date owner ws rest Ho Hw Fw Fd)
    as (z1 & c1 & HM).
  apply match_at_complete in HM. destruct HM as [m Hm].
  unfold re_match. fold line in Hm. rewrite Hm.
  apply match_at_sound in Hm. destruct Hm as (z' & c' & HM & -> & _).
  apply Match_owner_inv in HM. destruct HM as (g & w & o & E & Fg & ->).
  unfold grp, group_text. cbn [m_caps group Nat.eqb option_map snd].
  assert (U : owner ++ ws = g ++ w).
  { apply (@occurrences_unique date Nd) with (b := rest) (b' := ahead z').
    - rewrite <- app_assoc. exact Hocc.
    - rewrite <- !app_assoc. exact E. }
  rewrite <- (@strip_app_spaces g w Fg), <- U. apply strip_app_spaces, Fw.
Qed.

Lemma dated_line_nonempty lines l :
  dated_line lines = Some l -> extract_effective_date l <> [].
Proof.
  unfold dated_line. intros H. apply find_some in H. destruct H as [_ H].
  intros E. rewrite E in H. discriminate.
Qed.

(** X20: the owner name stands in front of the date.  When the first
    line of a block that holds a date reads [owner], white space, the
    date, [rest], where the date is the one [extract_effective_date]
    finds, it stands in the line once and no line break stands in front
    of it, the record has this date as Effective_Date and [owner] without
    the white space around it as Owner_Name. *)
Theorem owner_stands_before_date (owner ws date rest : str)
        (lines : list str) (zip county download_date : str) :
  let line := owner ++ ws ++ date ++ rest in
  dated_line lines = Some line ->
  extract_effective_date line = date ->
  occurrences date line = 1 ->
  owner <> [] -> ws <> [] -> forallb is_space ws = true ->
  forallb is_dot (owner ++ ws) = true ->
  let p := parse_provider_block lines zip county download_date in
  Effective_Date p = date /\ Owner_Name p = strip owner.
Proof.
  intros line Hd Ed Hocc Ho Hw Fw Fd p. subst p.
  assert (Nd : date <> []).
  { rewrite <- Ed. eapply dated_line_nonempty, Hd. }
  destruct lines as [|l conts]; [discriminate|].
  rewrite parse_provider_block_cons. cbn [Effective_Date Owner_Name].
  rewrite date_first_hit_nil, Hd. cbn [fst snd].
  split; [exact Ed|].
  pose proof (@owner_of_layout owner ws date rest Ed Nd Hocc Ho Hw Fw Fd) as O.
  unfold owner_of in O. exact O.
Qed.

Lemma owner_stands_before_date_witness :
  let p := parse_provider_block [sunny_start_line; owner_line] [] [] [] in
  Effective_Date p = lit "04/30/2024" /\ Owner_Name p = lit "Jane Doe".
Proof.
  apply (@owner_stands_before_date (lit "Jane Doe") (lit "  ")
           (lit "04/30/2024")
           (lit " Child Care Center Ages: 6 WKS To 13 YRS")
           [sunny_start_line; owner_line] [] [] []);
    try (vm_compute; reflexivity); discriminate.
Defined.
